(** * Fortify Alliances front end: class-toggling controllers

    A shallow embedding of [src/script.js] and [src/animations.js].

    The scripts are event handlers over the browser document.  A handler
    reads and writes three things: the class list of an element, the
    tree of child nodes, and a few variables captured by its closure.
    The embedding keeps the document as a store indexed by element
    handles, so two references to one element see the same class list,
    and it writes every handler as a function on that store, named after
    the source function it is translated from. *)

From Stdlib Require Import ZArith QArith Lia.
From stdpp Require Import base option list sorting gmap strings.

Local Open Scope string_scope.
Local Open Scope list_scope.
Local Open Scope nat_scope.
Local Open Scope stdpp_scope.

(** ** Completions of JavaScript code

    A handler either returns or throws, and what it wrote before it threw
    stays written.  [JS S A] is a computation over a state [S]. *)

Inductive js_error : Type :=
  | TypeError      (* property access on null *)
  | SyntaxError.   (* a selector string that does not parse *)

Inductive completion (A : Type) : Type :=
  | Normal (a : A)
  | Throw (e : js_error).
Arguments Normal {A} a.
Arguments Throw {A} e.

Definition JS (S A : Type) : Type := S → completion A * S.

Definition ret {S A} (a : A) : JS S A := λ s, (Normal a, s).

Definition bind {S A B} (k : A → JS S B) (m : JS S A) : JS S B :=
  λ s, match m s with
       | (Normal a, s') => k a s'
       | (Throw e, s') => (Throw e, s')
       end.

#[global] Instance JS_ret {S} : MRet (JS S) := λ A, @ret S A.
#[global] Instance JS_bind {S} : MBind (JS S) := λ A B, @bind S A B.

Definition throw {S A} (e : js_error) : JS S A := λ s, (Throw e, s).
Definition get {S} : JS S S := λ s, (Normal s, s).
Definition modify {S} (f : S → S) : JS S unit := λ s, (Normal tt, f s).

(** [o.p] where [o] may be [null]. *)
Definition nonnull {S A} (o : option A) : JS S A :=
  match o with
  | Some a => ret a
  | None => throw TypeError
  end.

(** [xs.forEach(f)]: in order, abandoned at the first exception. *)
Fixpoint forEach {S A} (xs : list A) (f : A → JS S unit) : JS S unit :=
  match xs with
  | [] => ret tt
  | x :: xs' => f x;; forEach xs' f
  end.

(** The state a handler leaves behind. *)
Definition exec {S A} (m : JS S A) (s : S) : S := (m s).2.

(** [stable R m]: running [m] takes a state to an [R]-related one,
    whether [m] returns or throws. *)
Definition stable {S} (R : relation S) {A} (m : JS S A) : Prop :=
  ∀ s, R s (exec m s).

(** ** The document *)

(** Element handles.  Handle [document] is the document node itself,
    which is not an element and matches no selector. *)
Abbreviation elem := nat (only parsing).
Definition document : elem := 0.

(** [classes] holds each element's [classList], an ordered set of
    tokens; [attributes] the other attributes ([data-tab],
    [data-content]); [childNodes] the child elements in document order.
    The parent of a node is read off [childNodes].  [next_node] is the
    next unused handle, for [cloneNode]. *)
Record dom : Type := mkDom {
  classes : gmap nat (list string);
  attributes : gmap nat (gmap string string);
  childNodes : gmap nat (list nat);
  next_node : nat
}.

Module TokenList.
(** [DOMTokenList]: [add] appends a token that is not there, [remove]
    deletes it, [toggle] does the one that applies. *)
Definition contains (c : string) (l : list string) : bool :=
  bool_decide (c ∈ l).

Definition add (c : string) (l : list string) : list string :=
  if contains c l then l else l ++ [c].

Definition remove (c : string) (l : list string) : list string :=
  filter (λ x, x ≠ c) l.

Definition toggle (c : string) (l : list string) : list string :=
  if contains c l then remove c l else l ++ [c].
End TokenList.

Definition classList (e : elem) (d : dom) : list string :=
  default [] (classes d !! e).

Definition set_classList (e : elem) (l : list string) (d : dom) : dom :=
  mkDom (<[e := l]> (classes d)) (attributes d) (childNodes d) (next_node d).

Definition classList_contains (e : elem) (c : string) (d : dom) : bool :=
  TokenList.contains c (classList e d).

Definition classList_add (e : elem) (c : string) (d : dom) : dom :=
  set_classList e (TokenList.add c (classList e d)) d.

Definition classList_remove (e : elem) (c : string) (d : dom) : dom :=
  set_classList e (TokenList.remove c (classList e d)) d.

Definition classList_toggle (e : elem) (c : string) (d : dom) : dom :=
  set_classList e (TokenList.toggle c (classList e d)) d.

(** *** The tree *)

Definition children (e : elem) (d : dom) : list elem :=
  default [] (childNodes d !! e).

Definition set_children (e : elem) (ks : list elem) (d : dom) : dom :=
  mkDom (classes d) (attributes d) (<[e := ks]> (childNodes d)) (next_node d).

(** The node whose child list holds [e]. *)
Definition parentNode (e : elem) (d : dom) : option elem :=
  fst <$> head (filter (λ p : nat * list nat, e ∈ p.2)
                      (map_to_list (childNodes d))).

(** A tree is no deeper than the number of nodes that have children,
    plus one; the walks below take that many steps at most. *)
Definition depth_bound (d : dom) : nat := S (size (childNodes d)).

(** The proper descendants of [e] in document order. *)
Fixpoint descendants_upto (fuel : nat) (d : dom) (e : elem) : list elem :=
  match fuel with
  | O => []
  | S fuel' =>
      flat_map (λ k, k :: descendants_upto fuel' d k) (children e d)
  end.

Definition descendants (d : dom) (e : elem) : list elem :=
  descendants_upto (depth_bound d) d e.

(** [e] and its ancestors, nearest first. *)
Fixpoint ancestors_upto (fuel : nat) (d : dom) (e : elem) : list elem :=
  e :: match fuel with
       | O => []
       | S fuel' =>
           match parentNode e d with
           | Some p => ancestors_upto fuel' d p
           | None => []
           end
       end.

Definition ancestors_or_self (d : dom) (e : elem) : list elem :=
  ancestors_upto (depth_bound d) d e.

(** *** Selectors

    The selectors the scripts use on a changing document: a compound
    class selector ([.a.b]), an attribute selector ([[name="value"]]) and
    a compound class selector below another ([.a .b]).  These are the
    selectors as the browser holds them once it has read their text. *)

Inductive selector : Type :=
  | SelClasses (cs : list string)
  | SelAttr (name value : string)
  | SelWithin (outer inner : list string).

Definition getAttribute (e : elem) (name : string) (d : dom) : option string :=
  attributes d !! e ≫= λ attrs, attrs !! name.

Definition has_classes (cs : list string) (d : dom) (e : elem) : bool :=
  negb (bool_decide (e = document)) &&
  forallb (λ c, classList_contains e c d) cs.

Definition matches (sel : selector) (d : dom) (e : elem) : bool :=
  match sel with
  | SelClasses cs => has_classes cs d e
  | SelAttr name value =>
      negb (bool_decide (e = document)) &&
      bool_decide (getAttribute e name d = Some value)
  | SelWithin outer inner =>
      has_classes inner d e &&
      existsb (has_classes outer d) (tail (ancestors_or_self d e))
  end.

Definition querySelectorAll (root : elem) (sel : selector) (d : dom) : list elem :=
  filter (λ e, matches sel d e = true) (descendants d root).

Definition querySelector (root : elem) (sel : selector) (d : dom) : option elem :=
  head (querySelectorAll root sel d).

Definition closest (e : elem) (sel : selector) (d : dom) : option elem :=
  head (filter (λ a, matches sel d a = true) (ancestors_or_self d e)).

(** [e.isConnected]: the document is among the ancestors of [e]. *)
Definition isConnected (e : elem) (d : dom) : bool :=
  bool_decide (document ∈ ancestors_or_self d e).

(** [e.remove()]: [e] leaves its parent's child list. *)
Definition remove_node (e : elem) (d : dom) : dom :=
  mkDom (classes d) (attributes d)
        (filter (λ k, k ≠ e) <$> childNodes d) (next_node d).

(** [e.innerHTML = ''] *)
Definition clear_children (e : elem) (d : dom) : dom := set_children e [] d.

(** [e.appendChild(k)]: [k] leaves where it was and becomes the last
    child of [e]. *)
Definition appendChild (e k : elem) (d : dom) : dom :=
  let d' := remove_node k d in
  set_children e (children e d' ++ [k]) d'.

(** [e.cloneNode(true)]: a copy of [e] and of the tree below it under
    new handles; the copy has no parent. *)
Definition copy_node (e e' : elem) (d : dom) : dom :=
  mkDom
    (match classes d !! e with
     | Some l => <[e' := l]> (classes d)
     | None => classes d
     end)
    (match attributes d !! e with
     | Some a => <[e' := a]> (attributes d)
     | None => attributes d
     end)
    (childNodes d)
    (S e').

Fixpoint cloneNode_upto (fuel : nat) (e : elem) (d : dom) : elem * dom :=
  let e' := next_node d in
  let d1 := copy_node e e' d in
  match fuel with
  | O => (e', d1)
  | S fuel' =>
      let '(ks', d2) :=
        foldl (λ (acc : list nat * dom) k,
                 let '(k', d') := cloneNode_upto fuel' k acc.2 in
                 (acc.1 ++ [k'], d'))
              ([], d1) (children e d) in
      (e', match ks' with [] => d2 | _ => set_children e' ks' d2 end)
  end.

Definition cloneNode (e : elem) (d : dom) : elem * dom :=
  cloneNode_upto (depth_bound d) e d.

(** *** Documents that differ in some classes only

    [same_except cs d d']: [d'] is [d] but for the classes [cs], which
    any element may have gained or lost. *)
Definition same_except (cs : list string) (d d' : dom) : Prop :=
  attributes d' = attributes d
  ∧ childNodes d' = childNodes d
  ∧ next_node d' = next_node d
  ∧ ∀ e c, c ∉ cs → classList_contains e c d' = classList_contains e c d.

(** The classes a selector looks at. *)
Definition selector_classes (sel : selector) : list string :=
  match sel with
  | SelClasses cs => cs
  | SelAttr _ _ => []
  | SelWithin outer inner => outer ++ inner
  end.

Definition avoids (cs : list string) (sel : selector) : Prop :=
  Forall (λ c, c ∉ cs) (selector_classes sel).

(** ** Timers

    [setTimeout] and [clearTimeout] over a queue of pending callbacks.
    A callback is a value of a type [T] that names the closure; [due] is
    the time in milliseconds from which it may run.  The queue is kept in
    firing order: by due time, and by scheduling order among equals. *)

Record timer (T : Type) : Type := mkTimer {
  timer_id : nat;
  due : nat;
  callback : T
}.
Arguments mkTimer {T} _ _ _.
Arguments timer_id {T} _.
Arguments due {T} _.
Arguments callback {T} _.

Record timers (T : Type) : Type := mkTimers {
  now : nat;
  pending : list (timer T);
  next_timer : nat
}.
Arguments mkTimers {T} _ _ _.
Arguments now {T} _.
Arguments pending {T} _.
Arguments next_timer {T} _.

Fixpoint enqueue {T} (t : timer T) (q : list (timer T)) : list (timer T) :=
  match q with
  | [] => [t]
  | u :: q' => if due u <=? due t then u :: enqueue t q' else t :: u :: q'
  end.

(** [setTimeout(f, delay)] returns the new timer's id. *)
Definition setTimeout {T} (f : T) (delay : nat) (q : timers T) : nat * timers T :=
  (next_timer q,
   mkTimers (now q)
            (enqueue (mkTimer (next_timer q) (now q + delay) f) (pending q))
            (S (next_timer q))).

(** [clearTimeout(id)]; [id] is [undefined] before the first
    [setTimeout]. *)
Definition clearTimeout {T} (id : option nat) (q : timers T) : timers T :=
  match id with
  | None => q
  | Some i =>
      mkTimers (now q) (filter (λ t, timer_id t ≠ i) (pending q)) (next_timer q)
  end.

(** The callbacks that have come due when [by_ms] more milliseconds have
    passed, in firing order, and the queue without them. *)
Definition fire {T} (by_ms : nat) (q : timers T) : list (timer T) * timers T :=
  let t := now q + by_ms in
  (filter (λ tm, due tm ≤ t) (pending q),
   mkTimers t (filter (λ tm, ¬ due tm ≤ t) (pending q)) (next_timer q)).

(** The queue is in firing order. *)
Definition in_firing_order {T} (q : list (timer T)) : Prop :=
  StronglySorted (λ a b, due a ≤ due b) q.

(** ** Intersection observer entries

    The fields of [IntersectionObserverEntry] that the callbacks read.
    [intersectionRatio] is a binary64 number between 0 and 1; the model
    holds its exact value as a rational. *)
Record IntersectionObserverEntry : Type := mkEntry {
  target : elem;
  isIntersecting : bool;
  intersectionRatio : Q
}.

(** [a > b] on numbers. *)
Definition Qgtb (a b : Q) : bool := negb (Qle_bool a b).

(** ** 1. Navigation menu ([script.js], lines 29-81) *)

Module Menu.

(** The elements the module caches when it starts; each lookup may
    have found nothing. *)
Record refs : Type := mkRefs {
  hamburgerIcon : option elem;
  navOverlay : option elem;
  nav : option elem;
  body : option elem
}.

Definition toggleMenu (r : refs) : JS dom unit :=
  icon ← nonnull (hamburgerIcon r);
  modify (classList_toggle icon "active");;
  overlay ← nonnull (navOverlay r);
  modify (classList_toggle overlay "active");;
  n ← nonnull (nav r);
  modify (classList_toggle n "nav-active");;
  b ← nonnull (body r);
  modify (classList_toggle b "menu-open").

Definition closeMenu (r : refs) : JS dom unit :=
  overlay ← nonnull (navOverlay r);
  d ← get;
  if classList_contains overlay "active" d then toggleMenu r else ret tt.

(** The four writes of [toggleMenu], for elements that exist. *)
Definition toggled (icon overlay n b : elem) (d : dom) : dom :=
  classList_toggle b "menu-open"
    (classList_toggle n "nav-active"
      (classList_toggle overlay "active"
        (classList_toggle icon "active" d))).

(** [closeMenu] run [n] times in a row. *)
Fixpoint closeMenu_times (n : nat) (r : refs) : JS dom unit :=
  match n with
  | O => ret tt
  | S n' => closeMenu r;; closeMenu_times n' r
  end.

(** A page for examples: icon 1, overlay 2, navigation bar 3, body 4.
    In [stale_page] the overlay is closed while the icon, the bar and
    the body still carry their markers. *)
Definition page_refs : refs := mkRefs (Some 1) (Some 2) (Some 3) (Some 4).

Definition closed_page : dom :=
  mkDom {[ 1 := ["hamburger"]; 2 := ["nav-overlay"]; 3 := ["navbar"] ]} ∅ ∅ 5.

Definition stale_page : dom :=
  mkDom {[ 1 := ["hamburger"; "active"]; 2 := ["nav-overlay"];
           3 := ["navbar"; "nav-active"]; 4 := ["menu-open"] ]} ∅ ∅ 5.

End Menu.

(** ** 2. Navbar scroll effect ([script.js], lines 95-130) *)

Module Navbar.

Record refs : Type := mkRefs {
  nav : option elem;
  heroLandingSection : option elem
}.

(** What the browser reports while the handler runs: the hero's
    [offsetTop] and [offsetHeight], whole numbers of CSS pixels, and the
    window's two names for the vertical scroll offset.  Half of a whole
    number of pixels and its sum with another are exact in binary64, so
    the rationals below are the numbers the script computes. *)
Record readings : Type := mkReadings {
  offsetTop : Z;
  offsetHeight : Z;
  scrollY : Q;
  pageYOffset : Q
}.

Record state : Type := mkState {
  page : dom;
  console : list string   (* messages of [console.warn], oldest first *)
}.

Definition warn (msg : string) (st : state) : state :=
  mkState (page st) (console st ++ [msg]).

Definition on_page (f : dom → dom) (st : state) : state :=
  mkState (f (page st)) (console st).

(** [a || b] on numbers: [a] unless it is zero. *)
Definition or_else (a b : Q) : Q := if Qeq_bool a 0 then b else a.

Definition heroHalfway (env : readings) : Q :=
  (inject_Z (offsetTop env) + inject_Z (offsetHeight env) * (1 # 2))%Q.

Definition scrollPosition (env : readings) : Q :=
  or_else (scrollY env) (pageYOffset env).

Definition handleNavbarScroll (r : refs) (env : readings) : JS state unit :=
  match heroLandingSection r with
  | None => modify (warn "heroLanding section not found")
  | Some _ =>
      if Qle_bool (heroHalfway env) (scrollPosition env)
      then n ← nonnull (nav r); modify (on_page (classList_add n "nav-shrink"))
      else n ← nonnull (nav r); modify (on_page (classList_remove n "nav-shrink"))
  end.

(** One run of the handler for each scroll, load or resize event, with
    the browser's readings at that event; an exception ends the run it
    occurs in. *)
Definition handle_events (r : refs) (envs : list readings) (st : state) : state :=
  foldl (λ st env, exec (handleNavbarScroll r env) st) st envs.

(** For examples: navigation bar 1, hero 2, hero box at 100 of height
    600, so the halfway point is 400. *)
Definition page_refs : refs := mkRefs (Some 1) (Some 2).
Definition blank : state := mkState (mkDom ∅ ∅ ∅ 3) [].
Definition scrolled_to (s : Q) : readings := mkReadings 100 600 s s.

End Navbar.

(** ** 3. Services tabs ([script.js], lines 146-291) *)

Module Tabs.

(** What the listener's closure holds: the two lookups it caches, and the
    document's [querySelector] for a selector that only exists as text.
    The selectors written out in the scripts are read once and for all
    and are given as [selector]s; the one of line 199 is put together
    from an attribute value when a tab is clicked, and what the browser
    makes of that text (an element, none, or a [SyntaxError]) is the
    browser's to say, so the model takes it as given. *)
Record refs : Type := mkRefs {
  serviceTabs : list elem;
  desktopContentArea : option elem;
  document_querySelector : string → dom → completion (option elem)
}.

(** The closures handed to [setTimeout]. *)
Inductive task : Type :=
  | AnimateContent (content : elem)   (* the arrow function of [triggerAnimations] *)
  | CheckLayout                       (* the function of the resize listener *)
  | InitialAnimations.                (* the arrow function scheduled at start *)

Record state : Type := mkState {
  page : dom;
  innerWidth : Z;             (* [window.innerWidth] *)
  isDesktop : bool;           (* [let isDesktop] *)
  resizeTimer : option nat;   (* [let resizeTimer], [undefined] at first *)
  clock : timers task
}.

Definition on_page (f : dom → dom) (st : state) : state :=
  mkState (f (page st)) (innerWidth st) (isDesktop st) (resizeTimer st) (clock st).

Definition set_isDesktop (b : bool) (st : state) : state :=
  mkState (page st) (innerWidth st) b (resizeTimer st) (clock st).

Definition set_innerWidth (w : Z) (st : state) : state :=
  mkState (page st) w (isDesktop st) (resizeTimer st) (clock st).

Definition set_clock (q : timers task) (st : state) : state :=
  mkState (page st) (innerWidth st) (isDesktop st) (resizeTimer st) q.

Definition set_resizeTimer (id : option nat) (st : state) : state :=
  mkState (page st) (innerWidth st) (isDesktop st) id (clock st).

Definition tab_container : selector := SelClasses ["services-tab-container"].
Definition tab_content : selector := SelClasses ["services-tab-content"].
Definition active_tab_content : selector :=
  SelClasses ["services-tab-content"; "active"].
Definition animate_repeat : selector := SelClasses ["animate-repeat"].
Definition desktop_tab_content : selector :=
  SelWithin ["services-content-desktop"] ["services-tab-content"].

(** [const clone = e.cloneNode(true)] *)
Definition clone_of (e : elem) : JS state elem :=
  λ st, let '(c, d) := cloneNode e (page st) in (Normal c, on_page (λ _, d) st).

Definition handleLayout (r : refs) : JS state unit :=
  modify (λ st, set_isDesktop (768 <=? innerWidth st)%Z st);;
  st ← get;
  if isDesktop st then
    match querySelector document active_tab_content (page st) with
    | Some activeContent =>
        clone ← clone_of activeContent;
        area ← nonnull (desktopContentArea r);
        modify (on_page (clear_children area));;
        modify (on_page (appendChild area clone))
    | None => ret tt
    end
  else ret tt.

Definition triggerAnimations (content : elem) : JS state unit :=
  modify (λ st, set_clock (setTimeout (AnimateContent content) 50 (clock st)).2 st).

(** The character that opens and closes a string in a selector. *)
Definition double_quote : string := String (Ascii.ascii_of_nat 34) EmptyString.

(** The template literal of line 199.  [getAttribute] gives [null] for a
    missing attribute, which the template spells out as a word. *)
Definition content_selector_text (targetTab : option string) : string :=
  "[data-content=" +:+ double_quote +:+ default "null" targetTab
    +:+ double_quote +:+ "]".

(** [document.querySelector(text)] *)
Definition query_text (r : refs) (text : string) : JS state (option elem) :=
  λ st, (document_querySelector r text (page st), st).

Definition handleDesktopTab (r : refs) (tab : elem) (targetTab : option string)
  : JS state unit :=
  forEach (serviceTabs r) (λ t, modify (on_page (classList_remove t "active")));;
  modify (on_page (classList_add tab "active"));;
  found ← query_text r (content_selector_text targetTab);
  match found with
  | Some matchingContent =>
      clone ← clone_of matchingContent;
      modify (on_page (classList_add clone "active"));;
      area ← nonnull (desktopContentArea r);
      modify (on_page (clear_children area));;
      modify (on_page (appendChild area clone));;
      triggerAnimations clone
  | None => ret tt
  end.

(** The arrow function of the [forEach] in [handleMobileTab]. *)
Definition close_other (tab otherTab : elem) : JS state unit :=
  if decide (otherTab ≠ tab) then
    st ← get;
    let otherContainer := closest otherTab tab_container (page st) in
    c ← nonnull otherContainer;
    let otherContent := querySelector c tab_content (page st) in
    modify (on_page (classList_remove otherTab "active"));;
    oc ← nonnull otherContent;
    modify (on_page (classList_remove oc "active"))
  else ret tt.

Definition handleMobileTab (r : refs) (tab : elem) (content : option elem)
  : JS state unit :=
  st ← get;
  let isOpening := negb (classList_contains tab "active" (page st)) in
  forEach (serviceTabs r) (close_other tab);;
  if isOpening then
    modify (on_page (classList_add tab "active"));;
    c ← nonnull content;
    modify (on_page (classList_add c "active"));;
    triggerAnimations c
  else
    modify (on_page (classList_remove tab "active"));;
    c ← nonnull content;
    modify (on_page (classList_remove c "active")).

(** The click listener of a tab. *)
Definition on_click (r : refs) (this : elem) : JS state unit :=
  st ← get;
  let container := closest this tab_container (page st) in
  c ← nonnull container;
  let content := querySelector c tab_content (page st) in
  let targetTab := getAttribute this "data-tab" (page st) in
  if isDesktop st then handleDesktopTab r this targetTab
  else handleMobileTab r this content.

(** The resize listener.  The window has its new width when the
    listener runs. *)
Definition on_resize (w : Z) : JS state unit :=
  modify (set_innerWidth w);;
  modify (λ st, set_clock (clearTimeout (resizeTimer st) (clock st)) st);;
  modify (λ st,
    let '(id, q) := setTimeout CheckLayout 250 (clock st) in
    set_resizeTimer (Some id) (set_clock q st)).

(** The bodies of the timer callbacks. *)
Definition run (r : refs) (f : task) : JS state unit :=
  match f with
  | AnimateContent content =>
      st ← get;
      let animateElements := querySelectorAll content animate_repeat (page st) in
      forEach animateElements (λ el,
        modify (on_page (classList_remove el "in-view"));;
        modify (on_page (classList_add el "in-view")))
  | CheckLayout =>
      st ← get;
      let wasDesktop := isDesktop st in
      modify (λ st, set_isDesktop (768 <=? innerWidth st)%Z st);;
      st ← get;
      if negb (eqb wasDesktop (isDesktop st)) then handleLayout r else ret tt
  | InitialAnimations =>
      st ← get;
      let mobileContent := querySelector document active_tab_content (page st) in
      let desktopContent := querySelector document desktop_tab_content (page st) in
      match mobileContent with
      | Some mc =>
          if negb (isDesktop st) then
            forEach (querySelectorAll mc animate_repeat (page st))
                    (λ el, modify (on_page (classList_add el "in-view")))
          else ret tt
      | None => ret tt
      end;;
      st ← get;
      match desktopContent with
      | Some dc =>
          if isDesktop st then
            forEach (querySelectorAll dc animate_repeat (page st))
                    (λ el, modify (on_page (classList_add el "in-view")))
          else ret tt
      | None => ret tt
      end
  end.

(** [ms] milliseconds pass: the callbacks that come due run in firing
    order.  An exception in a callback ends that callback only. *)
Definition advance (r : refs) (ms : nat) (st : state) : state :=
  let '(ready, q) := fire ms (clock st) in
  foldl (λ st tm, exec (run r (callback tm)) st) (set_clock q st) ready.

(** The [DOMContentLoaded] listener after it has registered the click
    and resize listeners: the first layout and the timer for the first
    animations. *)
Definition start (r : refs) : JS state unit :=
  modify (λ st, set_isDesktop (768 <=? innerWidth st)%Z st);;
  handleLayout r;;
  modify (λ st, set_clock (setTimeout InitialAnimations 200 (clock st)).2 st).

(** The module on a page [d] in a window [w] wide, once started. *)
Definition boot (r : refs) (d : dom) (w : Z) : state :=
  exec (start r) (mkState d w false None (mkTimers 0 [] 1)).

(** What happens on the page, as far as this module sees it. *)
Inductive event : Type :=
  | Click (tab : elem)
  | Resize (width : Z)
  | Wait (ms : nat).

Definition handle (r : refs) (ev : event) (st : state) : state :=
  match ev with
  | Click tab => exec (on_click r tab) st
  | Resize w => exec (on_resize w) st
  | Wait ms => advance r ms st
  end.

Definition handle_all (r : refs) (evs : list event) (st : state) : state :=
  foldl (λ st ev, handle r ev st) st evs.

(** The click listener, had the stored flag been [mode]. *)
Definition click_as (mode : bool) (r : refs) (this : elem) : JS state unit :=
  st ← get;
  let container := closest this tab_container (page st) in
  c ← nonnull container;
  let content := querySelector c tab_content (page st) in
  let targetTab := getAttribute this "data-tab" (page st) in
  if mode then handleDesktopTab r this targetTab
  else handleMobileTab r this content.

Definition is_check (tm : timer task) : bool :=
  match callback tm with CheckLayout => true | _ => false end.

(** Every pending layout check is the one [resizeTimer] names. *)
Definition debounced (st : state) : bool :=
  forallb (λ tm, negb (is_check tm)
                 || bool_decide (resizeTimer st = Some (timer_id tm)))
          (pending (clock st)).

(** In [evs], fewer than 250 milliseconds pass between one resize and the
    next, and after the last; [elapsed] is the time since the resize
    before [evs]. *)
Fixpoint debounce_open (elapsed : nat) (evs : list event) : bool :=
  match evs with
  | [] => true
  | Click _ :: evs' => debounce_open elapsed evs'
  | Resize _ :: evs' => debounce_open 0 evs'
  | Wait ms :: evs' => (elapsed + ms <? 250) && debounce_open (elapsed + ms) evs'
  end.

Definition is_click (ev : event) : bool :=
  match ev with Click _ => true | _ => false end.

(** Events that keep the layout narrow: clicks on the tabs, resizes
    below the breakpoint, and time passing. *)
Definition narrow_event (r : refs) (ev : event) : bool :=
  match ev with
  | Click tab => bool_decide (tab ∈ serviceTabs r)
  | Resize w => (w <? 768)%Z
  | Wait _ => true
  end.

(** The content panel the click listener pairs with a tab. *)
Definition panel_of (tab : elem) (d : dom) : option elem :=
  closest tab tab_container d ≫= λ c, querySelector c tab_content d.

(** A tab/panel pair holds the active state when the tab or its panel
    carries [active]. *)
Definition pair_active (d : dom) (tab : elem) : bool :=
  classList_contains tab "active" d
  || match panel_of tab d with
     | Some p => classList_contains p "active" d
     | None => false
     end.

Definition active_pairs (r : refs) (d : dom) : list elem :=
  filter (λ t, pair_active d t = true) (serviceTabs r).

(** The markup the module is written for: the tabs are distinct, each
    has a panel of its own, and no tab is a panel. *)
Definition panels (r : refs) (d : dom) : list (option elem) :=
  (λ t, panel_of t d) <$> serviceTabs r.

Definition paired (r : refs) (d : dom) : Prop :=
  NoDup (serviceTabs r)
  ∧ Forall (λ t, is_Some (panel_of t d)) (serviceTabs r)
  ∧ NoDup (panels r d)
  ∧ Forall (λ t, Some t ∉ panels r d) (serviceTabs r).

(** *** What a handler leaves alone *)

(** [keeps f]: the two states agree on [f]. *)
Definition keeps {X} (f : state → X) : relation state :=
  λ st st', f st' = f st.

(** The pending layout checks. *)
Definition check_timers (st : state) : list (timer task) :=
  filter (λ tm, is_check tm = true) (pending (clock st)).

(** What decides how a click is dispatched and when the mode is looked
    at again. *)
Definition control (st : state)
  : bool * Z * option nat * nat * list (timer task) :=
  (isDesktop st, innerWidth st, resizeTimer st, now (clock st), check_timers st).

(** Everything but the page. *)
Definition beside_page (st : state) : Z * bool * option nat * timers task :=
  (innerWidth st, isDesktop st, resizeTimer st, clock st).

(** What the debounce rests on. *)
Definition debounce_view (st : state) : option nat * list (timer task) :=
  (resizeTimer st, check_timers st).

(** No layout check is due before [t], and [resizeTimer] names every
    pending one. *)
Definition quiet_until (t : nat) (st : state) : Prop :=
  ∀ tm, tm ∈ check_timers st →
        t ≤ due tm ∧ resizeTimer st = Some (timer_id tm).

(** The flag is the one the window's width calls for. *)
Definition settled (st : state) : Prop :=
  isDesktop st = (768 <=? innerWidth st)%Z.

(** The width is kept, and so is [settled]. *)
Definition settles : relation state :=
  λ st st', innerWidth st' = innerWidth st ∧ (settled st → settled st').

(** [elapsed] milliseconds after a resize that found no other layout
    check pending. *)
Definition since_resize (elapsed : nat) (st : state) : Prop :=
  ∃ t, t + elapsed = now (clock st) + 250 ∧ quiet_until t st.

(** The narrow layout, with a window that keeps it narrow. *)
Definition narrow (st : state) : Prop :=
  isDesktop st = false ∧ (innerWidth st < 768)%Z.

(** The state is narrow when the earlier one was, and its page differs
    from the earlier one in the classes [cs] at most. *)
Definition narrow_step (cs : list string) : relation state :=
  λ st st', narrow st → narrow st' ∧ same_except cs (page st) (page st').

(** The page differs in the classes [cs] at most and nothing else
    changes. *)
Definition writes (cs : list string) : relation state :=
  λ st st', beside_page st' = beside_page st
            ∧ same_except cs (page st) (page st').

Definition act (e : elem) (st : state) : bool :=
  classList_contains e "active" (page st).

(** The siblings of [tab] and their panels. *)
Definition others (tabs : list elem) (tab : elem) (d : dom) : list elem :=
  flat_map (λ u, if decide (u ≠ tab)
                 then u :: option_list (panel_of u d)
                 else [])
           tabs.

(** For examples: a section 1 with two containers, 2 and 5; container 2
    holds tab 3 and panel 4, container 5 holds tab 6 and panel 7; each
    panel holds one animated element, 8 and 9; the shared desktop area
    is 10.  Panel 4 is open. *)
Definition services_page : dom :=
  mkDom {[ 2 := ["services-tab-container"];
           3 := ["services-tab"; "active"];
           4 := ["services-tab-content"; "active"];
           5 := ["services-tab-container"];
           6 := ["services-tab"];
           7 := ["services-tab-content"];
           8 := ["animate-repeat"];
           9 := ["animate-repeat"];
           10 := ["services-content-desktop"] ]}
        {[ 3 := {[ "data-tab" := "claims" ]};
           4 := {[ "data-content" := "claims" ]};
           6 := {[ "data-tab" := "appraisal" ]};
           7 := {[ "data-content" := "appraisal" ]} ]}
        {[ 0 := [1]; 1 := [2; 5; 10]; 2 := [3; 4]; 5 := [6; 7];
           4 := [8]; 7 := [9] ]}
        11.

(** A selector engine for the examples.  It knows the one form the
    listener asks for, an attribute selector on [data-content] whose
    value stands between double quotes as it is, and refuses everything
    else; a browser reads more than this.  A value stands as it is when
    it holds no double quote, no backslash and no line break, form feed
    or null character. *)
Definition plain_char (c : Ascii.ascii) : bool :=
  negb (bool_decide (Ascii.nat_of_ascii c ∈ [34; 92; 10; 13; 12; 0])).

Fixpoint plain (v : string) : bool :=
  match v with
  | EmptyString => true
  | String c v' => plain_char c && plain v'
  end.

(** [strip_prefix p s]: [s] without the [p] it starts with. *)
Fixpoint strip_prefix (p s : string) : option string :=
  match p, s with
  | EmptyString, _ => Some s
  | String a p', String b s' =>
      if Ascii.eqb a b then strip_prefix p' s' else None
  | String _ _, EmptyString => None
  end.

(** [strip_suffix q s]: [s] without the [q] it ends with. *)
Fixpoint strip_suffix (q s : string) : option string :=
  if String.eqb s q then Some EmptyString
  else match s with
       | EmptyString => None
       | String a s' => String a <$> strip_suffix q s'
       end.

Definition quoted_value (text : string) : option string :=
  strip_prefix ("[data-content=" +:+ double_quote) text
    ≫= strip_suffix (double_quote +:+ "]").

Definition attribute_engine (text : string) (d : dom) : completion (option elem) :=
  match quoted_value text with
  | Some v =>
      if plain v then Normal (querySelector document (SelAttr "data-content" v) d)
      else Throw SyntaxError
  | None => Throw SyntaxError
  end.

Definition services_refs : refs := mkRefs [3; 6] (Some 10) attribute_engine.

End Tabs.

(** ** 4. Preload overlay ([script.js], lines 305-329) *)

Module Preload.

(** The three arrow functions handed to [setTimeout], each closed over
    [preloadOverlay]. *)
Inductive task : Type :=
  | FadeOut (preloadOverlay : elem)
  | Hide (preloadOverlay : elem)
  | RemoveOverlay (preloadOverlay : elem).

Record state : Type := mkState {
  page : dom;
  clock : timers task
}.

Definition schedule (f : task) (delay : nat) (st : state) : state :=
  mkState (page st) (setTimeout f delay (clock st)).2.

(** The [load] listener. *)
Definition on_load (st : state) : state :=
  match querySelector document (SelClasses ["preload-overlay"]) (page st) with
  | None => st
  | Some preloadOverlay =>
      schedule (RemoveOverlay preloadOverlay) 1800
        (schedule (Hide preloadOverlay) 800
          (schedule (FadeOut preloadOverlay) 500 st))
  end.

Definition run (f : task) (d : dom) : dom :=
  match f with
  | FadeOut preloadOverlay => classList_add preloadOverlay "fade-out" d
  | Hide preloadOverlay => classList_add preloadOverlay "hidden" d
  | RemoveOverlay preloadOverlay => remove_node preloadOverlay d
  end.

(** [ms] milliseconds pass. *)
Definition advance (ms : nat) (st : state) : state :=
  let '(ready, q) := fire ms (clock st) in
  mkState (foldl (λ d tm, run (callback tm) d) (page st) ready) q.

(** The queue after a load event that found [o], scheduled from an
    empty queue at time [L]. *)
Definition sequence (o : elem) (L n : nat) : list (timer task) :=
  [ mkTimer n (L + 500) (FadeOut o);
    mkTimer (S n) (L + 800) (Hide o);
    mkTimer (S (S n)) (L + 1800) (RemoveOverlay o) ].

(** Time passes in several steps. *)
Definition elapse (waits : list nat) (st : state) : state :=
  foldl (λ st ms, advance ms st) st waits.

(** The document [ms] milliseconds after a load event that found the
    overlay [o] in the document [d]. *)
Definition stage (o : elem) (d : dom) (ms : nat) : dom :=
  if ms <? 500 then d
  else if ms <? 800 then classList_add o "fade-out" d
  else if ms <? 1800 then classList_add o "hidden" (classList_add o "fade-out" d)
  else remove_node o (classList_add o "hidden" (classList_add o "fade-out" d)).

(** For examples: a body 1 holding the overlay 2 and a main element 3. *)
Definition loading_page : dom :=
  mkDom {[ 2 := ["preload-overlay"]; 3 := ["main"] ]} ∅
        {[ 0 := [1]; 1 := [2; 3] ]} 4.

End Preload.

(** ** 5. Viewport section observer ([script.js], lines 344-377) *)

Module Sections.

(** [entry.isIntersecting && entry.intersectionRatio > 0.7].  A
    binary64 ratio is above the binary64 number written [0.7] exactly
    when it is above seven tenths: the two thresholds have no binary64
    number between them and neither is one. *)
Definition exceeds (entry : IntersectionObserverEntry) : bool :=
  isIntersecting entry && Qgtb (intersectionRatio entry) (7 # 10).

(** The body of the [forEach] in [handleIntersection]. *)
Definition on_entry (blocks : list elem) (d : dom)
    (entry : IntersectionObserverEntry) : dom :=
  if exceeds entry then
    classList_add (target entry) "vsect-active"
      (foldl (λ d b, classList_remove b "vsect-active" d) d blocks)
  else
    classList_remove (target entry) "vsect-active" d.

Definition handleIntersection (blocks : list elem)
    (entries : list IntersectionObserverEntry) (d : dom) : dom :=
  foldl (on_entry blocks) d entries.

Definition active (e : elem) (d : dom) : bool :=
  classList_contains e "vsect-active" d.

(** The observed sections that carry the marker. *)
Definition active_blocks (blocks : list elem) (d : dom) : list elem :=
  filter (λ b, active b d = true) blocks.

Definition at_most_one (blocks : list elem) (d : dom) : Prop :=
  ∀ a b, a ∈ blocks → b ∈ blocks →
         active a d = true → active b d = true → a = b.

(** No entry of the batch is intersecting with a ratio above 0.7. *)
Definition quiet (entries : list IntersectionObserverEntry) : bool :=
  forallb (λ entry, negb (exceeds entry)) entries.

(** The elements a batch reports on. *)
Definition targets (entries : list IntersectionObserverEntry) : list elem :=
  target <$> entries.

(** For examples: two sections, 1 and 2, neither marked. *)
Definition two_sections : dom :=
  mkDom {[ 1 := ["vsect-block"]; 2 := ["vsect-block"] ]} ∅ {[ 0 := [1; 2] ]} 3.

End Sections.

(** ** Visibility animations ([animations.js]) *)

Module Animations.

(** The page and, for each of the four observers, the elements it
    observes. *)
Record state : Type := mkState {
  page : dom;
  animateObserver : gset nat;
  animateRepeatObserver : gset nat;
  lineObserver : gset nat;
  lineRepeatObserver : gset nat
}.

Definition on_page (f : dom → dom) (st : state) : state :=
  mkState (f (page st)) (animateObserver st) (animateRepeatObserver st)
          (lineObserver st) (lineRepeatObserver st).

(** [this.animateObserver.unobserve(e)] and [this.lineObserver.unobserve(e)] *)
Definition animateObserver_unobserve (e : elem) (st : state) : state :=
  mkState (page st) (animateObserver st ∖ {[e]}) (animateRepeatObserver st)
          (lineObserver st) (lineRepeatObserver st).

Definition lineObserver_unobserve (e : elem) (st : state) : state :=
  mkState (page st) (animateObserver st) (animateRepeatObserver st)
          (lineObserver st ∖ {[e]}) (lineRepeatObserver st).

Definition handleAnimateEntries (entries : list IntersectionObserverEntry)
    (st : state) : state :=
  foldl (λ st entry,
           if isIntersecting entry then
             animateObserver_unobserve (target entry)
               (on_page (classList_add (target entry) "in-view") st)
           else st)
        st entries.

Definition handleAnimateRepeatEntries (entries : list IntersectionObserverEntry)
    (st : state) : state :=
  foldl (λ st entry,
           if isIntersecting entry then
             on_page (classList_add (target entry) "in-view") st
           else
             on_page (classList_remove (target entry) "in-view") st)
        st entries.

Definition handleLineEntries (entries : list IntersectionObserverEntry)
    (st : state) : state :=
  foldl (λ st entry,
           if isIntersecting entry then
             lineObserver_unobserve (target entry)
               (on_page (classList_add (target entry) "in-view") st)
           else st)
        st entries.

Definition handleLineRepeatEntries (entries : list IntersectionObserverEntry)
    (st : state) : state :=
  foldl (λ st entry,
           if isIntersecting entry then
             on_page (classList_add (target entry) "in-view") st
           else
             on_page (classList_remove (target entry) "in-view") st)
        st entries.

(** A run of callbacks of one observer, oldest batch first. *)
Definition callbacks (handler : list IntersectionObserverEntry → state → state)
    (batches : list (list IntersectionObserverEntry)) (st : state) : state :=
  foldl (λ st batch, handler batch st) st batches.

(** What a batch last said about [e], if it reported on [e] at all. *)
Definition last_report (e : elem) (entries : list IntersectionObserverEntry)
  : option bool :=
  isIntersecting <$> last (filter (λ entry, target entry = e) entries).

(** What a run of callbacks last said about [e]: the last entry for [e]
    of the latest batch that has one. *)
Definition latest_report (e : elem)
    (batches : list (list IntersectionObserverEntry)) : option bool :=
  last_report e (concat batches).

(** Some entry of the batch reports [e] as intersecting. *)
Definition reports_entering (e : elem) (entries : list IntersectionObserverEntry)
  : bool :=
  existsb (λ entry, bool_decide (target entry = e) && isIntersecting entry) entries.

Definition in_view (e : elem) (st : state) : bool :=
  classList_contains e "in-view" (page st).

(** An entry for [e] entering or leaving the viewport. *)
Definition enters (e : elem) : IntersectionObserverEntry := mkEntry e true 1.
Definition leaves (e : elem) : IntersectionObserverEntry := mkEntry e false 0.

(** For examples: element 1 observed by every observer, not yet seen. *)
Definition fresh : state :=
  mkState (mkDom {[ 1 := ["animate"] ]} ∅ {[ 0 := [1] ]} 2)
          {[ 1 ]} {[ 1 ]} {[ 1 ]} {[ 1 ]}.

End Animations.

(** ** The listeners of the navigation menu ([script.js], lines 59-79) *)

Module MenuEvents.

(** One call of one listener: the click listener of the hamburger button,
    the click listener of a menu link, the document's keydown listener
    with [e.key], and the overlay's click listener with [e.target]. *)
Inductive event : Type :=
  | HamburgerClick
  | LinkClick
  | KeyDown (key : string)
  | OverlayClick (target : elem).

Definition on_event (r : Menu.refs) (ev : event) : JS dom unit :=
  match ev with
  | HamburgerClick => Menu.toggleMenu r
  | LinkClick => Menu.closeMenu r
  | KeyDown key =>
      if decide (key = "Escape") then Menu.closeMenu r else ret tt
  | OverlayClick target =>
      if decide (Some target = Menu.navOverlay r) then Menu.closeMenu r else ret tt
  end.

(** Listener calls in order; an exception ends the call it occurs in. *)
Definition handle_all (r : Menu.refs) (evs : list event) (d : dom) : dom :=
  foldl (λ d ev, exec (on_event r ev) d) d evs.

(** The menu as one boolean: what each event does to "open". *)
Definition next_open (overlay : elem) (is_open : bool) (ev : event) : bool :=
  match ev with
  | HamburgerClick => negb is_open
  | LinkClick => false
  | KeyDown key => if decide (key = "Escape") then false else is_open
  | OverlayClick target => if decide (target = overlay) then false else is_open
  end.

(** The four markers agree. *)
Definition in_sync (icon overlay n b : elem) (d : dom) : Prop :=
  classList_contains icon "active" d = classList_contains overlay "active" d
  ∧ classList_contains n "nav-active" d = classList_contains overlay "active" d
  ∧ classList_contains b "menu-open" d = classList_contains overlay "active" d.

End MenuEvents.

(** ** Setting up and tearing down the animation observers
    ([animations.js], lines 60-84 and 151-170) *)

Module Observers.

Definition animate : list selector := [SelClasses ["animate"]].
Definition animate_repeat : list selector := [SelClasses ["animate-repeat"]].
(** ['.line-animate, .line-horizontal, .line-vertical'] *)
Definition line : list selector :=
  [SelClasses ["line-animate"]; SelClasses ["line-horizontal"];
   SelClasses ["line-vertical"]].
Definition line_repeat : list selector := [SelClasses ["line-animate-repeat"]].

(** [document.querySelectorAll] with a selector list: the elements of
    the document, in document order, that match one of the selectors. *)
Definition select (sels : list selector) (d : dom) : list elem :=
  filter (λ e, existsb (λ sel, matches sel d e) sels = true)
         (descendants d document).

(** [elements.forEach(element => observer.observe(element))]; observing
    an element already observed changes nothing. *)
Definition observe_each (elements : list elem) (observer : gset nat) : gset nat :=
  foldl (λ obs element, obs ∪ {[element]}) observer elements.

Definition observeElements (st : Animations.state) : Animations.state :=
  let d := Animations.page st in
  Animations.mkState d
    (observe_each (select animate d) (Animations.animateObserver st))
    (observe_each (select animate_repeat d) (Animations.animateRepeatObserver st))
    (observe_each (select line d) (Animations.lineObserver st))
    (observe_each (select line_repeat d) (Animations.lineRepeatObserver st)).

(** The four [disconnect()] calls. *)
Definition disconnect_all (st : Animations.state) : Animations.state :=
  Animations.mkState (Animations.page st) ∅ ∅ ∅ ∅.

Definition refresh (st : Animations.state) : Animations.state :=
  observeElements (disconnect_all st).

Definition destroy (st : Animations.state) : Animations.state :=
  disconnect_all st.

(** [new AnimationSystem()] on the document [d]: four new observers,
    then [observeElements]. *)
Definition construct (d : dom) : Animations.state :=
  observeElements (Animations.mkState d ∅ ∅ ∅ ∅).

(** [e] is observed by one of the four observers. *)
Definition observed (e : elem) (st : Animations.state) : Prop :=
  e ∈ Animations.animateObserver st ∨ e ∈ Animations.animateRepeatObserver st
  ∨ e ∈ Animations.lineObserver st ∨ e ∈ Animations.lineRepeatObserver st.

End Observers.

(** ** Services tabs: notions for the desktop layout *)

Module TabsMore.

(** No element gains [active], and no other class changes. *)
Definition never_opens (st st' : Tabs.state) : Prop :=
  Tabs.writes ["active"] st st'
  ∧ ∀ e, Tabs.act e st' = true → Tabs.act e st = true.

(** Every handle in use is below [next_node]. *)
Definition allocated (d : dom) : Prop :=
  map_Forall (λ x _, x < next_node d) (classes d)
  ∧ map_Forall (λ x _, x < next_node d) (attributes d)
  ∧ map_Forall (λ x _, x < next_node d) (childNodes d).

(** [d'] holds the nodes of [d] as they were, and maybe new ones. *)
Definition extends (d d' : dom) : Prop :=
  next_node d ≤ next_node d'
  ∧ ∀ x, x < next_node d →
         classes d' !! x = classes d !! x
         ∧ attributes d' !! x = attributes d !! x
         ∧ childNodes d' !! x = childNodes d !! x.

(** The first two statements of [handleDesktopTab]: [active] off every
    service tab, then on the clicked one. *)
Definition activate (tabs : list elem) (tab : elem) (d : dom) : dom :=
  classList_add tab "active"
    (foldl (λ d t, classList_remove t "active" d) d tabs).

(** The selector that the text of line 199 spells when the pasted
    value stands as it is. *)
Definition content_for (targetTab : option string) : selector :=
  SelAttr "data-content" (default "null" targetTab).

(** The engine reads the text built from [targetTab] as that selector,
    which is how a value without double quote, backslash, line break,
    form feed or null character is read. *)
Definition reads_as_written (r : Tabs.refs) (targetTab : option string) : Prop :=
  ∀ d, Tabs.document_querySelector r (Tabs.content_selector_text targetTab) d
       = Normal (querySelector document (content_for targetTab) d).

(** The engine refuses the text built from [targetTab]. *)
Definition refuses (r : Tabs.refs) (targetTab : option string) (e : js_error) : Prop :=
  ∀ d, Tabs.document_querySelector r (Tabs.content_selector_text targetTab) d
       = Throw e.

End TabsMore.

(** ** Services tabs: the animation restart *)

Module TabsAnimation.

Definition in_view (e : elem) (st : Tabs.state) : bool :=
  classList_contains e "in-view" (Tabs.page st).

(** No element loses [in-view]. *)
Definition keeps_in_view : relation Tabs.state :=
  λ st st', ∀ e, in_view e st = true → in_view e st' = true.

Definition is_restart (p : elem) (tm : timer Tabs.task) : Prop :=
  callback tm = Tabs.AnimateContent p.

End TabsAnimation.

(** * Proofs *)

(** ** Token lists and class lists *)

Section TokenListFacts.
Implicit Types (c x : string) (l : list string).

Lemma contains_true c l : TokenList.contains c l = true ↔ c ∈ l.
Proof. unfold TokenList.contains. apply bool_decide_eq_true. Qed.

Lemma contains_false c l : TokenList.contains c l = false ↔ c ∉ l.
Proof. unfold TokenList.contains. apply bool_decide_eq_false. Qed.

Lemma contains_add x c l :
  TokenList.contains x (TokenList.add c l)
  = bool_decide (x = c) || TokenList.contains x l.
Proof.
  apply eq_true_iff_eq. rewrite orb_true_iff, bool_decide_eq_true.
  rewrite !contains_true. unfold TokenList.add.
  destruct (TokenList.contains c l) eqn:E.
  - apply contains_true in E. split; [auto | intros [-> | ?]; auto].
  - rewrite elem_of_app, list_elem_of_singleton. tauto.
Qed.

Lemma contains_remove x c l :
  TokenList.contains x (TokenList.remove c l)
  = negb (bool_decide (x = c)) && TokenList.contains x l.
Proof.
  apply eq_true_iff_eq. rewrite andb_true_iff, negb_true_iff.
  rewrite bool_decide_eq_false, !contains_true.
  unfold TokenList.remove. rewrite list_elem_of_filter. tauto.
Qed.

Lemma contains_toggle x c l :
  TokenList.contains x (TokenList.toggle c l)
  = xorb (bool_decide (x = c)) (TokenList.contains x l).
Proof.
  unfold TokenList.toggle. destruct (TokenList.contains c l) eqn:E.
  - rewrite contains_remove. case_bool_decide; subst; simpl; [by rewrite E | done].
  - apply eq_true_iff_eq. rewrite contains_true, elem_of_app, list_elem_of_singleton.
    rewrite <- contains_true. case_bool_decide; subst; simpl.
    + rewrite E. naive_solver.
    + destruct (TokenList.contains x l); naive_solver.
Qed.

Lemma add_present c l : c ∈ l → TokenList.add c l = l.
Proof. intros H. unfold TokenList.add. apply contains_true in H. by rewrite H. Qed.

Lemma remove_absent c l : c ∉ l → TokenList.remove c l = l.
Proof.
  intros H. unfold TokenList.remove. induction l as [|y l IH]; [done|].
  rewrite filter_cons. apply not_elem_of_cons in H as [? ?].
  rewrite decide_True by congruence. f_equal. by apply IH.
Qed.
End TokenListFacts.

Section ClassListFacts.
Implicit Types (e : nat) (c : string) (d : dom).

Lemma classList_set e' e l d :
  classList e' (set_classList e l d) = if decide (e' = e) then l else classList e' d.
Proof.
  unfold classList, set_classList; simpl. rewrite lookup_insert.
  destruct (decide (e = e')), (decide (e' = e)); done || congruence.
Qed.

Lemma classList_contains_add e' c' e c d :
  classList_contains e' c' (classList_add e c d)
  = bool_decide (e' = e ∧ c' = c) || classList_contains e' c' d.
Proof.
  unfold classList_contains, classList_add. rewrite classList_set.
  destruct (decide (e' = e)) as [->|Hne].
  - rewrite contains_add. f_equal. apply bool_decide_ext. naive_solver.
  - rewrite bool_decide_eq_false_2 by naive_solver. done.
Qed.

Lemma classList_contains_remove e' c' e c d :
  classList_contains e' c' (classList_remove e c d)
  = negb (bool_decide (e' = e ∧ c' = c)) && classList_contains e' c' d.
Proof.
  unfold classList_contains, classList_remove. rewrite classList_set.
  destruct (decide (e' = e)) as [->|Hne].
  - rewrite contains_remove. do 2 f_equal. apply bool_decide_ext. naive_solver.
  - rewrite bool_decide_eq_false_2 by naive_solver. done.
Qed.

Lemma classList_contains_toggle e' c' e c d :
  classList_contains e' c' (classList_toggle e c d)
  = xorb (bool_decide (e' = e ∧ c' = c)) (classList_contains e' c' d).
Proof.
  unfold classList_contains, classList_toggle. rewrite classList_set.
  destruct (decide (e' = e)) as [->|Hne].
  - rewrite contains_toggle. f_equal. apply bool_decide_ext. naive_solver.
  - rewrite bool_decide_eq_false_2 by naive_solver. done.
Qed.
End ClassListFacts.

(** ** Navigation menu *)

Section MenuFacts.
Import Menu.

Lemma toggleMenu_run icon overlay n b d :
  toggleMenu (mkRefs (Some icon) (Some overlay) (Some n) (Some b)) d
  = (Normal tt, toggled icon overlay n b d).
Proof. reflexivity. Qed.

Lemma toggled_frame icon overlay n b d :
  attributes (toggled icon overlay n b d) = attributes d
  ∧ childNodes (toggled icon overlay n b d) = childNodes d
  ∧ next_node (toggled icon overlay n b d) = next_node d.
Proof. done. Qed.

Lemma closeMenu_closed r overlay d :
  navOverlay r = Some overlay →
  classList_contains overlay "active" d = false →
  closeMenu r d = (Normal tt, d).
Proof.
  intros Hov Hcl. unfold closeMenu. rewrite Hov.
  cbv [mbind JS_bind bind nonnull ret get]. by rewrite Hcl.
Qed.

Lemma closeMenu_times_closed k r overlay d :
  navOverlay r = Some overlay →
  classList_contains overlay "active" d = false →
  closeMenu_times k r d = (Normal tt, d).
Proof.
  intros Hov Hcl. induction k as [|k IH]; [done|].
  cbn [closeMenu_times]. cbv [mbind JS_bind bind].
  by rewrite (closeMenu_closed _ _ _ Hov Hcl).
Qed.
End MenuFacts.

(** C4. [closeMenu] on a closed menu (the overlay has no [active])
    returns with the document unchanged, and two [toggleMenu] calls in a
    row return normally and leave every class of every element, hence of
    the icon, the overlay, the navigation bar and the body, present
    exactly when it was present before; nothing else in the document
    changes. *)
Theorem menu_close_idempotent_toggle_involutive (icon overlay n b : nat) (d : dom) :
  let r := Menu.mkRefs (Some icon) (Some overlay) (Some n) (Some b) in
  (classList_contains overlay "active" d = false →
   Menu.closeMenu r d = (Normal tt, d))
  ∧ ∃ d2, (Menu.toggleMenu r;; Menu.toggleMenu r) d = (Normal tt, d2)
      ∧ (∀ e c, classList_contains e c d2 = classList_contains e c d)
      ∧ attributes d2 = attributes d
      ∧ childNodes d2 = childNodes d
      ∧ next_node d2 = next_node d.
Proof.
  intros r. split.
  - intros Hcl. by apply (closeMenu_closed r overlay).
  - exists (Menu.toggled icon overlay n b (Menu.toggled icon overlay n b d)).
    split; [reflexivity|]. split; [|done].
    intros e c. unfold Menu.toggled. rewrite !classList_contains_toggle.
    repeat case_bool_decide; destruct (classList_contains e c d); reflexivity.
Qed.

Lemma menu_close_idempotent_toggle_involutive_witness :
  classList_contains 2 "active" Menu.closed_page = false
  ∧ Menu.closeMenu Menu.page_refs Menu.closed_page = (Normal tt, Menu.closed_page).
Proof.
  split; [reflexivity|].
  destruct (menu_close_idempotent_toggle_involutive 1 2 3 4 Menu.closed_page) as [H _].
  apply H. reflexivity.
Defined.

(** C9. [closeMenu] looks at the overlay's [active] class and at nothing
    else: when the overlay lacks it, any number of [closeMenu] calls
    return with the document unchanged, whatever classes the icon, the
    navigation bar and the body carry.  [toggleMenu] does change such a
    document: it flips [nav-active] on the bar and [menu-open] on the
    body, and, the icon and the overlay being two elements, it sets
    [active] on the overlay and flips it on the icon. *)
Theorem menu_close_reads_overlay_only (icon overlay n b : nat) (d : dom) (k : nat) :
  let r := Menu.mkRefs (Some icon) (Some overlay) (Some n) (Some b) in
  classList_contains overlay "active" d = false →
  Menu.closeMenu_times k r d = (Normal tt, d)
  ∧ ∃ d', Menu.toggleMenu r d = (Normal tt, d')
      ∧ d' ≠ d
      ∧ classList_contains n "nav-active" d' = negb (classList_contains n "nav-active" d)
      ∧ classList_contains b "menu-open" d' = negb (classList_contains b "menu-open" d)
      ∧ (icon ≠ overlay →
         classList_contains overlay "active" d' = true
         ∧ classList_contains icon "active" d' = negb (classList_contains icon "active" d)).
Proof.
  intros r Hcl. split.
  - by apply (closeMenu_times_closed k r overlay).
  - exists (Menu.toggled icon overlay n b d). split; [reflexivity|].
    assert (Hn : classList_contains n "nav-active" (Menu.toggled icon overlay n b d)
                 = negb (classList_contains n "nav-active" d)).
    { unfold Menu.toggled. rewrite !classList_contains_toggle.
      repeat case_bool_decide; destruct (classList_contains n "nav-active" d);
        naive_solver. }
    split; [|split; [exact Hn|split]].
    + intros Heq. rewrite Heq in Hn. by destruct (classList_contains n "nav-active" d).
    + unfold Menu.toggled. rewrite !classList_contains_toggle.
      repeat case_bool_decide; destruct (classList_contains b "menu-open" d);
        naive_solver.
    + intros Hne. unfold Menu.toggled. rewrite !classList_contains_toggle, Hcl.
      split; repeat case_bool_decide;
        destruct (classList_contains icon "active" d); naive_solver.
Qed.

Lemma menu_close_reads_overlay_only_witness :
  classList_contains 2 "active" Menu.stale_page = false
  ∧ classList_contains 1 "active" Menu.stale_page = true
  ∧ classList_contains 3 "nav-active" Menu.stale_page = true
  ∧ classList_contains 4 "menu-open" Menu.stale_page = true
  ∧ Menu.closeMenu_times 3 Menu.page_refs Menu.stale_page = (Normal tt, Menu.stale_page).
Proof.
  repeat (split; [reflexivity|]).
  apply (menu_close_reads_overlay_only 1 2 3 4 Menu.stale_page 3). reflexivity.
Defined.

(** ** Navbar scroll effect *)

Section NavbarFacts.
Import Navbar.

Lemma scrollPosition_alias env :
  (pageYOffset env == scrollY env)%Q → (scrollPosition env == scrollY env)%Q.
Proof.
  intros Halias. unfold scrollPosition, or_else.
  destruct (Qeq_bool (scrollY env) 0); [exact Halias | reflexivity].
Qed.

(** The handler on a page that has both elements. *)
Lemma handleNavbarScroll_run n hero env st :
  handleNavbarScroll (mkRefs (Some n) (Some hero)) env st
  = (Normal tt,
     on_page (if Qle_bool (heroHalfway env) (scrollPosition env)
              then classList_add n "nav-shrink"
              else classList_remove n "nav-shrink") st).
Proof.
  unfold handleNavbarScroll; simpl.
  destruct (Qle_bool (heroHalfway env) (scrollPosition env)); reflexivity.
Qed.
End NavbarFacts.

(** C6. With the hero at offset [T] and of height [H], and the window
    reporting the scroll offset [s] under both of its names, a run of
    [handleNavbarScroll] returns normally and leaves [nav-shrink] on the
    navigation bar exactly when [T + H/2 <= s]; whether the bar carried
    the class before plays no part, so there is no band in which the
    earlier state is kept. *)
Theorem navbar_shrinks_from_halfway
    (n hero : nat) (T H : Z) (s : Q) (env : Navbar.readings) (st : Navbar.state) :
  Navbar.offsetTop env = T →
  Navbar.offsetHeight env = H →
  (Navbar.scrollY env == s)%Q →
  (Navbar.pageYOffset env == s)%Q →
  ∃ st',
    Navbar.handleNavbarScroll (Navbar.mkRefs (Some n) (Some hero)) env st
    = (Normal tt, st')
    ∧ (classList_contains n "nav-shrink" (Navbar.page st') = true
       ↔ (inject_Z T + inject_Z H * (1 # 2) <= s)%Q)
    ∧ (classList_contains n "nav-shrink" (Navbar.page st') = false
       ↔ (s < inject_Z T + inject_Z H * (1 # 2))%Q)
    ∧ Navbar.console st' = Navbar.console st.
Proof.
  intros HT HH Hy Hp.
  eexists. split; [apply handleNavbarScroll_run|].
  assert (Hpos : (Navbar.scrollPosition env == s)%Q).
  { rewrite scrollPosition_alias; [exact Hy | by rewrite Hy, Hp]. }
  assert (Hhalf : Navbar.heroHalfway env = (inject_Z T + inject_Z H * (1 # 2))%Q).
  { unfold Navbar.heroHalfway. by rewrite HT, HH. }
  rewrite <- Hhalf.
  destruct (Qle_bool (Navbar.heroHalfway env) (Navbar.scrollPosition env)) eqn:E;
    simpl.
  - apply Qle_bool_iff in E. rewrite Hpos in E.
    rewrite classList_contains_add, bool_decide_eq_true_2 by done. simpl.
    split; [tauto|]. split; [|done].
    split; [done|]. intros Hlt. exfalso. by apply (Qlt_not_le _ _ Hlt).
  - assert (Hnle : ¬ (Navbar.heroHalfway env <= s)%Q).
    { intros Hle. rewrite <- Hpos in Hle. apply Qle_bool_iff in Hle. congruence. }
    rewrite classList_contains_remove, bool_decide_eq_true_2 by done. simpl.
    split; [split; [done | tauto]|]. split; [|done].
    split; [intros _; by apply Qnot_le_lt | done].
Qed.

Lemma navbar_shrinks_from_halfway_witness :
  ∃ st',
    Navbar.handleNavbarScroll Navbar.page_refs (Navbar.scrolled_to 400) Navbar.blank
    = (Normal tt, st')
    ∧ (classList_contains 1 "nav-shrink" (Navbar.page st') = true
       ↔ (inject_Z 100 + inject_Z 600 * (1 # 2) <= 400)%Q)
    ∧ (classList_contains 1 "nav-shrink" (Navbar.page st') = false
       ↔ (400 < inject_Z 100 + inject_Z 600 * (1 # 2))%Q)
    ∧ Navbar.console st' = Navbar.console Navbar.blank.
Proof.
  apply (navbar_shrinks_from_halfway 1 2 100 600 400
           (Navbar.scrolled_to 400) Navbar.blank); reflexivity.
Defined.

(** C8. Without a hero element every run of [handleNavbarScroll] returns
    normally, appends the warning to the console and leaves the document
    as it was, whether or not the page has a navigation bar; after any
    number of events the document is still the one before them and the
    console holds one warning for each. *)
Theorem navbar_without_hero_warns_only
    (n : option nat) (envs : list Navbar.readings) (st : Navbar.state) :
  let r := Navbar.mkRefs n None in
  (∀ env st0,
     Navbar.handleNavbarScroll r env st0
     = (Normal tt,
        Navbar.mkState (Navbar.page st0)
          (Navbar.console st0 ++ ["heroLanding section not found"])))
  ∧ Navbar.page (Navbar.handle_events r envs st) = Navbar.page st
  ∧ Navbar.console (Navbar.handle_events r envs st)
    = Navbar.console st
      ++ replicate (length envs) "heroLanding section not found".
Proof.
  intros r. split; [reflexivity|].
  unfold Navbar.handle_events. revert st.
  induction envs as [|env envs IH]; intros st; cbn [foldl length replicate].
  - by rewrite app_nil_r.
  - destruct (IH (exec (Navbar.handleNavbarScroll r env) st)) as [Hp Hc].
    rewrite Hp, Hc. split; [reflexivity|].
    cbn. by rewrite <- app_assoc.
Qed.

(** ** Viewport section observer *)

Section SectionsFacts.
Import Sections.
Implicit Types (blocks : list nat) (d : dom) (e : nat).
Implicit Types (entry : IntersectionObserverEntry).

Lemma contains_clear_all blocks c0 d e c :
  classList_contains e c (foldl (λ d b, classList_remove b c0 d) d blocks)
  = negb (bool_decide (e ∈ blocks ∧ c = c0)) && classList_contains e c d.
Proof.
  revert d. induction blocks as [|b blocks IH]; intros d; cbn [foldl].
  - rewrite bool_decide_eq_false_2; [done|]. intros [H _]. by apply not_elem_of_nil in H.
  - rewrite IH, classList_contains_remove.
    destruct (classList_contains e c d); rewrite ?andb_false_r, ?andb_true_r; [|done].
    rewrite <- negb_orb. f_equal. apply eq_true_iff_eq.
    rewrite orb_true_iff, !bool_decide_eq_true, elem_of_cons. naive_solver.
Qed.

(** One entry, as seen on the marker. *)
Lemma active_on_entry blocks d entry e :
  active e (on_entry blocks d entry)
  = if exceeds entry
    then bool_decide (e = target entry)
         || (negb (bool_decide (e ∈ blocks)) && active e d)
    else negb (bool_decide (e = target entry)) && active e d.
Proof.
  unfold active, on_entry. destruct (exceeds entry).
  - rewrite classList_contains_add, contains_clear_all. f_equal.
    + apply bool_decide_ext. naive_solver.
    + do 2 f_equal. apply bool_decide_ext. naive_solver.
  - rewrite classList_contains_remove. do 2 f_equal.
    apply bool_decide_ext. naive_solver.
Qed.

(** One entry, as seen on every other class. *)
Lemma other_class_on_entry blocks d entry e c :
  c ≠ "vsect-active" →
  classList_contains e c (on_entry blocks d entry) = classList_contains e c d.
Proof.
  intros Hc. unfold on_entry. destruct (exceeds entry).
  - rewrite classList_contains_add, contains_clear_all.
    rewrite !bool_decide_eq_false_2 by naive_solver. done.
  - rewrite classList_contains_remove.
    rewrite !bool_decide_eq_false_2 by naive_solver. done.
Qed.

Lemma at_most_one_on_entry blocks d entry :
  at_most_one blocks d ∨ exceeds entry = true →
  at_most_one blocks (on_entry blocks d entry).
Proof.
  intros H a b Ha Hb. rewrite !active_on_entry.
  destruct (exceeds entry).
  - rewrite !(bool_decide_eq_true_2 (_ ∈ blocks)) by done. simpl.
    rewrite !orb_false_r, !bool_decide_eq_true. congruence.
  - destruct H as [H|]; [|done].
    rewrite !andb_true_iff. intros [_ ?] [_ ?]. by apply H.
Qed.

Lemma at_most_one_batch blocks entries d :
  at_most_one blocks d ∨ existsb exceeds entries = true →
  at_most_one blocks (handleIntersection blocks entries d).
Proof.
  unfold handleIntersection. revert d.
  induction entries as [|entry entries IH]; intros d H; simpl in *.
  - destruct H; [done | discriminate].
  - apply IH. destruct (exceeds entry) eqn:E.
    + left. apply at_most_one_on_entry. by right.
    + destruct H as [H|H]; [|by right].
      left. apply at_most_one_on_entry. by left.
Qed.

Lemma active_quiet_batch blocks entries d e :
  quiet entries = true →
  active e (handleIntersection blocks entries d)
  = negb (bool_decide (e ∈ targets entries)) && active e d.
Proof.
  unfold handleIntersection, quiet, targets. revert d.
  induction entries as [|entry entries IH]; intros d H;
    cbn [foldl forallb fmap list_fmap] in *.
  - rewrite bool_decide_eq_false_2; [done | apply not_elem_of_nil].
  - apply andb_true_iff in H as [Hq H]. apply negb_true_iff in Hq.
    rewrite IH by done. rewrite active_on_entry, Hq.
    destruct (active e d); rewrite ?andb_false_r, ?andb_true_r; [|done].
    rewrite <- negb_orb. f_equal. apply eq_true_iff_eq.
    rewrite orb_true_iff, !bool_decide_eq_true, elem_of_cons. naive_solver.
Qed.

Lemma at_most_one_length blocks d :
  NoDup blocks → (at_most_one blocks d ↔ length (active_blocks blocks d) ≤ 1).
Proof.
  intros Hnd. unfold active_blocks. split.
  - intros H.
    assert (Hnd' : NoDup (filter (λ b, active b d = true) blocks))
      by by apply NoDup_filter.
    destruct (filter (λ b, active b d = true) blocks) as [|a [|b l]] eqn:E;
      simpl; [lia | lia |].
    assert (Ha : a ∈ filter (λ b, active b d = true) blocks) by (rewrite E; set_solver).
    assert (Hb : b ∈ filter (λ b, active b d = true) blocks) by (rewrite E; set_solver).
    apply list_elem_of_filter in Ha as [? ?], Hb as [? ?].
    assert (a = b) by by apply H. subst.
    apply NoDup_cons in Hnd' as [Hn _]. exfalso. apply Hn. set_solver.
  - intros Hlen a b Ha Hb Haa Hba.
    assert (Ha' : a ∈ filter (λ b, active b d = true) blocks)
      by by apply list_elem_of_filter.
    assert (Hb' : b ∈ filter (λ b, active b d = true) blocks)
      by by apply list_elem_of_filter.
    destruct (filter (λ b, active b d = true) blocks) as [|x [|y l]];
      simpl in Hlen; [set_solver | set_solver | lia].
Qed.
End SectionsFacts.

(** C1, as the code has it.  Over distinct observed sections [blocks]:
    a batch leaves at most one of them with [vsect-active] when at most
    one had it before or when some entry of the batch is intersecting
    with a ratio above 0.7.  Such an entry clears the class from every
    observed section and then sets it on its own target; any other entry
    removes it from its own target only; no entry touches another class.
    A batch without such an entry sets the class nowhere: afterwards it
    is on the elements that had it and are not a target of the batch, so
    on none when none had it. *)
Theorem section_batch_at_most_one_active
    (blocks : list nat) (entries : list IntersectionObserverEntry) (d : dom) :
  NoDup blocks →
  let d' := Sections.handleIntersection blocks entries d in
  (length (Sections.active_blocks blocks d) ≤ 1
   ∨ existsb Sections.exceeds entries = true →
   length (Sections.active_blocks blocks d') ≤ 1)
  ∧ (∀ entry e d0,
       Sections.active e (Sections.on_entry blocks d0 entry)
       = if Sections.exceeds entry
         then bool_decide (e = target entry)
              || (negb (bool_decide (e ∈ blocks)) && Sections.active e d0)
         else negb (bool_decide (e = target entry)) && Sections.active e d0)
  ∧ (∀ entry e c d0,
       c ≠ "vsect-active" →
       classList_contains e c (Sections.on_entry blocks d0 entry)
       = classList_contains e c d0)
  ∧ (Sections.quiet entries = true →
     (∀ e, Sections.active e d'
           = negb (bool_decide (e ∈ Sections.targets entries))
             && Sections.active e d)
     ∧ (Sections.active_blocks blocks d = [] →
        Sections.active_blocks blocks d' = [])).
Proof.
  intros Hnd d'. split; [|split; [|split]].
  - intros H. apply at_most_one_length; [done|].
    apply at_most_one_batch. destruct H as [H|H]; [left | by right].
    by apply at_most_one_length.
  - intros entry e d0. apply active_on_entry.
  - intros entry e c d0. apply other_class_on_entry.
  - intros Hq. split.
    + intros e. by apply active_quiet_batch.
    + unfold Sections.active_blocks. intros Hnone.
      destruct (filter (λ b, Sections.active b d' = true) blocks) as [|x l] eqn:E;
        [done|].
      assert (Hx : x ∈ filter (λ b, Sections.active b d' = true) blocks)
        by (rewrite E; set_solver).
      apply list_elem_of_filter in Hx as [Hx Hb].
      subst d'. rewrite active_quiet_batch in Hx by done.
      apply andb_true_iff in Hx as [_ Hx].
      assert (Hin : x ∈ filter (λ b, Sections.active b d = true) blocks)
        by by apply list_elem_of_filter.
      rewrite Hnone in Hin. by apply not_elem_of_nil in Hin.
Qed.

Lemma section_batch_at_most_one_active_witness :
  length (Sections.active_blocks [1; 2]
            (Sections.handleIntersection [1; 2]
               [mkEntry 1 true 1; mkEntry 2 true (8 # 10)]
               Sections.two_sections)) ≤ 1.
Proof.
  apply (section_batch_at_most_one_active [1; 2]
           [mkEntry 1 true 1; mkEntry 2 true (8 # 10)] Sections.two_sections).
  - apply NoDup_cons. split; [set_solver|]. apply NoDup_singleton.
  - right. reflexivity.
Defined.

(** C1 as stated fails in its last clause.  Section 1 takes the marker
    from a batch that reports it fully visible; the next batch reports
    only section 2, at a ratio of one tenth, so no entry of that batch
    exceeds 0.7, and section 1 still carries the marker after it. *)
Lemma section_quiet_batch_leaves_marker :
  let blocks := [1; 2] in
  let d1 := Sections.handleIntersection blocks [mkEntry 1 true 1]
              Sections.two_sections in
  let batch := [mkEntry 2 true (1 # 10)] in
  Sections.quiet batch = true
  ∧ Sections.active_blocks blocks (Sections.handleIntersection blocks batch d1)
    = [1].
Proof. split; reflexivity. Qed.

(** ** Visibility animations *)

Section AnimationsFacts.
Import Animations.
Implicit Types (e : nat) (st : state).
Implicit Types (entry : IntersectionObserverEntry).
Implicit Types (entries : list IntersectionObserverEntry).

Lemma last_report_nil e : last_report e [] = None.
Proof. reflexivity. Qed.

Lemma last_report_cons e entry entries :
  last_report e (entry :: entries)
  = match last_report e entries with
    | Some b => Some b
    | None => if decide (target entry = e) then Some (isIntersecting entry) else None
    end.
Proof.
  unfold last_report. rewrite filter_cons.
  destruct (decide (target entry = e)) as [Heq|Hne];
    [|by destruct (isIntersecting <$> last _)].
  destruct (filter (λ entry0, target entry0 = e) entries) as [|x l] eqn:E; [done|].
  rewrite last_cons. by destruct (last (x :: l)) eqn:El.
Qed.

(** The repeating handlers leave on [e] what the batch last said of it. *)
Lemma in_view_repeat e entries st :
  in_view e (handleAnimateRepeatEntries entries st)
  = default (in_view e st) (last_report e entries).
Proof.
  unfold handleAnimateRepeatEntries. revert st.
  induction entries as [|entry entries IH]; intros st; [done|].
  cbn [foldl]. rewrite IH, last_report_cons.
  destruct (last_report e entries) as [b|]; [done|]. cbn [default].
  unfold in_view.
  destruct (isIntersecting entry) eqn:Ei; cbn [page on_page];
    [rewrite classList_contains_add | rewrite classList_contains_remove];
    destruct (decide (target entry = e)) as [Heq|Hne]; cbn [default].
  - by rewrite bool_decide_eq_true_2.
  - by rewrite bool_decide_eq_false_2 by naive_solver.
  - by rewrite bool_decide_eq_true_2.
  - by rewrite bool_decide_eq_false_2 by naive_solver.
Qed.

(** [handleLineRepeatEntries] has the same body. *)
Lemma in_view_line_repeat e entries st :
  in_view e (handleLineRepeatEntries entries st)
  = default (in_view e st) (last_report e entries).
Proof. exact (in_view_repeat e entries st). Qed.

(** A run of callbacks of a repeating observer does what one callback
    with all the entries in a row would do. *)
Lemma callbacks_repeat_concat batches st :
  callbacks handleAnimateRepeatEntries batches st
  = handleAnimateRepeatEntries (concat batches) st.
Proof.
  unfold callbacks. revert st.
  induction batches as [|batch batches IH]; intros st; [done|].
  cbn [foldl concat]. rewrite IH. unfold handleAnimateRepeatEntries.
  by rewrite foldl_app.
Qed.

Lemma in_view_callbacks_repeat e batches st :
  in_view e (callbacks handleAnimateRepeatEntries batches st)
  = default (in_view e st) (latest_report e batches).
Proof. rewrite callbacks_repeat_concat. apply in_view_repeat. Qed.

(** Entries for other elements leave the class list of [e] as it is. *)
Lemma repeat_frame e entries st :
  last_report e entries = None →
  classList e (page (handleAnimateRepeatEntries entries st)) = classList e (page st).
Proof.
  unfold handleAnimateRepeatEntries. revert st.
  induction entries as [|entry entries IH]; intros st Hnone; [done|].
  rewrite last_report_cons in Hnone.
  destruct (last_report e entries) as [b|] eqn:Hl; [done|].
  destruct (decide (target entry = e)) as [Heq|Hne]; [done|].
  cbn [foldl]. rewrite IH by done.
  destruct (isIntersecting entry); cbn [page on_page];
    unfold classList_add, classList_remove;
    by rewrite classList_set, decide_False by done.
Qed.

(** No class but [in-view] changes on any element. *)
Lemma repeat_other_classes x c entries st :
  c ≠ "in-view" →
  classList_contains x c (page (handleAnimateRepeatEntries entries st))
  = classList_contains x c (page st).
Proof.
  intros Hc. unfold handleAnimateRepeatEntries. revert st.
  induction entries as [|entry entries IH]; intros st; [done|].
  cbn [foldl]. rewrite IH.
  destruct (isIntersecting entry); cbn [page on_page];
    [rewrite classList_contains_add | rewrite classList_contains_remove];
    by rewrite bool_decide_eq_false_2 by naive_solver.
Qed.

(** A class list that holds [in-view] is not changed by adding it
    anywhere. *)
Lemma classList_add_in_view_again e e' d :
  classList_contains e "in-view" d = true →
  classList e (classList_add e' "in-view" d) = classList e d.
Proof.
  intros H. unfold classList_add. rewrite classList_set.
  destruct (decide (e = e')) as [->|]; [|done].
  apply add_present. by apply contains_true.
Qed.

Lemma animate_keeps_marker e entries st :
  in_view e st = true →
  classList e (page (handleAnimateEntries entries st)) = classList e (page st).
Proof.
  unfold handleAnimateEntries. revert st.
  induction entries as [|entry entries IH]; intros st Hin; [done|].
  cbn [foldl]. destruct (isIntersecting entry); [|by apply IH].
  rewrite IH.
  - by apply classList_add_in_view_again.
  - unfold in_view, classList_contains in *. cbn [page on_page animateObserver_unobserve].
    by rewrite classList_add_in_view_again.
Qed.

Lemma line_keeps_marker e entries st :
  in_view e st = true →
  classList e (page (handleLineEntries entries st)) = classList e (page st).
Proof.
  unfold handleLineEntries. revert st.
  induction entries as [|entry entries IH]; intros st Hin; [done|].
  cbn [foldl]. destruct (isIntersecting entry); [|by apply IH].
  rewrite IH.
  - by apply classList_add_in_view_again.
  - unfold in_view, classList_contains in *. cbn [page on_page lineObserver_unobserve].
    by rewrite classList_add_in_view_again.
Qed.

Lemma animate_only_unobserves entries st :
  animateObserver (handleAnimateEntries entries st) ⊆ animateObserver st.
Proof.
  unfold handleAnimateEntries. revert st.
  induction entries as [|entry entries IH]; intros st; [done|].
  cbn [foldl]. etrans; [apply IH|].
  destruct (isIntersecting entry); [|done]. cbn. set_solver.
Qed.

Lemma line_only_unobserves entries st :
  lineObserver (handleLineEntries entries st) ⊆ lineObserver st.
Proof.
  unfold handleLineEntries. revert st.
  induction entries as [|entry entries IH]; intros st; [done|].
  cbn [foldl]. etrans; [apply IH|].
  destruct (isIntersecting entry); [|done]. cbn. set_solver.
Qed.

Lemma in_view_kept st st' e :
  in_view e st = true → classList e (page st') = classList e (page st) →
  in_view e st' = true.
Proof. unfold in_view, classList_contains. by intros ? ->. Qed.

Lemma animate_entering e entries st :
  reports_entering e entries = true →
  in_view e (handleAnimateEntries entries st) = true
  ∧ e ∉ animateObserver (handleAnimateEntries entries st).
Proof.
  unfold reports_entering. revert st.
  induction entries as [|entry entries IH]; intros st H; [done|].
  cbn [existsb] in H. apply orb_true_iff in H as [H|H].
  - apply andb_true_iff in H as [He Hi]. apply bool_decide_eq_true in He.
    change (handleAnimateEntries (entry :: entries) st)
      with (handleAnimateEntries entries
              (if isIntersecting entry
               then animateObserver_unobserve (target entry)
                      (on_page (classList_add (target entry) "in-view") st)
               else st)).
    rewrite Hi, He.
    set (st1 := animateObserver_unobserve e _).
    assert (H1 : in_view e st1 = true).
    { unfold in_view, st1. cbn. rewrite classList_contains_add.
      by rewrite bool_decide_eq_true_2. }
    split.
    + eapply in_view_kept; [exact H1|]. by apply animate_keeps_marker.
    + intros Hin. apply animate_only_unobserves in Hin.
      unfold st1 in Hin. cbn in Hin. set_solver.
  - by apply (IH _ H).
Qed.

Lemma line_entering e entries st :
  reports_entering e entries = true →
  in_view e (handleLineEntries entries st) = true
  ∧ e ∉ lineObserver (handleLineEntries entries st).
Proof.
  unfold reports_entering. revert st.
  induction entries as [|entry entries IH]; intros st H; [done|].
  cbn [existsb] in H. apply orb_true_iff in H as [H|H].
  - apply andb_true_iff in H as [He Hi]. apply bool_decide_eq_true in He.
    change (handleLineEntries (entry :: entries) st)
      with (handleLineEntries entries
              (if isIntersecting entry
               then lineObserver_unobserve (target entry)
                      (on_page (classList_add (target entry) "in-view") st)
               else st)).
    rewrite Hi, He.
    set (st1 := lineObserver_unobserve e _).
    assert (H1 : in_view e st1 = true).
    { unfold in_view, st1. cbn. rewrite classList_contains_add.
      by rewrite bool_decide_eq_true_2. }
    split.
    + eapply in_view_kept; [exact H1|]. by apply line_keeps_marker.
    + intros Hin. apply line_only_unobserves in Hin.
      unfold st1 in Hin. cbn in Hin. set_solver.
  - by apply (IH _ H).
Qed.

(** Over a run of callbacks. *)
Lemma callbacks_animate_keep e batches st :
  in_view e st = true →
  classList e (page (callbacks handleAnimateEntries batches st)) = classList e (page st)
  ∧ animateObserver (callbacks handleAnimateEntries batches st) ⊆ animateObserver st.
Proof.
  unfold callbacks. revert st.
  induction batches as [|batch batches IH]; intros st Hin; [done|].
  cbn [foldl].
  assert (Hk := animate_keeps_marker e batch st Hin).
  destruct (IH (handleAnimateEntries batch st)) as [Hc Ho].
  { by eapply in_view_kept. }
  split; [by rewrite Hc|].
  etrans; [exact Ho | apply animate_only_unobserves].
Qed.

Lemma callbacks_line_keep e batches st :
  in_view e st = true →
  classList e (page (callbacks handleLineEntries batches st)) = classList e (page st)
  ∧ lineObserver (callbacks handleLineEntries batches st) ⊆ lineObserver st.
Proof.
  unfold callbacks. revert st.
  induction batches as [|batch batches IH]; intros st Hin; [done|].
  cbn [foldl].
  assert (Hk := line_keeps_marker e batch st Hin).
  destruct (IH (handleLineEntries batch st)) as [Hc Ho].
  { by eapply in_view_kept. }
  split; [by rewrite Hc|].
  etrans; [exact Ho | apply line_only_unobserves].
Qed.
End AnimationsFacts.

(** C2. For the two repeating handlers, from any state and through any
    run of callbacks, whatever their entries: when some callback of the
    run reported on [e], [e] carries [in-view] afterwards exactly when
    the latest report on [e] (the last entry for [e] of the latest batch
    that has one) is intersecting; when none did, the class list of [e]
    is as it was, so a callback that does not mention [e] leaves its
    marker alone; and no class but [in-view] changes on any element. *)
Theorem repeat_marker_tracks_latest_report
    (e : nat) (batches : list (list IntersectionObserverEntry))
    (st : Animations.state) :
  let after_animate :=
    Animations.callbacks Animations.handleAnimateRepeatEntries batches st in
  let after_line :=
    Animations.callbacks Animations.handleLineRepeatEntries batches st in
  (∀ b, Animations.latest_report e batches = Some b →
        (Animations.in_view e after_animate = true ↔ b = true)
        ∧ (Animations.in_view e after_line = true ↔ b = true))
  ∧ (Animations.latest_report e batches = None →
     classList e (Animations.page after_animate) = classList e (Animations.page st)
     ∧ classList e (Animations.page after_line) = classList e (Animations.page st))
  ∧ (∀ x c, c ≠ "in-view" →
       classList_contains x c (Animations.page after_animate)
       = classList_contains x c (Animations.page st)
       ∧ classList_contains x c (Animations.page after_line)
         = classList_contains x c (Animations.page st)).
Proof.
  intros after_animate after_line.
  assert (Hsame : after_line = after_animate) by reflexivity.
  rewrite Hsame. subst after_animate. clear Hsame after_line.
  split; [|split].
  - intros b Hlast. rewrite in_view_callbacks_repeat, Hlast. cbn [default]. tauto.
  - intros Hnone. rewrite callbacks_repeat_concat.
    split; by apply repeat_frame.
  - intros x c Hc. rewrite callbacks_repeat_concat.
    split; by apply repeat_other_classes.
Qed.

Lemma repeat_marker_tracks_latest_report_witness :
  let batches :=
    [[Animations.enters 1]; [Animations.leaves 1]; [Animations.enters 1];
     [Animations.enters 2; Animations.leaves 1]; [Animations.enters 2]] in
  Animations.latest_report 1 batches = Some false
  ∧ (Animations.in_view 1
       (Animations.callbacks Animations.handleAnimateRepeatEntries batches
          Animations.fresh) = true ↔ false = true)
  ∧ (Animations.in_view 1
       (Animations.callbacks Animations.handleLineRepeatEntries batches
          Animations.fresh) = true ↔ false = true).
Proof.
  intros batches. split; [reflexivity|].
  destruct (repeat_marker_tracks_latest_report 1 batches Animations.fresh)
    as [Htrack _].
  exact (Htrack false eq_refl).
Defined.

(** C5. For the two one-shot handlers: a callback whose batch reports
    [e] as intersecting leaves [in-view] on [e] and [e] out of the
    observer's targets; after any run of later callbacks of that
    observer, whatever their entries, the class list of [e] is the very
    list that callback left and [e] is still not observed. *)
Theorem one_shot_marker_is_final
    (e : nat) (batch : list IntersectionObserverEntry)
    (later : list (list IntersectionObserverEntry)) (st : Animations.state) :
  Animations.reports_entering e batch = true →
  (let st1 := Animations.handleAnimateEntries batch st in
   let st2 := Animations.callbacks Animations.handleAnimateEntries later st1 in
   Animations.in_view e st1 = true
   ∧ (e ∉ Animations.animateObserver st1)
   ∧ classList e (Animations.page st2) = classList e (Animations.page st1)
   ∧ e ∉ Animations.animateObserver st2)
  ∧ (let st1 := Animations.handleLineEntries batch st in
     let st2 := Animations.callbacks Animations.handleLineEntries later st1 in
     Animations.in_view e st1 = true
     ∧ (e ∉ Animations.lineObserver st1)
     ∧ classList e (Animations.page st2) = classList e (Animations.page st1)
     ∧ e ∉ Animations.lineObserver st2).
Proof.
  intros Hent. split.
  - destruct (animate_entering e batch st Hent) as [Hin Hobs].
    destruct (callbacks_animate_keep e later _ Hin) as [Hc Ho].
    repeat split; [done | done | done |]. intros H. apply Hobs. by apply Ho.
  - destruct (line_entering e batch st Hent) as [Hin Hobs].
    destruct (callbacks_line_keep e later _ Hin) as [Hc Ho].
    repeat split; [done | done | done |]. intros H. apply Hobs. by apply Ho.
Qed.

Lemma one_shot_marker_is_final_witness :
  let st1 := Animations.handleAnimateEntries [Animations.enters 1] Animations.fresh in
  let st2 := Animations.callbacks Animations.handleAnimateEntries
               [[Animations.leaves 1]; [Animations.enters 1]; [Animations.leaves 1]]
               st1 in
  Animations.in_view 1 st1 = true
  ∧ (1 ∉ Animations.animateObserver st1)
  ∧ classList 1 (Animations.page st2) = classList 1 (Animations.page st1)
  ∧ 1 ∉ Animations.animateObserver st2.
Proof.
  apply (one_shot_marker_is_final 1 [Animations.enters 1]
           [[Animations.leaves 1]; [Animations.enters 1]; [Animations.leaves 1]]
           Animations.fresh).
  reflexivity.
Defined.

(** ** Timers *)

Section TimerFacts.
Context {T : Type}.
Implicit Types (q : list (timer T)).

Lemma enqueue_elem_of (t u : timer T) q : u ∈ enqueue t q ↔ u = t ∨ u ∈ q.
Proof.
  induction q as [|v q IH]; cbn [enqueue].
  - rewrite list_elem_of_singleton. set_solver.
  - destruct (due v <=? due t); rewrite !elem_of_cons, ?IH; naive_solver.
Qed.

Lemma enqueue_in_firing_order (t : timer T) q :
  in_firing_order q → in_firing_order (enqueue t q).
Proof.
  unfold in_firing_order. induction 1 as [|v q Hq IH Hv]; cbn [enqueue].
  - repeat constructor.
  - destruct (due v <=? due t) eqn:E.
    + apply Nat.leb_le in E. constructor; [done|].
      apply Forall_forall. intros u Hu. apply enqueue_elem_of in Hu as [->|Hu]; [done|].
      by eapply Forall_forall in Hv.
    + apply Nat.leb_gt in E. constructor; [by constructor|].
      constructor; [lia|]. eapply Forall_impl; [exact Hv|]. intros; simpl in *; lia.
Qed.

(** In a queue in firing order, what is due by [t2] is what is due by an
    earlier [t1] followed by what comes due between the two. *)
Lemma due_split q t1 t2 :
  in_firing_order q → t1 ≤ t2 →
  filter (λ tm, due tm ≤ t2) q
  = filter (λ tm, due tm ≤ t1) q
    ++ filter (λ tm, due tm ≤ t2) (filter (λ tm, ¬ due tm ≤ t1) q).
Proof.
  unfold in_firing_order. intros Hs Hle.
  induction Hs as [|v q Hq IH Hv]; [done|].
  rewrite !(filter_cons _ v).
  destruct (decide (due v ≤ t1)) as [H1|H1].
  - rewrite decide_True by lia. rewrite decide_False by tauto.
    cbn [app]. by rewrite IH.
  - rewrite (decide_True (P := ¬ _)) by done.
    assert (Hnone : filter (λ tm, due tm ≤ t1) q = []).
    { destruct (filter (λ tm, due tm ≤ t1) q) as [|x l] eqn:E; [done|].
      assert (Hx : x ∈ filter (λ tm, due tm ≤ t1) q) by (rewrite E; set_solver).
      apply list_elem_of_filter in Hx as [Hx Hin].
      eapply Forall_forall in Hv; [|exact Hin]. simpl in *. lia. }
    rewrite Hnone in *. cbn [app] in *. rewrite filter_cons.
    destruct (decide (due v ≤ t2)); by rewrite IH.
Qed.

Lemma not_due_twice q t1 t2 :
  t1 ≤ t2 →
  filter (λ tm, ¬ due tm ≤ t2) (filter (λ tm, ¬ due tm ≤ t1) q)
  = filter (λ tm, ¬ due tm ≤ t2) q.
Proof.
  intros Hle. induction q as [|v q IH]; [done|].
  rewrite !(filter_cons _ v).
  destruct (decide (¬ due v ≤ t1)) as [H1|H1].
  - rewrite filter_cons. destruct (decide (¬ due v ≤ t2)); by rewrite IH.
  - rewrite decide_False by lia. done.
Qed.

Lemma filter_in_firing_order (P : timer T → Prop) `{!∀ x, Decision (P x)} q :
  in_firing_order q → in_firing_order (filter P q).
Proof.
  unfold in_firing_order. induction 1 as [|v q Hq IH Hv]; [constructor|].
  rewrite filter_cons. destruct (decide (P v)); [|done].
  constructor; [done|]. apply Forall_forall. intros u Hu.
  apply list_elem_of_filter in Hu as [_ Hu]. by eapply Forall_forall in Hv.
Qed.
End TimerFacts.

(** ** The tree *)

Section TreeFacts.
Implicit Types (d : dom) (e o : nat).

Lemma children_remove_node e o d :
  children e (remove_node o d) = filter (λ k, k ≠ o) (children e d).
Proof.
  unfold children, remove_node; cbn. rewrite lookup_fmap.
  by destruct (childNodes d !! e).
Qed.

Lemma not_child_after_remove e o d : o ∉ children e (remove_node o d).
Proof.
  rewrite children_remove_node. intros H.
  apply list_elem_of_filter in H as [H _]. by apply H.
Qed.

Lemma parentNode_remove_node o d : parentNode o (remove_node o d) = None.
Proof.
  unfold parentNode.
  destruct (filter _ (map_to_list (childNodes (remove_node o d)))) as [|x l] eqn:E;
    [done|].
  assert (Hx : x ∈ filter (λ p : nat * list nat, o ∈ p.2)
                     (map_to_list (childNodes (remove_node o d))))
    by (rewrite E; set_solver).
  apply list_elem_of_filter in Hx as [Ho Hx]. destruct x as [k ks].
  apply elem_of_map_to_list in Hx. exfalso.
  apply (not_child_after_remove k o d). unfold children. by rewrite Hx.
Qed.

Lemma descendants_upto_elem fuel d e x :
  x ∈ descendants_upto fuel d e → ∃ p, x ∈ children p d.
Proof.
  revert e. induction fuel as [|fuel IH]; intros e; cbn [descendants_upto].
  - intros H. by apply not_elem_of_nil in H.
  - intros H. apply list_elem_of_In, in_flat_map in H as (k & Hk & Hx).
    apply list_elem_of_In in Hk. apply list_elem_of_In, elem_of_cons in Hx as [->|Hx].
    + by exists e.
    + by apply (IH k).
Qed.

Lemma not_descendant_after_remove o d e :
  o ∉ descendants (remove_node o d) e.
Proof.
  intros H. apply descendants_upto_elem in H as [p Hp].
  by apply not_child_after_remove in Hp.
Qed.

Lemma not_connected_after_remove o d :
  o ≠ document → isConnected o (remove_node o d) = false.
Proof.
  intros Ho. unfold isConnected, ancestors_or_self, depth_bound.
  cbn [ancestors_upto]. rewrite parentNode_remove_node.
  apply bool_decide_eq_false. rewrite list_elem_of_singleton. congruence.
Qed.

Lemma querySelector_found root sel d e :
  querySelector root sel d = Some e →
  e ∈ descendants d root ∧ matches sel d e = true.
Proof.
  unfold querySelector, querySelectorAll. intros H.
  apply head_Some_elem_of, list_elem_of_filter in H. tauto.
Qed.

Lemma matches_not_document sel d e : matches sel d e = true → e ≠ document.
Proof.
  destruct sel; cbn [matches]; unfold has_classes;
    rewrite ?andb_true_iff, negb_true_iff, bool_decide_eq_false; tauto.
Qed.
End TreeFacts.

(** ** Preload overlay *)

Section PreloadFacts.
Import Preload.
Implicit Types (st : state) (d : dom).

Lemma advance_add a b st :
  in_firing_order (pending (clock st)) →
  advance b (advance a st) = advance (a + b) st.
Proof.
  intros Hs. unfold advance, fire. cbn.
  rewrite (due_split (pending (clock st)) (now (clock st) + a)
             (now (clock st) + (a + b))) by (done || lia).
  rewrite foldl_app, Nat.add_assoc. f_equal. f_equal.
  apply not_due_twice. lia.
Qed.

Lemma advance_in_firing_order a st :
  in_firing_order (pending (clock st)) →
  in_firing_order (pending (clock (advance a st))).
Proof. intros Hs. unfold advance, fire. cbn. by apply filter_in_firing_order. Qed.

Lemma elapse_cons w waits st :
  in_firing_order (pending (clock st)) →
  elapse (w :: waits) st = advance (w + sum_list waits) st.
Proof.
  unfold elapse. revert w st. induction waits as [|w' waits IH]; intros w st Hs.
  - cbn. by rewrite Nat.add_0_r.
  - cbn [foldl sum_list] in *.
    rewrite IH by by apply advance_in_firing_order. by apply advance_add.
Qed.

Lemma on_load_found d L n o :
  querySelector document (SelClasses ["preload-overlay"]) d = Some o →
  on_load (mkState d (mkTimers L [] n))
  = mkState d (mkTimers L (Preload.sequence o L n) (S (S (S n)))).
Proof.
  intros Hq. unfold on_load. cbn [page]. rewrite Hq.
  assert (E1 : (L + 500 <=? L + 800) = true) by (apply Nat.leb_le; lia).
  assert (E2 : (L + 500 <=? L + 1800) = true) by (apply Nat.leb_le; lia).
  assert (E3 : (L + 800 <=? L + 1800) = true) by (apply Nat.leb_le; lia).
  unfold schedule, setTimeout, Preload.sequence. cbn. rewrite E1. cbn. by rewrite E2, E3.
Qed.

Lemma sequence_in_firing_order o L n : in_firing_order (Preload.sequence o L n).
Proof.
  unfold in_firing_order, sequence.
  repeat (constructor; [|repeat (constructor; cbn; try lia)]). constructor.
Qed.

(** Three callbacks due at [L + a], [L + b] and [L + c], in that order. *)
Lemma advance_three d L n1 n2 n3 n' f1 f2 f3 a b c ms :
  a ≤ b → b ≤ c →
  let st' := advance ms (mkState d (mkTimers L
               [mkTimer n1 (L + a) f1; mkTimer n2 (L + b) f2; mkTimer n3 (L + c) f3]
               n')) in
  page st' = (if ms <? a then d
              else if ms <? b then run f1 d
              else if ms <? c then run f2 (run f1 d)
              else run f3 (run f2 (run f1 d)))
  ∧ (c ≤ ms → pending (clock st') = []).
Proof.
  intros Hab Hbc. unfold advance, fire.
  cbn [clock now pending page next_timer].
  rewrite !filter_cons, !filter_nil. cbn [due].
  destruct (Nat.ltb_spec ms a), (Nat.ltb_spec ms b), (Nat.ltb_spec ms c);
    try (exfalso; lia);
    repeat (case_decide; try (exfalso; lia));
    cbn [foldl callback clock pending];
    (split; [reflexivity | intros; done || (exfalso; lia)]).
Qed.

Lemma advance_sequence d L n n' o ms :
  let st' := advance ms (mkState d (mkTimers L (Preload.sequence o L n) n')) in
  page st' = stage o d ms
  ∧ (1800 ≤ ms → pending (clock st') = []).
Proof.
  apply (advance_three d L n (S n) (S (S n)) n'
           (FadeOut o) (Hide o) (RemoveOverlay o) 500 800 1800 ms);
    by apply Nat.leb_le.
Qed.
End PreloadFacts.

(** C7. The load event at time [L], the module having scheduled nothing
    before.  Without an overlay the state is left as it is, so no timer
    is scheduled.  With an overlay [o] three callbacks are queued, due
    at [L + 500], [L + 800] and [L + 1800]; however the time that
    follows is cut into steps, after [t] milliseconds in all the
    document is the one of [stage]: unchanged before 500, with
    [fade-out] from 500, with [hidden] too from 800, and with [o] out of
    its parent's child list from 1800; from then on the queue is empty
    and [o] is not connected, not a descendant of the document, and not
    found by the selector. *)
Theorem preload_overlay_sequence (d : dom) (L n : nat) (waits : list nat) :
  let st := Preload.mkState d (mkTimers L [] n) in
  let t := sum_list waits in
  match querySelector document (SelClasses ["preload-overlay"]) d with
  | None => Preload.on_load st = st
  | Some o =>
      let st' := Preload.elapse waits (Preload.on_load st) in
      pending (Preload.clock (Preload.on_load st))
      = [ mkTimer n (L + 500) (Preload.FadeOut o);
          mkTimer (S n) (L + 800) (Preload.Hide o);
          mkTimer (S (S n)) (L + 1800) (Preload.RemoveOverlay o) ]
      ∧ Preload.page st' = Preload.stage o d t
      ∧ (1800 ≤ t →
         pending (Preload.clock st') = []
         ∧ isConnected o (Preload.page st') = false
         ∧ (o ∉ descendants (Preload.page st') document)
         ∧ querySelector document (SelClasses ["preload-overlay"]) (Preload.page st')
           ≠ Some o)
  end.
Proof.
  intros st t.
  destruct (querySelector document (SelClasses ["preload-overlay"]) d) as [o|] eqn:Hq.
  - subst st. cbn zeta. rewrite (on_load_found d L n o Hq).
    split; [reflexivity|].
    assert (Hrun :
      Preload.page (Preload.elapse waits
        (Preload.mkState d (mkTimers L (Preload.sequence o L n) (S (S (S n))))))
      = Preload.stage o d t
      ∧ (1800 ≤ t →
         pending (Preload.clock (Preload.elapse waits
           (Preload.mkState d (mkTimers L (Preload.sequence o L n) (S (S (S n))))))) = [])).
    { destruct waits as [|w waits].
      - subst t. cbn. split; [reflexivity | lia].
      - rewrite elapse_cons by apply sequence_in_firing_order.
        apply advance_sequence. }
    destruct Hrun as [Hpage Hq'].
    split; [exact Hpage|]. intros Ht.
    assert (Hgone : Preload.stage o d t
                    = remove_node o (classList_add o "hidden"
                                       (classList_add o "fade-out" d))).
    { unfold Preload.stage.
      destruct (t <? 500) eqn:E1; [apply Nat.ltb_lt in E1; lia|].
      destruct (t <? 800) eqn:E2; [apply Nat.ltb_lt in E2; lia|].
      destruct (t <? 1800) eqn:E3; [apply Nat.ltb_lt in E3; lia|]. done. }
    rewrite Hpage, Hgone.
    apply querySelector_found in Hq as [_ Hm].
    split; [by apply Hq'|]. split; [|split].
    + apply not_connected_after_remove. by eapply matches_not_document.
    + apply not_descendant_after_remove.
    + intros Hfound. apply querySelector_found in Hfound as [Hin _].
      by apply not_descendant_after_remove in Hin.
  - subst st. unfold Preload.on_load. cbn [Preload.page]. by rewrite Hq.
Qed.

Lemma preload_overlay_sequence_witness :
  let st' := Preload.elapse [500; 300; 1000]
               (Preload.on_load (Preload.mkState Preload.loading_page (mkTimers 0 [] 1))) in
  pending (Preload.clock st') = []
  ∧ isConnected 2 (Preload.page st') = false
  ∧ (2 ∉ descendants (Preload.page st') document)
  ∧ querySelector document (SelClasses ["preload-overlay"]) (Preload.page st') ≠ Some 2.
Proof.
  pose proof (preload_overlay_sequence Preload.loading_page 0 1 [500; 300; 1000]) as H.
  change (querySelector document (SelClasses ["preload-overlay"]) Preload.loading_page)
    with (Some 2) in H.
  apply H. cbn. lia.
Defined.

(** ** Completions *)

Section JSFacts.
Context {S : Type}.
Implicit Types (s : S).

Lemma exec_bind {A B} (m : JS S A) (k : A → JS S B) s :
  exec (m ≫= k) s
  = match m s with
    | (Normal a, s') => exec (k a) s'
    | (Throw _, s') => s'
    end.
Proof.
  unfold exec, mbind, JS_bind, bind. by destruct (m s) as [[a|e] s'].
Qed.

Context (R : relation S) `{!PreOrder R}.

Lemma stable_ret {A} (a : A) : stable R (mret a : JS S A).
Proof. intros s. reflexivity. Qed.

Lemma stable_throw {A} e : stable R (throw e : JS S A).
Proof. intros s. reflexivity. Qed.

Lemma stable_get : stable R (get : JS S S).
Proof. intros s. reflexivity. Qed.

Lemma stable_nonnull {A} (o : option A) : stable R (nonnull o : JS S A).
Proof. intros s. destruct o; reflexivity. Qed.

Lemma stable_modify (f : S → S) : (∀ s, R s (f s)) → stable R (modify f).
Proof. intros H s. apply H. Qed.

Lemma stable_bind {A B} (m : JS S A) (k : A → JS S B) :
  stable R m → (∀ a, stable R (k a)) → stable R (m ≫= k).
Proof.
  intros Hm Hk s. rewrite exec_bind. specialize (Hm s). unfold exec in Hm.
  destruct (m s) as [[a|e] s']; [|exact Hm].
  etrans; [exact Hm | apply Hk].
Qed.

Lemma stable_forEach {A} (xs : list A) (f : A → JS S unit) :
  (∀ x, stable R (f x)) → stable R (forEach xs f).
Proof.
  intros Hf. induction xs as [|x xs IH]; cbn [forEach].
  - apply stable_ret.
  - apply stable_bind; [apply Hf | intros _; apply IH].
Qed.

Lemma stable_foldl {A} (f : A → JS S unit) (xs : list A) s :
  (∀ x, stable R (f x)) → R s (foldl (λ s x, exec (f x) s) s xs).
Proof.
  intros Hf. revert s. induction xs as [|x xs IH]; intros s; cbn [foldl].
  - reflexivity.
  - etrans; [apply Hf | apply IH].
Qed.
End JSFacts.

(** Takes a [stable] goal apart along the code. *)
Ltac stable_step :=
  lazymatch goal with
  | |- stable _ (_ ≫= _) => apply stable_bind; [try apply _ | | intros ?]
  | |- stable _ (mret _) => apply stable_ret; try apply _
  | |- stable _ (ret _) => apply (stable_ret _ _); try apply _
  | |- stable _ (throw _) => apply stable_throw; try apply _
  | |- stable _ get => apply stable_get; try apply _
  | |- stable _ (nonnull _) => apply stable_nonnull; try apply _
  | |- stable _ (forEach _ _) => apply stable_forEach; [try apply _ | intros ?]
  | |- stable _ (modify _) => apply stable_modify; intros ?
  | |- stable _ (match ?x with _ => _ end) => destruct x
  end.

(** ** Documents that differ in some classes only *)

Section SameExcept.
Implicit Types (d : dom) (e : nat) (c : string) (cs : list string).

#[global] Instance same_except_preorder cs : PreOrder (same_except cs).
Proof.
  split.
  - intros d. by repeat split.
  - intros d1 d2 d3 (Ha & Hc & Hn & H) (Ha' & Hc' & Hn' & H').
    repeat split; try congruence. intros e c Hin. by rewrite H', H.
Qed.

Lemma same_except_mono cs cs' d d' :
  cs ⊆ cs' → same_except cs d d' → same_except cs' d d'.
Proof.
  intros Hsub (Ha & Hc & Hn & H). repeat split; try done.
  intros e c Hin. apply H. set_solver.
Qed.

Lemma same_except_add cs e c d :
  c ∈ cs → same_except cs d (classList_add e c d).
Proof.
  intros Hc. repeat split. intros e' c' Hc'.
  rewrite classList_contains_add, bool_decide_eq_false_2; [done|].
  intros [_ ->]. done.
Qed.

Lemma same_except_remove cs e c d :
  c ∈ cs → same_except cs d (classList_remove e c d).
Proof.
  intros Hc. repeat split. intros e' c' Hc'.
  rewrite classList_contains_remove, bool_decide_eq_false_2; [done|].
  intros [_ ->]. done.
Qed.

Context (cs : list string) (d d' : dom) (Hsame : same_except cs d d').

Lemma same_children e : children e d' = children e d.
Proof. destruct Hsame as (_ & Hc & _). unfold children. by rewrite Hc. Qed.

Lemma same_parentNode e : parentNode e d' = parentNode e d.
Proof. destruct Hsame as (_ & Hc & _). unfold parentNode. by rewrite Hc. Qed.

Lemma same_depth_bound : depth_bound d' = depth_bound d.
Proof. destruct Hsame as (_ & Hc & _). unfold depth_bound. by rewrite Hc. Qed.

Lemma same_descendants_upto fuel e :
  descendants_upto fuel d' e = descendants_upto fuel d e.
Proof.
  revert e. induction fuel as [|fuel IH]; intros e; cbn [descendants_upto]; [done|].
  rewrite same_children. apply flat_map_ext. intros k. by rewrite IH.
Qed.

Lemma same_descendants e : descendants d' e = descendants d e.
Proof. unfold descendants. by rewrite same_depth_bound, same_descendants_upto. Qed.

Lemma same_ancestors_upto fuel e :
  ancestors_upto fuel d' e = ancestors_upto fuel d e.
Proof.
  revert e. induction fuel as [|fuel IH]; intros e; cbn [ancestors_upto]; [done|].
  rewrite same_parentNode. destruct (parentNode e d); by rewrite ?IH.
Qed.

Lemma same_ancestors_or_self e : ancestors_or_self d' e = ancestors_or_self d e.
Proof. unfold ancestors_or_self. by rewrite same_depth_bound, same_ancestors_upto. Qed.

Lemma same_getAttribute e name : getAttribute e name d' = getAttribute e name d.
Proof. destruct Hsame as (Ha & _). unfold getAttribute. by rewrite Ha. Qed.

Lemma same_has_classes cs' e :
  (∀ c, c ∈ cs' → c ∉ cs) → has_classes cs' d' e = has_classes cs' d e.
Proof.
  destruct Hsame as (_ & _ & _ & H). intros Hav. unfold has_classes. f_equal.
  induction cs' as [|c cs' IH]; [done|]. cbn [forallb].
  rewrite H by (apply Hav; set_solver). f_equal. apply IH.
  intros c' Hc'. apply Hav. set_solver.
Qed.

Lemma same_matches sel e : avoids cs sel → matches sel d' e = matches sel d e.
Proof.
  unfold avoids. rewrite Forall_forall. destruct sel as [cs'|name value|outer inner];
    cbn [matches selector_classes]; intros Hav.
  - by apply same_has_classes.
  - by rewrite same_getAttribute.
  - rewrite same_ancestors_or_self.
    rewrite same_has_classes by (intros; apply Hav; set_solver). f_equal.
    induction (tail (ancestors_or_self d e)) as [|a l IH]; [done|]. cbn [existsb].
    rewrite IH. f_equal. apply same_has_classes. intros; apply Hav; set_solver.
Qed.

Lemma same_querySelectorAll root sel :
  avoids cs sel → querySelectorAll root sel d' = querySelectorAll root sel d.
Proof.
  intros Hav. unfold querySelectorAll. rewrite same_descendants.
  apply list_filter_iff. intros e. by rewrite same_matches.
Qed.

Lemma same_querySelector root sel :
  avoids cs sel → querySelector root sel d' = querySelector root sel d.
Proof. intros Hav. unfold querySelector. by rewrite same_querySelectorAll. Qed.

Lemma same_closest e sel :
  avoids cs sel → closest e sel d' = closest e sel d.
Proof.
  intros Hav. unfold closest. rewrite same_ancestors_or_self. f_equal.
  apply list_filter_iff. intros a. by rewrite same_matches.
Qed.
End SameExcept.

(** ** Services tabs: what the handlers leave alone *)

Section TabsFrame.
Import Tabs.
Implicit Types (st : state) (r : refs).

#[global] Instance keeps_preorder {X} (f : state → X) : PreOrder (keeps f).
Proof. split; unfold keeps; [by intros st | intros a b c; congruence]. Qed.

Lemma filter_enqueue {T} (P : timer T → Prop) `{!∀ x, Decision (P x)}
    (t : timer T) (q : list (timer T)) :
  ¬ P t → filter P (enqueue t q) = filter P q.
Proof.
  intros Ht. induction q as [|u q IH]; cbn [enqueue].
  - by rewrite filter_cons, decide_False.
  - destruct (due u <=? due t).
    + rewrite !(filter_cons _ u). destruct (decide (P u)); by rewrite IH.
    + by rewrite filter_cons, decide_False.
Qed.

Lemma page_only_control st st' :
  keeps beside_page st st' → keeps control st st'.
Proof.
  unfold keeps, beside_page, control, check_timers. intros H.
  injection H as Hw Hd Hr Hc. by rewrite Hw, Hd, Hr, Hc.
Qed.

Lemma clone_of_stable {X} (f : state → X) e :
  (∀ g st, f (on_page g st) = f st) → stable (keeps f) (clone_of e).
Proof.
  intros Hf st. unfold exec, clone_of, keeps.
  destruct (cloneNode e (page st)) as [c d]. apply Hf.
Qed.

Lemma triggerAnimations_control content :
  stable (keeps control) (triggerAnimations content).
Proof.
  intros st. unfold exec, triggerAnimations, modify, keeps, control, check_timers.
  cbn. by rewrite filter_enqueue.
Qed.

Lemma query_text_stable (R : relation state) `{!Reflexive R} r text :
  stable R (query_text r text).
Proof. intros st. reflexivity. Qed.

(** The steps that only write to the page. *)
Ltac page_write :=
  lazymatch goal with
  | |- keeps _ _ (on_page _ _) => reflexivity
  | |- stable _ (query_text _ _) => apply query_text_stable; apply _
  | |- stable _ (clone_of _) => apply clone_of_stable; reflexivity
  | |- stable _ (triggerAnimations _) => apply triggerAnimations_control
  end.

Lemma handleMobileTab_control r tab content :
  stable (keeps control) (handleMobileTab r tab content).
Proof.
  unfold handleMobileTab, close_other. repeat (stable_step || page_write).
Qed.

Lemma handleDesktopTab_control r tab targetTab :
  stable (keeps control) (handleDesktopTab r tab targetTab).
Proof.
  unfold handleDesktopTab. repeat (stable_step || page_write).
Qed.

Lemma click_as_control mode r tab :
  stable (keeps control) (click_as mode r tab).
Proof.
  unfold click_as. repeat stable_step.
  - apply handleDesktopTab_control.
  - apply handleMobileTab_control.
Qed.

Lemma on_click_as r tab st :
  on_click r tab st = click_as (isDesktop st) r tab st.
Proof. reflexivity. Qed.

Lemma on_click_control r tab st :
  keeps control st (exec (on_click r tab) st).
Proof. unfold exec. rewrite on_click_as. apply click_as_control. Qed.
End TabsFrame.

(** ** Services tabs: the debounced resize *)

Section TabsDebounce.
Import Tabs.
Implicit Types (st : state) (r : refs).

Lemma quiet_until_control t st st' :
  keeps control st st' → quiet_until t st → quiet_until t st'.
Proof.
  unfold keeps, control, quiet_until. intros H Hq tm Htm.
  injection H as _ _ Hr _ Hc. rewrite Hr. apply Hq. by rewrite <- Hc.
Qed.

Lemma debounced_quiet st : debounced st = true → quiet_until 0 st.
Proof.
  unfold debounced, quiet_until, check_timers. intros H tm Htm.
  apply list_elem_of_filter in Htm as [Hc Hin].
  rewrite forallb_forall in H. apply list_elem_of_In in Hin.
  specialize (H tm Hin). rewrite Hc in H. cbn in H.
  apply bool_decide_eq_true in H. split; [lia | done].
Qed.

(** The resize listener, spelled out. *)
Lemma on_resize_effect w st :
  exec (on_resize w) st
  = mkState (page st) w (isDesktop st) (Some (next_timer (clock st)))
      (mkTimers (now (clock st))
         (enqueue (mkTimer (next_timer (clock st)) (now (clock st) + 250) CheckLayout)
            (pending (clearTimeout (resizeTimer st) (clock st))))
         (S (next_timer (clock st)))).
Proof.
  unfold exec, on_resize, mbind, JS_bind, bind, modify. cbn.
  by destruct (resizeTimer st).
Qed.

Lemma on_resize_quiet w st :
  quiet_until 0 st → since_resize 0 (exec (on_resize w) st).
Proof.
  intros Hq. exists (now (clock st) + 250). rewrite on_resize_effect.
  split; [cbn; lia|].
  intros tm Htm. unfold check_timers in Htm. cbn in Htm.
  apply list_elem_of_filter in Htm as [Hc Hin].
  apply enqueue_elem_of in Hin as [->|Hin]; [done|].
  exfalso. destruct (resizeTimer st) as [i|] eqn:Hr; cbn in Hin.
  - apply list_elem_of_filter in Hin as [Hne Hin].
    destruct (Hq tm) as [_ Hid].
    { unfold check_timers. by apply list_elem_of_filter. }
    rewrite Hr in Hid. congruence.
  - destruct (Hq tm) as [_ Hid].
    { unfold check_timers. by apply list_elem_of_filter. }
    rewrite Hr in Hid. discriminate.
Qed.

(** Callbacks other than the layout check write to the page only. *)
Lemma run_page_only r f :
  match f with CheckLayout => False | _ => True end →
  stable (keeps beside_page) (run r f).
Proof.
  destruct f as [content| |]; [intros _ | done | intros _]; unfold run;
    repeat (stable_step
            || lazymatch goal with
               | |- keeps _ _ (on_page _ _) => reflexivity
               end).
Qed.

Lemma foldl_run_page_only r (ready : list (timer task)) st :
  Forall (λ tm, is_check tm = false) ready →
  keeps beside_page st (foldl (λ st tm, exec (run r (callback tm)) st) st ready).
Proof.
  intros H. revert st. induction H as [|tm ready Htm _ IH]; intros st; cbn [foldl].
  - reflexivity.
  - etrans; [|apply IH]. apply run_page_only.
    unfold is_check in Htm. by destruct (callback tm).
Qed.

(** Time passes and no layout check comes due. *)
Lemma advance_quiet r ms t st :
  quiet_until t st → now (clock st) + ms < t →
  let st' := advance r ms st in
  isDesktop st' = isDesktop st
  ∧ innerWidth st' = innerWidth st
  ∧ now (clock st') = now (clock st) + ms
  ∧ quiet_until t st'.
Proof.
  intros Hq Hlt. unfold advance, fire. cbn zeta.
  set (ready := filter (λ tm : timer task, due tm ≤ now (clock st) + ms)
                       (pending (clock st))).
  set (st1 := set_clock _ st).
  assert (Hready : Forall (λ tm, is_check tm = false) ready).
  { apply Forall_forall. intros tm Htm.
    apply list_elem_of_filter in Htm as [Hdue Hin].
    destruct (is_check tm) eqn:Hc; [|done]. exfalso.
    destruct (Hq tm) as [Ht _]; [|lia].
    unfold check_timers. by apply list_elem_of_filter. }
  pose proof (foldl_run_page_only r ready st1 Hready) as Hk.
  unfold keeps, beside_page in Hk. injection Hk as Hw Hd Hr Hc.
  rewrite Hd, Hw. split; [done|]. split; [done|]. split; [by rewrite Hc|].
  intros tm Htm. unfold check_timers in Htm. rewrite Hc in Htm. rewrite Hr.
  cbn in Htm. apply list_elem_of_filter in Htm as [Hcheck Hin].
  apply list_elem_of_filter in Hin as [_ Hin].
  apply Hq. unfold check_timers. by apply list_elem_of_filter.
Qed.

(** Through a burst of events the stored flag stays as it was. *)
Lemma burst_keeps_flag r evs elapsed st :
  since_resize elapsed st →
  debounce_open elapsed evs = true →
  isDesktop (handle_all r evs st) = isDesktop st.
Proof.
  unfold handle_all. revert elapsed st.
  induction evs as [|ev evs IH]; intros elapsed st Hs Hopen; [done|].
  cbn [foldl]. destruct ev as [tab|w|ms]; cbn [debounce_open handle] in *.
  - pose proof (on_click_control r tab st) as Hk.
    rewrite (IH elapsed); [|
      destruct Hs as (t & Ht & Hq); exists t; split;
        [ injection Hk as _ _ _ Hn _; by rewrite Hn
        | by eapply quiet_until_control ] | done].
    by injection Hk.
  - rewrite (IH 0); [by rewrite on_resize_effect | | done].
    apply on_resize_quiet. destruct Hs as (t & _ & Hq).
    intros tm Htm. destruct (Hq tm Htm). split; [lia | done].
  - apply andb_true_iff in Hopen as [Hlt Hopen]. apply Nat.ltb_lt in Hlt.
    destruct Hs as (t & Ht & Hq).
    destruct (advance_quiet r ms t st Hq) as (Hd & _ & Hn & Hq'); [lia|].
    rewrite (IH (elapsed + ms)); [done | | done].
    exists t. split; [lia | done].
Qed.
End TabsDebounce.

Section TabsSettle.
Import Tabs.
Implicit Types (st : state) (r : refs).

#[global] Instance settles_preorder : PreOrder settles.
Proof.
  split.
  - intros st. by split.
  - intros a b c [Hw Hs] [Hw' Hs']. split; [congruence | tauto].
Qed.

Lemma settles_on_page g st : settles st (on_page g st).
Proof. by split. Qed.

Lemma settles_set_isDesktop st :
  settles st (set_isDesktop (768 <=? innerWidth st)%Z st)
  ∧ settled (set_isDesktop (768 <=? innerWidth st)%Z st).
Proof. by repeat split. Qed.

Lemma clone_of_settles e : stable settles (clone_of e).
Proof.
  intros st. unfold exec, clone_of.
  destruct (cloneNode e (page st)) as [c d]. apply settles_on_page.
Qed.

Ltac settle_write :=
  lazymatch goal with
  | |- settles _ (on_page _ _) => apply settles_on_page
  | |- settles ?st (set_isDesktop _ ?st) => apply settles_set_isDesktop
  | |- stable _ (clone_of _) => apply clone_of_settles
  end.

Lemma handleLayout_settles r : stable settles (handleLayout r).
Proof. unfold handleLayout. repeat (stable_step || settle_write). Qed.

Lemma page_only_settles st st' : keeps beside_page st st' → settles st st'.
Proof.
  unfold keeps, beside_page, settles, settled. intros H.
  injection H as Hw Hd _ _. by rewrite Hw, Hd.
Qed.

Lemma run_settles r f : stable settles (run r f).
Proof.
  destruct f as [content| |].
  - intros st. apply page_only_settles. by apply run_page_only.
  - unfold run. repeat (stable_step || settle_write). apply handleLayout_settles.
  - intros st. apply page_only_settles. by apply run_page_only.
Qed.

(** After the layout check the flag is the one the width calls for. *)
Lemma run_check_settled r st : settled (exec (run r CheckLayout) st).
Proof.
  change (exec (run r CheckLayout) st)
    with (exec (st' ← get;
                if negb (eqb (isDesktop st) (isDesktop st'))
                then handleLayout r else mret tt)
               (set_isDesktop (768 <=? innerWidth st)%Z st)).
  set (st1 := set_isDesktop _ st).
  assert (Hrest : settles st1
            (exec (st' ← get;
                   if negb (eqb (isDesktop st) (isDesktop st'))
                   then handleLayout r else mret tt) st1)).
  { generalize st1. change (stable settles
      (st' ← get; if negb (eqb (isDesktop st) (isDesktop st'))
                  then handleLayout r else mret tt)).
    repeat stable_step. apply handleLayout_settles. }
  apply Hrest. apply settles_set_isDesktop.
Qed.

Lemma foldl_run_settled r (ready : list (timer task)) st :
  settled st ∨ Exists (λ tm, is_check tm = true) ready →
  let st' := foldl (λ st tm, exec (run r (callback tm)) st) st ready in
  innerWidth st' = innerWidth st ∧ settled st'.
Proof.
  revert st. induction ready as [|tm ready IH]; intros st H; cbn [foldl].
  - destruct H as [H|H]; [done | by apply Exists_nil in H].
  - pose proof (run_settles r (callback tm) st) as [Hw Hs].
    destruct (IH (exec (run r (callback tm)) st)) as [Hw' Hs'].
    + destruct H as [H|H]; [left; by apply Hs|].
      apply Exists_cons in H as [H|H]; [|by right].
      left. unfold is_check in H. destruct (callback tm); try done.
      apply run_check_settled.
    + split; [congruence | done].
Qed.

(** 250 milliseconds after a resize the flag follows the new width. *)
Lemma resize_then_wait r w st :
  isDesktop (handle_all r [Resize w; Wait 250] st) = (768 <=? w)%Z.
Proof.
  unfold handle_all. cbn [foldl handle]. rewrite on_resize_effect.
  unfold advance, fire. cbn [clock now pending next_timer].
  match goal with
  | |- isDesktop (foldl _ ?s ?l) = _ =>
      destruct (foldl_run_settled r l s) as [Hw Hs]
  end.
  - right. apply Exists_exists.
    exists (mkTimer (next_timer (clock st)) (now (clock st) + 250) CheckLayout).
    split; [|done]. apply list_elem_of_filter. split; [cbn; lia|].
    apply enqueue_elem_of. by left.
  - unfold settled in Hs. rewrite Hs, Hw. done.
Qed.
End TabsSettle.

(** C10. A click is dispatched on the stored flag [isDesktop]: the
    listener does what [click_as] does with that flag.  A resize to any
    width leaves the flag as it was, and so does everything that
    follows, clicks, further resizes and time passing, as long as fewer
    than 250 milliseconds pass after the latest resize; so a click then
    runs under the mode stored before the resize, whatever the width is
    by now.  250 milliseconds after a resize the flag is the one the new
    width calls for. *)
Theorem click_dispatch_follows_stored_flag
    (r : Tabs.refs) (st : Tabs.state) (w : Z) (evs : list Tabs.event) (tab : nat) :
  Tabs.debounced st = true →
  Tabs.debounce_open 0 evs = true →
  let st' := Tabs.handle_all r (Tabs.Resize w :: evs) st in
  Tabs.isDesktop st' = Tabs.isDesktop st
  ∧ Tabs.on_click r tab st' = Tabs.click_as (Tabs.isDesktop st) r tab st'
  ∧ Tabs.isDesktop (Tabs.handle_all r [Tabs.Resize w; Tabs.Wait 250] st)
    = (768 <=? w)%Z.
Proof.
  intros Hdeb Hopen st'.
  assert (Hflag : Tabs.isDesktop st' = Tabs.isDesktop st).
  { subst st'. unfold Tabs.handle_all. cbn [foldl Tabs.handle].
    fold (Tabs.handle_all r evs (exec (Tabs.on_resize w) st)).
    rewrite (burst_keeps_flag r evs 0); [by rewrite on_resize_effect | | done].
    apply on_resize_quiet. by apply debounced_quiet. }
  split; [exact Hflag|]. split; [|apply resize_then_wait].
  by rewrite on_click_as, Hflag.
Qed.

Lemma click_dispatch_follows_stored_flag_witness :
  let r := Tabs.services_refs in
  let st := Tabs.boot r Tabs.services_page 400 in
  let st' := Tabs.handle_all r
               [Tabs.Resize 1024; Tabs.Wait 100; Tabs.Click 6;
                Tabs.Resize 1100; Tabs.Wait 249] st in
  Tabs.isDesktop st' = Tabs.isDesktop st
  ∧ Tabs.on_click r 3 st' = Tabs.click_as (Tabs.isDesktop st) r 3 st'
  ∧ Tabs.isDesktop (Tabs.handle_all r [Tabs.Resize 1024; Tabs.Wait 250] st)
    = (768 <=? 1024)%Z.
Proof.
  apply (click_dispatch_follows_stored_flag Tabs.services_refs
           (Tabs.boot Tabs.services_refs Tabs.services_page 400) 1024
           [Tabs.Wait 100; Tabs.Click 6; Tabs.Resize 1100; Tabs.Wait 249] 3);
    reflexivity.
Defined.

(** In that state the window is wide and the flag still says narrow, and
    the two modes would treat the click on tab 3 differently. *)
Example stored_flag_lags_behind_width :
  let r := Tabs.services_refs in
  let st' := Tabs.handle_all r
               [Tabs.Resize 1024; Tabs.Wait 100; Tabs.Click 6;
                Tabs.Resize 1100; Tabs.Wait 249]
               (Tabs.boot r Tabs.services_page 400) in
  Tabs.innerWidth st' = 1100%Z
  ∧ Tabs.isDesktop st' = false
  ∧ children 10 (Tabs.page (exec (Tabs.click_as false r 3) st')) = []
  ∧ children 10 (Tabs.page (exec (Tabs.click_as true r 3) st')) = [11].
Proof. vm_compute. done. Qed.

(** ** Services tabs: the debounce invariant holds from the start *)

Section TabsReachable.
Import Tabs.
Implicit Types (st : state) (r : refs).

Lemma quiet_until_debounced st : quiet_until 0 st → debounced st = true.
Proof.
  unfold debounced, quiet_until, check_timers. intros H.
  apply forallb_forall. intros tm Hin. apply list_elem_of_In in Hin.
  destruct (is_check tm) eqn:Hc; [|done]. cbn.
  apply bool_decide_eq_true. apply H. by apply list_elem_of_filter.
Qed.

Lemma quiet_until_view t st st' :
  resizeTimer st' = resizeTimer st →
  check_timers st' ⊆ check_timers st →
  quiet_until t st → quiet_until t st'.
Proof.
  unfold quiet_until. intros Hr Hsub Hq tm Htm. rewrite Hr. by apply Hq, Hsub.
Qed.

Lemma page_only_view st st' :
  keeps beside_page st st' → keeps debounce_view st st'.
Proof.
  unfold keeps, beside_page, debounce_view, check_timers. intros H.
  injection H as _ _ Hr Hc. by rewrite Hr, Hc.
Qed.

Lemma clone_of_view e : stable (keeps debounce_view) (clone_of e).
Proof. apply clone_of_stable. reflexivity. Qed.

Ltac view_write :=
  lazymatch goal with
  | |- keeps _ _ (on_page _ _) => reflexivity
  | |- keeps _ _ (set_isDesktop _ _) => reflexivity
  | |- stable _ (clone_of _) => apply clone_of_view
  end.

Lemma handleLayout_view r : stable (keeps debounce_view) (handleLayout r).
Proof. unfold handleLayout. repeat (stable_step || view_write). Qed.

Lemma run_view r f : stable (keeps debounce_view) (run r f).
Proof.
  destruct f as [content| |].
  - intros st. apply page_only_view. by apply run_page_only.
  - unfold run. repeat (stable_step || view_write). apply handleLayout_view.
  - intros st. apply page_only_view. by apply run_page_only.
Qed.

Lemma advance_debounced r ms st :
  quiet_until 0 st → quiet_until 0 (advance r ms st).
Proof.
  intros Hq. unfold advance, fire. cbn zeta.
  set (ready := filter (λ tm : timer task, due tm ≤ now (clock st) + ms)
                       (pending (clock st))).
  set (st1 := set_clock _ st).
  assert (Hk : keeps debounce_view st1
                 (foldl (λ st tm, exec (run r (callback tm)) st) st1 ready)).
  { apply (stable_foldl (keeps debounce_view) (λ tm, run r (callback tm))).
    intros tm. apply run_view. }
  unfold keeps, debounce_view in Hk. injection Hk as Hr Hc.
  eapply quiet_until_view; [| |exact Hq].
  - by rewrite Hr.
  - rewrite Hc. unfold check_timers, st1. cbn. intros tm Htm.
    apply list_elem_of_filter in Htm as [Hcheck Hin].
    apply list_elem_of_filter in Hin as [_ Hin].
    by apply list_elem_of_filter.
Qed.

Lemma handle_debounced r ev st :
  quiet_until 0 st → quiet_until 0 (handle r ev st).
Proof.
  intros Hq. destruct ev as [tab|w|ms]; cbn [handle].
  - eapply quiet_until_control; [apply on_click_control | done].
  - destruct (on_resize_quiet w st Hq) as (t & _ & Hq').
    intros tm Htm. destruct (Hq' tm Htm). split; [lia | done].
  - by apply advance_debounced.
Qed.

Lemma boot_debounced r d w : quiet_until 0 (boot r d w).
Proof.
  unfold boot.
  set (st0 := mkState d w false None (mkTimers 0 [] 1)).
  assert (Hk : keeps debounce_view st0 (exec (start r) st0)).
  { generalize st0. change (stable (keeps debounce_view) (start r)).
    unfold start. repeat (stable_step || view_write).
    - apply handleLayout_view.
    - unfold keeps, debounce_view, check_timers. cbn.
      by rewrite filter_enqueue. }
  unfold keeps, debounce_view in Hk. injection Hk as Hr Hc.
  intros tm Htm. rewrite Hc in Htm. by apply not_elem_of_nil in Htm.
Qed.

(** Every state the module reaches satisfies the hypothesis of C10. *)
Lemma debounced_reachable r d w evs :
  debounced (handle_all r evs (boot r d w)) = true.
Proof.
  apply quiet_until_debounced. unfold handle_all.
  generalize (boot_debounced r d w). generalize (boot r d w).
  induction evs as [|ev evs IH]; intros st Hq; [done|].
  cbn [foldl]. apply IH. by apply handle_debounced.
Qed.
End TabsReachable.

(** ** Services tabs: the accordion *)

Section TabsNarrow.
Import Tabs.
Implicit Types (st : state) (r : refs) (d : dom).

Lemma bind_normal {S A B} (m : JS S A) (k : A → JS S B) s a s' :
  m s = (Normal a, s') → (m ≫= k) s = k a s'.
Proof. intros H. unfold mbind, JS_bind, bind. by rewrite H. Qed.

Lemma avoids_active_container cs :
  cs ⊆ ["active"; "in-view"] → avoids cs tab_container.
Proof.
  intros Hsub. unfold avoids. cbn. repeat constructor.
  intros Hin. apply Hsub in Hin. set_solver.
Qed.

Lemma avoids_active_content cs :
  cs ⊆ ["active"; "in-view"] → avoids cs tab_content.
Proof.
  intros Hsub. unfold avoids. cbn. repeat constructor.
  intros Hin. apply Hsub in Hin. set_solver.
Qed.

Lemma avoids_active_animate cs :
  cs ⊆ ["active"; "in-view"] → avoids cs animate_repeat.
Proof.
  intros Hsub. unfold avoids. cbn. repeat constructor.
  intros Hin. apply Hsub in Hin. set_solver.
Qed.

Lemma same_panel_of cs d d' tab :
  cs ⊆ ["active"; "in-view"] → same_except cs d d' →
  panel_of tab d' = panel_of tab d.
Proof.
  intros Hsub Hsame. unfold panel_of.
  rewrite (same_closest cs d d' Hsame) by by apply avoids_active_container.
  destruct (closest tab tab_container d) as [c|]; [|done]. cbn.
  apply (same_querySelector cs d d' Hsame). by apply avoids_active_content.
Qed.

Lemma same_panels cs d d' r :
  cs ⊆ ["active"; "in-view"] → same_except cs d d' → panels r d' = panels r d.
Proof.
  intros Hsub Hsame. unfold panels. apply list_fmap_ext.
  intros _ t _. by eapply same_panel_of.
Qed.

Lemma same_paired cs d d' r :
  cs ⊆ ["active"; "in-view"] → same_except cs d d' → paired r d → paired r d'.
Proof.
  intros Hsub Hsame (Hnd & Hsome & Hinj & Hdisj). unfold paired.
  rewrite (same_panels cs d d' r Hsub Hsame).
  repeat split; try done.
  eapply Forall_impl; [exact Hsome|]. intros t Ht. cbn in *.
  by rewrite (same_panel_of cs d d' t Hsub Hsame).
Qed.

Lemma same_pair_active cs d d' t :
  cs ⊆ ["in-view"] → same_except cs d d' → pair_active d' t = pair_active d t.
Proof.
  intros Hsub Hsame. unfold pair_active.
  rewrite (same_panel_of cs d d' t) by (done || set_solver).
  destruct Hsame as (_ & _ & _ & H).
  assert (Hact : ∀ e, classList_contains e "active" d' = classList_contains e "active" d).
  { intros e. apply H. intros Hin. apply Hsub in Hin. set_solver. }
  rewrite Hact. by destruct (panel_of t d); rewrite ?Hact.
Qed.

Lemma same_active_pairs cs d d' r :
  cs ⊆ ["in-view"] → same_except cs d d' → active_pairs r d' = active_pairs r d.
Proof.
  intros Hsub Hsame. unfold active_pairs. apply list_filter_iff.
  intros t. by rewrite (same_pair_active cs d d' t Hsub Hsame).
Qed.

(** *** The loop over the other tabs *)

Lemma elem_of_others tabs tab d e :
  e ∈ others tabs tab d
  ↔ ∃ u, u ∈ tabs ∧ u ≠ tab ∧ (e = u ∨ panel_of u d = Some e).
Proof.
  unfold others. rewrite list_elem_of_In, in_flat_map. split.
  - intros (u & Hu & He). apply list_elem_of_In in Hu. exists u.
    destruct (decide (u ≠ tab)) as [Hne|]; [|by apply in_nil in He].
    apply list_elem_of_In, elem_of_cons in He as [->|He]; [by auto|].
    repeat split; try done. right.
    destruct (panel_of u d) as [p|]; cbn in He; set_solver.
  - intros (u & Hu & Hne & He). exists u. split; [by apply list_elem_of_In|].
    rewrite decide_True by done. apply list_elem_of_In, elem_of_cons.
    destruct He as [->|He]; [by left|]. right. rewrite He. cbn. set_solver.
Qed.

Lemma others_cons tabs tab d u e :
  bool_decide (e ∈ others (u :: tabs) tab d)
  = (if decide (u ≠ tab)
     then bool_decide (e = u) || bool_decide (panel_of u d = Some e)
     else false)
    || bool_decide (e ∈ others tabs tab d).
Proof.
  apply eq_true_iff_eq. rewrite orb_true_iff, !bool_decide_eq_true.
  rewrite !elem_of_others. split.
  - intros (v & Hv & Hne & He). apply elem_of_cons in Hv as [->|Hv].
    + left. rewrite decide_True by done.
      rewrite orb_true_iff, !bool_decide_eq_true. done.
    + right. by exists v.
  - intros [H|(v & Hv & Hne & He)].
    + destruct (decide (u ≠ tab)); [|done].
      rewrite orb_true_iff, !bool_decide_eq_true in H.
      exists u. split; [set_solver | done].
    + exists v. split; [set_solver | done].
Qed.

Lemma close_other_self tab st : close_other tab tab st = (Normal tt, st).
Proof. unfold close_other. by rewrite decide_False by (intros H; by apply H). Qed.

Lemma close_other_effect tab u p st :
  u ≠ tab → panel_of u (page st) = Some p →
  close_other tab u st
  = (Normal tt,
     on_page (λ d, classList_remove p "active" (classList_remove u "active" d)) st).
Proof.
  intros Hne Hp. unfold close_other. rewrite decide_True by done.
  unfold panel_of in Hp.
  destruct (closest u tab_container (page st)) as [c|] eqn:Hc; [|done].
  cbn in Hp. unfold mbind, JS_bind, bind, get, nonnull, modify, ret.
  rewrite Hc. cbn. rewrite Hp. reflexivity.
Qed.

Lemma close_others_effect tab d0 ts st :
  Forall (λ u, is_Some (panel_of u d0)) ts →
  same_except ["active"] d0 (page st) →
  ∃ st', forEach ts (close_other tab) st = (Normal tt, st')
    ∧ writes ["active"] st st'
    ∧ ∀ e, act e st' = negb (bool_decide (e ∈ others ts tab d0)) && act e st.
Proof.
  intros Hts. revert st. induction Hts as [|u ts [p Hp] _ IH]; intros st Hsame.
  - exists st. split; [done|]. split; [by split|]. intros e.
    rewrite bool_decide_eq_false_2; [done|]. unfold others. cbn. set_solver.
  - cbn [forEach]. destruct (decide (u = tab)) as [->|Hne].
    + destruct (IH st Hsame) as (st' & Hrun & Hw & Hact).
      exists st'. split; [|split; [done|]].
      * erewrite bind_normal; [exact Hrun | apply close_other_self].
      * intros e. rewrite others_cons, decide_False by (intros H; by apply H).
        apply Hact.
    + assert (Hp' : panel_of u (page st) = Some p).
      { by rewrite (same_panel_of ["active"] d0 (page st) u) by (set_solver || done). }
      set (st1 := on_page (λ d, classList_remove p "active"
                                   (classList_remove u "active" d)) st).
      assert (Hstep : same_except ["active"] (page st) (page st1)).
      { unfold st1. cbn. etrans; apply same_except_remove; set_solver. }
      destruct (IH st1) as (st' & Hrun & [Hb Hw] & Hact).
      { by etrans. }
      exists st'. split; [|split; [split|]].
      * erewrite bind_normal; [exact Hrun | by apply close_other_effect].
      * by rewrite Hb.
      * by etrans.
      * intros e. rewrite Hact, others_cons, decide_True by done.
        unfold act, st1. cbn.
        rewrite !classList_contains_remove, Hp.
        destruct (classList_contains e "active" (page st));
          rewrite ?andb_false_r, ?andb_true_r; [|done].
        repeat case_bool_decide; naive_solver.
Qed.
End TabsNarrow.

Section TabsClick.
Import Tabs.
Implicit Types (st : state) (r : refs) (d : dom).

(** [handleMobileTab] on a page where every tab has a panel. *)
Lemma handleMobileTab_effect r tab p st :
  Forall (λ u, is_Some (panel_of u (page st))) (serviceTabs r) →
  ∃ st', handleMobileTab r tab (Some p) st = (Normal tt, st')
    ∧ keeps control st st'
    ∧ same_except ["active"] (page st) (page st')
    ∧ ∀ e, act e st'
           = if act tab st
             then negb (bool_decide (e = tab ∨ e = p))
                  && (negb (bool_decide (e ∈ others (serviceTabs r) tab (page st)))
                      && act e st)
             else bool_decide (e = tab ∨ e = p)
                  || (negb (bool_decide (e ∈ others (serviceTabs r) tab (page st)))
                      && act e st).
Proof.
  intros Hall.
  destruct (close_others_effect tab (page st) (serviceTabs r) st Hall)
    as (st1 & Hrun & [Hb Hw] & Hact); [reflexivity|].
  assert (Hrest : ∃ st',
    handleMobileTab r tab (Some p) st = (Normal tt, st')
    ∧ page st' = (if act tab st
                  then classList_remove p "active"
                         (classList_remove tab "active" (page st1))
                  else classList_add p "active"
                         (classList_add tab "active" (page st1)))).
  { unfold handleMobileTab.
    change ((get ≫= ?k) st) with (k st st). cbn beta zeta.
    erewrite bind_normal; [|exact Hrun].
    unfold act. destruct (classList_contains tab "active" (page st));
      cbn [negb]; eexists; (split; [reflexivity|reflexivity]). }
  destruct Hrest as (st' & Hrun' & Hpage).
  exists st'. split; [exact Hrun'|]. split; [|split].
  - pose proof (handleMobileTab_control r tab (Some p) st) as Hk.
    unfold exec in Hk. by rewrite Hrun' in Hk.
  - rewrite Hpage. etrans; [exact Hw|].
    destruct (act tab st).
    + etrans; [apply (same_except_remove _ tab "active" (page st1))
              | apply same_except_remove]; set_solver.
    + etrans; [apply (same_except_add _ tab "active" (page st1))
              | apply same_except_add]; set_solver.
  - intros e. unfold act at 1. rewrite Hpage.
    destruct (act tab st).
    + rewrite !classList_contains_remove. fold (act e st1). rewrite Hact.
      destruct (act e st); rewrite ?andb_false_r, ?andb_true_r; [|done].
      repeat case_bool_decide; naive_solver.
    + rewrite !classList_contains_add. fold (act e st1). rewrite Hact.
      repeat case_bool_decide; destruct (act e st); naive_solver.
Qed.

Lemma on_click_narrow r tab p st :
  isDesktop st = false → panel_of tab (page st) = Some p →
  on_click r tab st = handleMobileTab r tab (Some p) st.
Proof.
  intros Hd Hp. unfold on_click, panel_of in *.
  change ((get ≫= ?k) st) with (k st st). cbn beta zeta.
  destruct (closest tab tab_container (page st)) as [c|]; [|done].
  cbn in Hp. change ((nonnull (Some c) ≫= ?k) st) with (k c st). cbn beta.
  by rewrite Hp, Hd.
Qed.

Lemma NoDup_fmap_inj {A B} (f : A → B) (l : list A) x y :
  NoDup (f <$> l) → x ∈ l → y ∈ l → f x = f y → x = y.
Proof.
  induction l as [|a l IH]; cbn [fmap list_fmap].
  - intros _ H. by apply not_elem_of_nil in H.
  - rewrite NoDup_cons, !elem_of_cons. intros [Hna Hnd] Hx Hy Hf.
    destruct Hx as [->|Hx], Hy as [->|Hy]; [done | | |by apply IH].
    + exfalso. apply Hna. rewrite Hf. apply list_elem_of_fmap. eauto.
    + exfalso. apply Hna. rewrite <- Hf. apply list_elem_of_fmap. eauto.
Qed.

Lemma filter_only {A} (P : A → Prop) `{!∀ x, Decision (P x)} (l : list A) x :
  NoDup l → x ∈ l → P x → (∀ y, y ∈ l → P y → y = x) → filter P l = [x].
Proof.
  induction l as [|a l IH]; intros Hnd Hx HP Huniq.
  - by apply not_elem_of_nil in Hx.
  - apply NoDup_cons in Hnd as [Hna Hnd]. rewrite filter_cons.
    assert (Hrest : ∀ y, y ∈ l → P y → y = x).
    { intros y Hy. apply Huniq. set_solver. }
    apply elem_of_cons in Hx as [->|Hx].
    + rewrite decide_True by done. f_equal.
      destruct (filter P l) as [|y l'] eqn:E; [done|].
      assert (Hy : y ∈ filter P l) by (rewrite E; set_solver).
      apply list_elem_of_filter in Hy as [HPy Hy].
      exfalso. apply Hna. by rewrite <- (Hrest y Hy HPy).
    + destruct (decide (P a)) as [HPa|]; [|by apply IH].
      exfalso. apply Hna. rewrite (Huniq a) by (done || set_solver). done.
Qed.

Lemma filter_none {A} (P : A → Prop) `{!∀ x, Decision (P x)} (l : list A) :
  (∀ y, y ∈ l → ¬ P y) → filter P l = [].
Proof.
  intros Hno. destruct (filter P l) as [|y l'] eqn:E; [done|].
  assert (Hy : y ∈ filter P l) by (rewrite E; set_solver).
  apply list_elem_of_filter in Hy as [HPy Hy]. by destruct (Hno y Hy).
Qed.

(** The pairs that hold [active] after a narrow click. *)
Lemma active_pairs_after_click r tab p st st' :
  paired r (page st) → tab ∈ serviceTabs r →
  panel_of tab (page st) = Some p →
  same_except ["active"] (page st) (page st') →
  (∀ e, act e st'
        = if act tab st
          then negb (bool_decide (e = tab ∨ e = p))
               && (negb (bool_decide (e ∈ others (serviceTabs r) tab (page st)))
                   && act e st)
          else bool_decide (e = tab ∨ e = p)
               || (negb (bool_decide (e ∈ others (serviceTabs r) tab (page st)))
                   && act e st)) →
  if act tab st
  then active_pairs r (page st') = []
  else active_pairs r (page st') = [tab] ∧ act tab st' = true ∧ act p st' = true.
Proof.
  intros (Hnd & Hsome & Hinj & Hdisj) Htab Hp Hsame Hact.
  assert (Hpanel : ∀ u, panel_of u (page st') = panel_of u (page st)).
  { intros u. apply (same_panel_of ["active"]); [set_solver | done]. }
  assert (Hpair : ∀ u q, panel_of u (page st) = Some q →
            pair_active (page st') u = act u st' || act q st').
  { intros u q Hq. unfold pair_active. by rewrite Hpanel, Hq. }
  assert (Hother : ∀ u q, u ∈ serviceTabs r → u ≠ tab →
            panel_of u (page st) = Some q →
            u ∈ others (serviceTabs r) tab (page st)
            ∧ q ∈ others (serviceTabs r) tab (page st)
            ∧ u ≠ p ∧ q ≠ tab ∧ q ≠ p).
  { intros u q Hu Hne Hq.
    split; [apply elem_of_others; exists u; auto|].
    split; [apply elem_of_others; exists u; auto|].
    rewrite Forall_forall in Hdisj. unfold panels in *.
    split; [|split].
    - intros ->. apply (Hdisj p Hu). rewrite <- Hp.
      apply list_elem_of_fmap. eauto.
    - intros ->. apply (Hdisj tab Htab). rewrite <- Hq.
      apply list_elem_of_fmap. eauto.
    - intros ->. apply Hne.
      apply (NoDup_fmap_inj (λ t, panel_of t (page st)) (serviceTabs r));
        try done. by rewrite Hp, Hq. }
  assert (Hquiet : ∀ u, u ∈ serviceTabs r → u ≠ tab →
            pair_active (page st') u = false).
  { intros u Hu Hne. rewrite Forall_forall in Hsome.
    destruct (Hsome u Hu) as [q Hq].
    destruct (Hother u q Hu Hne Hq) as (Hu1 & Hq1 & Hup & Hqt & Hqp).
    rewrite (Hpair u q Hq), !Hact.
    rewrite !(bool_decide_eq_true_2 (_ ∈ others _ _ _)) by done.
    rewrite !(bool_decide_eq_false_2 (_ ∨ _)) by naive_solver.
    by destruct (act tab st). }
  destruct (act tab st) eqn:Hopen.
  - apply filter_none. intros u Hu.
    destruct (decide (u = tab)) as [->|Hne].
    + rewrite (Hpair tab p Hp), !Hact.
      rewrite !(bool_decide_eq_true_2 (_ ∨ _)) by naive_solver. done.
    + by rewrite Hquiet.
  - assert (Ht : act tab st' = true).
    { rewrite Hact. by rewrite bool_decide_eq_true_2 by naive_solver. }
    assert (Hp' : act p st' = true).
    { rewrite Hact. by rewrite bool_decide_eq_true_2 by naive_solver. }
    split; [|done].
    apply filter_only; try done.
    + by rewrite (Hpair tab p Hp), Ht.
    + intros u Hu Hactive. destruct (decide (u = tab)) as [|Hne]; [done|].
      rewrite Hquiet in Hactive by done. done.
Qed.
End TabsClick.

Section TabsNarrowEvents.
Import Tabs.
Implicit Types (st : state) (r : refs) (d : dom).

#[global] Instance writes_preorder cs : PreOrder (writes cs).
Proof.
  split.
  - intros st. by split.
  - intros a b c [Hb Hw] [Hb' Hw']. split; [congruence | by etrans].
Qed.

#[global] Instance narrow_step_preorder cs : PreOrder (narrow_step cs).
Proof.
  split.
  - intros st Hn. by split.
  - intros a b c Hab Hbc Hn. destruct (Hab Hn) as [Hn' Hw].
    destruct (Hbc Hn') as [Hn'' Hw']. split; [done | by etrans].
Qed.

Lemma writes_narrow_step cs st st' : writes cs st st' → narrow_step cs st st'.
Proof.
  unfold writes, beside_page, narrow_step, narrow. intros [Hb Hw] [Hd Hlt].
  injection Hb as Hw' Hd' _ _. by rewrite Hw', Hd'.
Qed.

Lemma writes_remove cs e c st :
  c ∈ cs → writes cs st (on_page (classList_remove e c) st).
Proof. intros Hc. split; [done|]. by apply same_except_remove. Qed.

Lemma writes_add cs e c st :
  c ∈ cs → writes cs st (on_page (classList_add e c) st).
Proof. intros Hc. split; [done|]. by apply same_except_add. Qed.

(** The animation callbacks write [in-view] and nothing else. *)
Lemma run_writes_in_view r f :
  match f with CheckLayout => False | _ => True end →
  stable (writes ["in-view"]) (run r f).
Proof.
  destruct f as [content| |]; [intros _ | done | intros _]; unfold run;
    repeat (stable_step
            || lazymatch goal with
               | |- writes _ _ (on_page (classList_remove _ _) _) =>
                   apply writes_remove; set_solver
               | |- writes _ _ (on_page (classList_add _ _) _) =>
                   apply writes_add; set_solver
               end).
Qed.

(** In the narrow layout the layout check changes nothing. *)
Lemma run_check_narrow r st :
  narrow st →
  narrow (exec (run r CheckLayout) st)
  ∧ page (exec (run r CheckLayout) st) = page st.
Proof.
  intros [Hd Hlt]. unfold exec, run.
  change ((get ≫= ?k) st) with (k st st). cbn beta zeta.
  unfold mbind, JS_bind, bind, modify, get. cbn.
  assert (Hw : (768 <=? innerWidth st)%Z = false) by by apply Z.leb_gt.
  rewrite Hw, Hd. cbn. unfold narrow. cbn. done.
Qed.

Lemma run_narrow_step r f st :
  narrow_step ["in-view"] st (exec (run r f) st).
Proof.
  destruct f as [content| |].
  - apply writes_narrow_step. by apply run_writes_in_view.
  - intros Hn. destruct (run_check_narrow r st Hn) as [Hn' Hp].
    split; [done|]. by rewrite Hp.
  - apply writes_narrow_step. by apply run_writes_in_view.
Qed.

Lemma advance_narrow_step r ms st :
  narrow_step ["in-view"] st (advance r ms st).
Proof.
  unfold advance, fire. cbn zeta.
  set (ready := filter (λ tm : timer task, due tm ≤ now (clock st) + ms)
                       (pending (clock st))).
  set (st1 := set_clock _ st).
  assert (H1 : narrow_step ["in-view"] st st1) by (intros Hn; by split).
  etrans; [exact H1|]. clear H1. generalize st1.
  induction ready as [|tm ready IH]; intros s; cbn [foldl]; [reflexivity|].
  etrans; [apply run_narrow_step | apply IH].
Qed.

Lemma on_resize_narrow w st :
  narrow st → (w < 768)%Z →
  narrow (exec (on_resize w) st) ∧ page (exec (on_resize w) st) = page st.
Proof.
  intros [Hd Hlt] Hw. rewrite on_resize_effect. unfold narrow. cbn. done.
Qed.

Lemma paired_panel r d tab :
  paired r d → tab ∈ serviceTabs r → ∃ p, panel_of tab d = Some p.
Proof.
  intros (_ & Hsome & _) Htab. rewrite Forall_forall in Hsome.
  by apply Hsome.
Qed.

(** A click on a tab in the narrow layout. *)
Lemma click_narrow r tab st :
  paired r (page st) → narrow st → tab ∈ serviceTabs r →
  let st' := handle r (Click tab) st in
  narrow st'
  ∧ same_except ["active"] (page st) (page st')
  ∧ if act tab st
    then active_pairs r (page st') = []
    else active_pairs r (page st') = [tab]
         ∧ act tab st' = true
         ∧ ∃ p, panel_of tab (page st') = Some p ∧ act p st' = true.
Proof.
  intros Hpaired [Hd Hlt] Htab. cbn [handle].
  destruct (paired_panel r (page st) tab Hpaired Htab) as [p Hp].
  destruct (handleMobileTab_effect r tab p st) as (st' & Hrun & Hk & Hsame & Hact).
  { by destruct Hpaired as (_ & Hsome & _). }
  unfold exec. rewrite (on_click_narrow r tab p st Hd Hp), Hrun. cbn [snd].
  split; [|split; [done|]].
  - unfold keeps, control in Hk. injection Hk as Hd' Hw' _ _ _.
    unfold narrow. by rewrite Hd', Hw'.
  - pose proof (active_pairs_after_click r tab p st st' Hpaired Htab Hp Hsame Hact)
      as Hafter.
    destruct (act tab st); [done|]. destruct Hafter as (Hlist & Ht & Hp').
    repeat split; try done. exists p. split; [|done].
    rewrite <- Hp. apply (same_panel_of ["active"]); [set_solver | done].
Qed.

Lemma narrow_event_step r ev st :
  paired r (page st) → narrow st → narrow_event r ev = true →
  let st' := handle r ev st in
  narrow st'
  ∧ same_except ["active"; "in-view"] (page st) (page st')
  ∧ (is_click ev = true ∨ length (active_pairs r (page st)) ≤ 1 →
     length (active_pairs r (page st')) ≤ 1).
Proof.
  intros Hpaired Hn Hev. destruct ev as [tab|w|ms]; cbn [narrow_event is_click] in *.
  - apply bool_decide_eq_true in Hev.
    destruct (click_narrow r tab st Hpaired Hn Hev) as (Hn' & Hsame & Hafter).
    split; [done|]. split; [eapply same_except_mono; [|exact Hsame]; set_solver|].
    intros _. destruct (act tab st).
    + rewrite Hafter. cbn. lia.
    + destruct Hafter as [-> _]. cbn. lia.
  - apply Z.ltb_lt in Hev.
    destruct (on_resize_narrow w st Hn Hev) as [Hn' Hp]. cbn [handle].
    split; [done|]. rewrite Hp. split; [reflexivity|].
    intros [?|?]; done.
  - cbn [handle]. destruct (advance_narrow_step r ms st Hn) as [Hn' Hsame].
    split; [done|]. split; [eapply same_except_mono; [|exact Hsame]; set_solver|].
    intros [?|Hlen]; [done|].
    by rewrite (same_active_pairs ["in-view"] (page st) _ r).
Qed.

Lemma narrow_events r evs st :
  paired r (page st) → narrow st → forallb (narrow_event r) evs = true →
  let st' := handle_all r evs st in
  narrow st'
  ∧ paired r (page st')
  ∧ (existsb is_click evs = true ∨ length (active_pairs r (page st)) ≤ 1 →
     length (active_pairs r (page st')) ≤ 1).
Proof.
  unfold handle_all. revert st.
  induction evs as [|ev evs IH]; intros st Hpaired Hn Hevs; cbn [foldl].
  - split; [done|]. split; [done|]. intros [?|?]; done.
  - cbn [forallb existsb] in *. apply andb_true_iff in Hevs as [Hev Hevs].
    destruct (narrow_event_step r ev st Hpaired Hn Hev) as (Hn' & Hsame & Hone).
    assert (Hpaired' : paired r (page (handle r ev st))).
    { eapply same_paired; [|exact Hsame|done]. set_solver. }
    destruct (IH (handle r ev st) Hpaired' Hn' Hevs) as (Hn'' & Hp'' & Hone').
    split; [done|]. split; [done|]. intros H. apply Hone'.
    destruct H as [H|H].
    + apply orb_true_iff in H as [H|H]; [right; apply Hone; by left | by left].
    + right. apply Hone. by right.
Qed.

#[global] Instance paired_dec r d : Decision (paired r d).
Proof. unfold paired. apply _. Defined.
End TabsNarrowEvents.

(** C3. In the narrow layout, on a page where the tabs are distinct, each
    has a panel of its own and no tab is a panel: after any run of
    clicks on the tabs, resizes below the breakpoint and time passing,
    at most one tab/panel pair carries [active], provided the run holds
    a click or at most one pair carried it at the start.  A click on a
    tab that carries [active] then leaves no pair with it; a click on
    one that does not leaves that tab and its panel with it and no other
    pair. *)
Theorem accordion_at_most_one_open
    (r : Tabs.refs) (st : Tabs.state) (evs : list Tabs.event) :
  Tabs.paired r (Tabs.page st) →
  Tabs.narrow st →
  forallb (Tabs.narrow_event r) evs = true →
  let st' := Tabs.handle_all r evs st in
  (existsb Tabs.is_click evs = true
   ∨ length (Tabs.active_pairs r (Tabs.page st)) ≤ 1 →
   length (Tabs.active_pairs r (Tabs.page st')) ≤ 1)
  ∧ ∀ tab, tab ∈ Tabs.serviceTabs r →
      let st'' := Tabs.handle r (Tabs.Click tab) st' in
      if classList_contains tab "active" (Tabs.page st')
      then Tabs.active_pairs r (Tabs.page st'') = []
      else Tabs.active_pairs r (Tabs.page st'') = [tab]
           ∧ classList_contains tab "active" (Tabs.page st'') = true
           ∧ ∃ p, Tabs.panel_of tab (Tabs.page st'') = Some p
                  ∧ classList_contains p "active" (Tabs.page st'') = true.
Proof.
  intros Hpaired Hn Hevs st'.
  destruct (narrow_events r evs st Hpaired Hn Hevs) as (Hn' & Hpaired' & Hone).
  split; [exact Hone|]. intros tab Htab.
  by destruct (click_narrow r tab st' Hpaired' Hn' Htab) as (_ & _ & Hafter).
Qed.

Lemma accordion_at_most_one_open_witness :
  let r := Tabs.services_refs in
  let st := Tabs.boot r Tabs.services_page 400 in
  let st' := Tabs.handle_all r
               [Tabs.Click 6; Tabs.Wait 60; Tabs.Resize 500; Tabs.Click 6;
                Tabs.Wait 300; Tabs.Click 3] st in
  length (Tabs.active_pairs r (Tabs.page st')) ≤ 1.
Proof.
  assert (Hpaired : Tabs.paired Tabs.services_refs
            (Tabs.page (Tabs.boot Tabs.services_refs Tabs.services_page 400))).
  { apply (bool_decide_unpack _). vm_compute. exact I. }
  assert (Hnarrow : Tabs.narrow (Tabs.boot Tabs.services_refs Tabs.services_page 400)).
  { split; [reflexivity | done]. }
  destruct (accordion_at_most_one_open Tabs.services_refs
              (Tabs.boot Tabs.services_refs Tabs.services_page 400)
              [Tabs.Click 6; Tabs.Wait 60; Tabs.Resize 500; Tabs.Click 6;
               Tabs.Wait 300; Tabs.Click 3] Hpaired Hnarrow eq_refl) as [Hone _].
  apply Hone. left. reflexivity.
Defined.

(** * Further properties of the code *)

(** ** The listeners of the navigation menu *)

Section MenuEventsFacts.
Import Menu MenuEvents.
Context (icon overlay n b : nat).
Local Abbreviation r := (mkRefs (Some icon) (Some overlay) (Some n) (Some b)).

Lemma closeMenu_exec d :
  exec (closeMenu r) d
  = if classList_contains overlay "active" d then toggled icon overlay n b d else d.
Proof.
  unfold exec, closeMenu. cbn.
  unfold mbind, JS_bind, bind, get, ret. cbn.
  by destruct (classList_contains overlay "active" d).
Qed.

Lemma toggled_overlay d :
  icon ≠ overlay →
  classList_contains overlay "active" (toggled icon overlay n b d)
  = negb (classList_contains overlay "active" d).
Proof.
  intros Hne. unfold toggled. rewrite !classList_contains_toggle.
  repeat case_bool_decide; destruct (classList_contains overlay "active" d);
    naive_solver.
Qed.

Lemma toggled_in_sync d :
  icon ≠ overlay → in_sync icon overlay n b d →
  in_sync icon overlay n b (toggled icon overlay n b d).
Proof.
  intros Hne (Hi & Hn & Hb). unfold in_sync.
  rewrite toggled_overlay by done. unfold toggled.
  rewrite !classList_contains_toggle, Hi, Hn, Hb.
  repeat split; repeat case_bool_decide;
    destruct (classList_contains overlay "active" d); naive_solver.
Qed.

Lemma on_event_open ev d :
  icon ≠ overlay →
  classList_contains overlay "active" (exec (on_event r ev) d)
  = next_open overlay (classList_contains overlay "active" d) ev.
Proof.
  intros Hne.
  assert (Hclose : classList_contains overlay "active" (exec (closeMenu r) d) = false).
  { rewrite closeMenu_exec.
    destruct (classList_contains overlay "active" d) eqn:E; [|done].
    by rewrite toggled_overlay, E. }
  destruct ev as [| |key|target]; cbn [on_event next_open].
  - change (exec (toggleMenu r) d) with (toggled icon overlay n b d).
    by apply toggled_overlay.
  - done.
  - by destruct (decide (key = "Escape")).
  - cbn [navOverlay].
    destruct (decide (Some target = Some overlay)) as [Heq|Hneq].
    + injection Heq as ->. by rewrite decide_True.
    + rewrite decide_False by congruence. done.
Qed.

Lemma on_event_in_sync ev d :
  icon ≠ overlay → in_sync icon overlay n b d →
  in_sync icon overlay n b (exec (on_event r ev) d).
Proof.
  intros Hne Hs.
  assert (Hclose : in_sync icon overlay n b (exec (closeMenu r) d)).
  { rewrite closeMenu_exec.
    destruct (classList_contains overlay "active" d); [|done].
    by apply toggled_in_sync. }
  destruct ev as [| |key|target]; cbn [on_event].
  - change (exec (toggleMenu r) d) with (toggled icon overlay n b d).
    by apply toggled_in_sync.
  - done.
  - by destruct (decide (key = "Escape")).
  - by destruct (decide (Some target = navOverlay r)).
Qed.
End MenuEventsFacts.

(** X1. On a page with the four elements, the icon and the overlay
    being two, and the four markers in agreement: after any run of
    listener calls the markers still agree, and the overlay is open
    exactly as the boolean machine [next_open] says: a hamburger click
    flips it; a link click, the Escape key and a click whose target is
    the overlay itself close it; any other key and a click on anything
    inside the overlay leave it as it is. *)
Theorem menu_events_keep_markers_in_sync
    (icon overlay n b : nat) (evs : list MenuEvents.event) (d : dom) :
  icon ≠ overlay →
  MenuEvents.in_sync icon overlay n b d →
  let r := Menu.mkRefs (Some icon) (Some overlay) (Some n) (Some b) in
  let d' := MenuEvents.handle_all r evs d in
  MenuEvents.in_sync icon overlay n b d'
  ∧ classList_contains overlay "active" d'
    = foldl (MenuEvents.next_open overlay) (classList_contains overlay "active" d) evs.
Proof.
  intros Hne Hs r d'. subst d'. unfold MenuEvents.handle_all. revert d Hs.
  induction evs as [|ev evs IH]; intros d Hs; cbn [foldl]; [done|].
  destruct (IH (exec (MenuEvents.on_event r ev) d)) as [Hs' Ho].
  { by apply on_event_in_sync. }
  split; [exact Hs'|]. rewrite Ho. f_equal. by apply on_event_open.
Qed.

Lemma menu_events_keep_markers_in_sync_witness :
  let d' := MenuEvents.handle_all Menu.page_refs
              [MenuEvents.HamburgerClick; MenuEvents.KeyDown "Enter";
               MenuEvents.OverlayClick 7; MenuEvents.KeyDown "Escape";
               MenuEvents.HamburgerClick; MenuEvents.OverlayClick 2]
              Menu.closed_page in
  MenuEvents.in_sync 1 2 3 4 d'
  ∧ classList_contains 2 "active" d' = false.
Proof.
  apply (menu_events_keep_markers_in_sync 1 2 3 4
           [MenuEvents.HamburgerClick; MenuEvents.KeyDown "Enter";
            MenuEvents.OverlayClick 7; MenuEvents.KeyDown "Escape";
            MenuEvents.HamburgerClick; MenuEvents.OverlayClick 2]
           Menu.closed_page); [lia | by repeat split].
Defined.

(** X2. On a page with the four elements, the icon and the overlay being
    two: from any class configuration [closeMenu] leaves the overlay
    without [active], and a second [closeMenu] changes nothing. *)
Theorem menu_close_always_closes (icon overlay n b : nat) (d : dom) :
  icon ≠ overlay →
  let r := Menu.mkRefs (Some icon) (Some overlay) (Some n) (Some b) in
  classList_contains overlay "active" (exec (Menu.closeMenu r) d) = false
  ∧ exec (Menu.closeMenu r) (exec (Menu.closeMenu r) d) = exec (Menu.closeMenu r) d.
Proof.
  intros Hne r.
  assert (Hclosed : classList_contains overlay "active" (exec (Menu.closeMenu r) d)
                    = false).
  { unfold r. rewrite closeMenu_exec.
    destruct (classList_contains overlay "active" d) eqn:E; [|done].
    by rewrite toggled_overlay, E. }
  split; [exact Hclosed|].
  unfold r in *. by rewrite (closeMenu_exec _ _ _ _ (exec _ d)), Hclosed.
Qed.

Lemma menu_close_always_closes_witness :
  classList_contains 2 "active"
    (exec (Menu.closeMenu Menu.page_refs)
       (exec (Menu.toggleMenu Menu.page_refs) Menu.stale_page)) = false.
Proof.
  apply (menu_close_always_closes 1 2 3 4
           (exec (Menu.toggleMenu Menu.page_refs) Menu.stale_page)). lia.
Defined.

Section MenuMissingNav.
Import Menu MenuEvents.
Context (icon overlay : nat) (b : option nat).
Local Abbreviation r := (mkRefs (Some icon) (Some overlay) None b).

Lemma toggleMenu_without_nav d :
  toggleMenu r d
  = (Throw TypeError,
     classList_toggle overlay "active" (classList_toggle icon "active" d)).
Proof. reflexivity. Qed.

(** One call flips [active] on the icon and on the overlay. *)
Lemma toggle_without_nav_flips d e :
  icon ≠ overlay → e = icon ∨ e = overlay →
  classList_contains e "active" (toggleMenu r d).2
  = negb (classList_contains e "active" d).
Proof.
  intros Hne He. rewrite toggleMenu_without_nav. cbn [snd].
  rewrite !classList_contains_toggle.
  destruct He as [->| ->].
  - rewrite (bool_decide_eq_false_2 (icon = overlay ∧ _)) by naive_solver.
    rewrite bool_decide_eq_true_2 by done.
    by destruct (classList_contains icon "active" d).
  - rewrite (bool_decide_eq_false_2 (overlay = icon ∧ _)) by naive_solver.
    rewrite bool_decide_eq_true_2 by done.
    by destruct (classList_contains overlay "active" d).
Qed.

Lemma clicks_without_nav k d :
  let d' := handle_all r (replicate k HamburgerClick) d in
  (∀ e c, c ≠ "active" → classList_contains e c d' = classList_contains e c d)
  ∧ (icon ≠ overlay → ∀ e, e = icon ∨ e = overlay →
     classList_contains e "active" d'
     = xorb (Nat.odd k) (classList_contains e "active" d)).
Proof.
  unfold handle_all. revert d. induction k as [|k IH]; intros d; cbn [replicate foldl].
  - split; [done|]. intros _ e _. by destruct (classList_contains e "active" d).
  - cbn [on_event]. unfold exec at 2 4.
    destruct (IH (toggleMenu r d).2) as [Hother Hflip].
    split.
    + intros e c Hc. rewrite Hother by done.
      rewrite toggleMenu_without_nav. cbn [snd]. rewrite !classList_contains_toggle.
      rewrite !bool_decide_eq_false_2 by naive_solver. done.
    + intros Hne e He. rewrite Hflip by done.
      rewrite toggle_without_nav_flips by done.
      rewrite Nat.odd_succ, <- Nat.negb_odd.
      by destruct (Nat.odd k), (classList_contains e "active" d).
Qed.
End MenuMissingNav.

(** X3. On a page without a [nav] element, the icon and the overlay
    present: every [toggleMenu] throws a TypeError, and by then it has
    flipped [active] on the icon and on the overlay.  So after [k]
    clicks on the hamburger button [active] has been flipped [k] times
    on the icon and [k] times on the overlay, while no class other than
    [active] has changed on any element: the body never gets
    [menu-open]. *)
Theorem menu_without_nav_opens_unlocked
    (icon overlay : nat) (b : option nat) (k : nat) (d : dom) :
  icon ≠ overlay →
  let r := Menu.mkRefs (Some icon) (Some overlay) None b in
  let d1 := (Menu.toggleMenu r d).2 in
  let d' := MenuEvents.handle_all r (replicate k MenuEvents.HamburgerClick) d in
  (Menu.toggleMenu r d).1 = Throw TypeError
  ∧ classList_contains icon "active" d1 = negb (classList_contains icon "active" d)
  ∧ classList_contains overlay "active" d1
    = negb (classList_contains overlay "active" d)
  ∧ (∀ e c, c ≠ "active" → classList_contains e c d' = classList_contains e c d)
  ∧ classList_contains icon "active" d'
    = xorb (Nat.odd k) (classList_contains icon "active" d)
  ∧ classList_contains overlay "active" d'
    = xorb (Nat.odd k) (classList_contains overlay "active" d).
Proof.
  intros Hne r d1 d'. split; [reflexivity|].
  destruct (clicks_without_nav icon overlay b k d) as [Hother Hflip].
  split; [apply toggle_without_nav_flips; [done | by left]|].
  split; [apply toggle_without_nav_flips; [done | by right]|].
  split; [exact Hother|].
  split; apply Hflip; [done | by left | done | by right].
Qed.

Lemma menu_without_nav_opens_unlocked_witness :
  let r := Menu.mkRefs (Some 1) (Some 2) None (Some 4) in
  let d1 := (Menu.toggleMenu r Menu.closed_page).2 in
  let d' := MenuEvents.handle_all r (replicate 3 MenuEvents.HamburgerClick)
              Menu.closed_page in
  (Menu.toggleMenu r Menu.closed_page).1 = Throw TypeError
  ∧ classList_contains 1 "active" d1 = true
  ∧ classList_contains 2 "active" d1 = true
  ∧ (∀ e c, c ≠ "active" →
       classList_contains e c d' = classList_contains e c Menu.closed_page)
  ∧ classList_contains 1 "active" d' = true
  ∧ classList_contains 2 "active" d' = true.
Proof.
  apply (menu_without_nav_opens_unlocked 1 2 (Some 4) 3 Menu.closed_page). lia.
Defined.

(** ** Navbar scroll effect, further *)

Section NavbarMore.
Import Navbar.

Lemma add_add c l : TokenList.add c (TokenList.add c l) = TokenList.add c l.
Proof.
  apply add_present. apply contains_true.
  rewrite contains_add. by rewrite bool_decide_eq_true_2.
Qed.

Lemma remove_remove c l :
  TokenList.remove c (TokenList.remove c l) = TokenList.remove c l.
Proof.
  apply remove_absent. intros H. apply contains_true in H.
  rewrite contains_remove in H. by rewrite bool_decide_eq_true_2 in H.
Qed.

Lemma set_classList_twice e l l' d :
  set_classList e l (set_classList e l' d) = set_classList e l d.
Proof. unfold set_classList. cbn. by rewrite insert_insert_eq. Qed.

Lemma classList_add_twice e c d :
  classList_add e c (classList_add e c d) = classList_add e c d.
Proof.
  unfold classList_add. rewrite set_classList_twice.
  rewrite classList_set, decide_True by done. by rewrite add_add.
Qed.

Lemma classList_remove_twice e c d :
  classList_remove e c (classList_remove e c d) = classList_remove e c d.
Proof.
  unfold classList_remove. rewrite set_classList_twice.
  rewrite classList_set, decide_True by done. by rewrite remove_remove.
Qed.
End NavbarMore.

(** X4. With both elements present, a run of [handleNavbarScroll]
    changes no class but [nav-shrink] on the navigation bar and nothing
    else in the document, and a second run with the same readings
    leaves the state exactly as the first did. *)
Theorem navbar_handler_idempotent
    (n hero : nat) (env : Navbar.readings) (st : Navbar.state) :
  let r := Navbar.mkRefs (Some n) (Some hero) in
  let st1 := exec (Navbar.handleNavbarScroll r env) st in
  exec (Navbar.handleNavbarScroll r env) st1 = st1
  ∧ (∀ e c, ¬ (e = n ∧ c = "nav-shrink") →
       classList_contains e c (Navbar.page st1)
       = classList_contains e c (Navbar.page st))
  ∧ attributes (Navbar.page st1) = attributes (Navbar.page st)
  ∧ childNodes (Navbar.page st1) = childNodes (Navbar.page st)
  ∧ Navbar.console st1 = Navbar.console st.
Proof.
  intros r st1. subst st1 r. unfold exec. rewrite !handleNavbarScroll_run. cbn [snd].
  destruct (Qle_bool (Navbar.heroHalfway env) (Navbar.scrollPosition env));
    unfold Navbar.on_page; cbn [Navbar.page Navbar.console].
  - rewrite classList_add_twice. split; [done|]. split; [|done].
    intros e c Hne. rewrite classList_contains_add.
    by rewrite bool_decide_eq_false_2.
  - rewrite classList_remove_twice. split; [done|]. split; [|done].
    intros e c Hne. rewrite classList_contains_remove.
    by rewrite bool_decide_eq_false_2.
Qed.

(** X5. With a hero but no [nav] element, every run of
    [handleNavbarScroll] throws a TypeError, whatever the readings, and
    leaves the state as it was, console included: after any number of
    events the state is the one before them. *)
Theorem navbar_without_nav_throws
    (hero : nat) (envs : list Navbar.readings) (st : Navbar.state) :
  let r := Navbar.mkRefs None (Some hero) in
  (∀ env st0, Navbar.handleNavbarScroll r env st0 = (Throw TypeError, st0))
  ∧ Navbar.handle_events r envs st = st.
Proof.
  intros r.
  assert (Hthrow : ∀ env st0,
            Navbar.handleNavbarScroll r env st0 = (Throw TypeError, st0)).
  { intros env st0. unfold Navbar.handleNavbarScroll, r. cbn.
    by destruct (Qle_bool (Navbar.heroHalfway env) (Navbar.scrollPosition env)). }
  split; [exact Hthrow|].
  unfold Navbar.handle_events. induction envs as [|env envs IH]; [done|].
  cbn [foldl]. unfold exec at 2. by rewrite Hthrow.
Qed.

(** ** Viewport section observer, further *)

(** X6. The last entry of a batch that is intersecting with a ratio
    above 0.7 decides the batch: when the entries after it are all
    below, an observed section, or that entry's target, carries
    [vsect-active] after the batch exactly when it is that entry's
    target and no later entry of the batch reports on it.  What the
    document held before the batch and what came earlier in the batch
    play no part. *)
Theorem section_last_exceeding_entry_wins
    (blocks : list nat) (earlier later : list IntersectionObserverEntry)
    (entry : IntersectionObserverEntry) (d : dom) (e : nat) :
  Sections.exceeds entry = true →
  Sections.quiet later = true →
  e ∈ blocks ∨ e = target entry →
  Sections.active e
    (Sections.handleIntersection blocks (earlier ++ entry :: later) d)
  = bool_decide (e = target entry)
    && negb (bool_decide (e ∈ Sections.targets later)).
Proof.
  intros Hex Hq He. unfold Sections.handleIntersection.
  rewrite foldl_app. cbn [foldl].
  fold (Sections.handleIntersection blocks earlier d).
  fold (Sections.handleIntersection blocks later
          (Sections.on_entry blocks (Sections.handleIntersection blocks earlier d)
             entry)).
  rewrite active_quiet_batch by done. rewrite active_on_entry, Hex.
  destruct (bool_decide (e ∈ Sections.targets later)); cbn [negb andb];
    [by rewrite andb_false_r|].
  rewrite andb_true_r. case_bool_decide as Ht; [done|]. cbn [orb].
  destruct He as [He|He]; [|done].
  by rewrite (bool_decide_eq_true_2 (e ∈ blocks)).
Qed.

Lemma section_last_exceeding_entry_wins_witness :
  Sections.active 2
    (Sections.handleIntersection [1; 2]
       ([mkEntry 1 true 1] ++ mkEntry 2 true (9 # 10) :: [mkEntry 1 true (1 # 2)])
       Sections.two_sections)
  = bool_decide (2 = 2)
    && negb (bool_decide (2 ∈ Sections.targets [mkEntry 1 true (1 # 2)])).
Proof.
  apply (section_last_exceeding_entry_wins [1; 2] [mkEntry 1 true 1]
           [mkEntry 1 true (1 # 2)] (mkEntry 2 true (9 # 10))
           Sections.two_sections 2).
  - reflexivity.
  - reflexivity.
  - left. set_solver.
Defined.

(** ** Setting up and tearing down the animation observers *)

Section ObserversFacts.
Import Animations Observers.
Implicit Types (st : state) (d : dom) (e : nat).

Lemma elem_of_observe_each elements (observer : gset nat) e :
  e ∈ observe_each elements observer ↔ e ∈ observer ∨ e ∈ elements.
Proof.
  unfold observe_each. revert observer.
  induction elements as [|x l IH]; intros observer; cbn [foldl].
  - set_solver.
  - rewrite IH. set_solver.
Qed.

Lemma observe_each_from_empty elements e :
  e ∈ observe_each elements ∅ ↔ e ∈ elements.
Proof. rewrite elem_of_observe_each. set_solver. Qed.

Lemma elem_of_select sels d e :
  e ∈ select sels d
  ↔ e ∈ descendants d document ∧ ∃ sel, sel ∈ sels ∧ matches sel d e = true.
Proof.
  unfold select. rewrite list_elem_of_filter, existsb_exists. split.
  - intros [(sel & Hs & Hm) Hd]. split; [done|].
    exists sel. by rewrite list_elem_of_In.
  - intros [Hd (sel & Hs & Hm)]. split; [|done].
    exists sel. by rewrite <- list_elem_of_In.
Qed.

Lemma refresh_depends_on_page st st' :
  page st = page st' → refresh st = refresh st'.
Proof. unfold refresh, observeElements, disconnect_all. cbn. by intros ->. Qed.

Lemma page_refresh st : page (refresh st) = page st.
Proof. reflexivity. Qed.

Lemma select_removed sels e d : e ∉ select sels (remove_node e d).
Proof.
  rewrite elem_of_select. intros [H _].
  by apply not_descendant_after_remove in H.
Qed.
End ObserversFacts.

(** [refresh] and [destroy] may be called any number of times:
    neither touches the document, a second [refresh] or [destroy]
    changes nothing, and both forget what was observed before, so
    [refresh] after [destroy] observes what [refresh] alone would, which
    is what a new [AnimationSystem] on the same document observes. *)
Lemma observers_refresh_destroy_repeatable (st : Animations.state) :
  Observers.refresh (Observers.refresh st) = Observers.refresh st
  ∧ Observers.destroy (Observers.destroy st) = Observers.destroy st
  ∧ Observers.refresh (Observers.destroy st) = Observers.refresh st
  ∧ Observers.refresh st = Observers.construct (Animations.page st)
  ∧ Animations.page (Observers.refresh st) = Animations.page st
  ∧ Animations.page (Observers.destroy st) = Animations.page st
  ∧ ∀ e, ¬ Observers.observed e (Observers.destroy st).
Proof.
  split; [by apply refresh_depends_on_page|].
  split; [done|]. split; [by apply refresh_depends_on_page|].
  split; [done|]. split; [done|]. split; [done|].
  intros e. unfold Observers.observed, Observers.destroy, Observers.disconnect_all.
  cbn. set_solver.
Qed.

(** X7. After [refresh] an element is observed by the one-shot
    observer exactly when it is in the document and carries [animate],
    whether or not it has animated before: an element that took
    [in-view] and was unobserved is observed again.  An element taken
    out of the document before the [refresh] is observed by none of the
    four observers after it. *)
Theorem observers_refresh_follows_document (st : Animations.state) (e : nat) :
  (e ∈ Animations.animateObserver (Observers.refresh st)
   ↔ e ∈ descendants (Animations.page st) document
     ∧ e ≠ document
     ∧ classList_contains e "animate" (Animations.page st) = true)
  ∧ ¬ Observers.observed e
        (Observers.refresh (Animations.on_page (remove_node e) st)).
Proof.
  split.
  - unfold Observers.refresh, Observers.observeElements, Observers.disconnect_all.
    cbn [Animations.animateObserver Animations.page].
    rewrite observe_each_from_empty, elem_of_select. unfold Observers.animate.
    split.
    + intros (Hd & sel & Hsel & Hm). apply list_elem_of_singleton in Hsel as ->.
      cbn [matches] in Hm. unfold has_classes in Hm. cbn [forallb] in Hm.
      rewrite !andb_true_iff, negb_true_iff, bool_decide_eq_false in Hm.
      tauto.
    + intros (Hd & Hne & Hc). split; [done|].
      exists (SelClasses ["animate"]). split; [set_solver|].
      cbn [matches]. unfold has_classes. cbn [forallb].
      rewrite Hc, bool_decide_eq_false_2 by done. done.
  - unfold Observers.observed, Observers.refresh, Observers.observeElements,
      Observers.disconnect_all.
    cbn [Animations.animateObserver Animations.animateRepeatObserver
         Animations.lineObserver Animations.lineRepeatObserver
         Animations.page Animations.on_page].
    rewrite !observe_each_from_empty.
    intros [H|[H|[H|H]]]; by apply select_removed in H.
Qed.

(** ** Services tabs, further *)

Section TabsDebounceCount.
Import Tabs.
Implicit Types (st : state) (r : refs).

Lemma filter_enqueue_only {T} (P : timer T → Prop) `{!∀ x, Decision (P x)}
    (t : timer T) (q : list (timer T)) :
  P t → filter P q = [] → filter P (enqueue t q) = [t].
Proof.
  intros Ht. induction q as [|u q IH]; cbn [enqueue]; intros Hq.
  - by rewrite filter_cons, decide_True.
  - rewrite filter_cons in Hq. destruct (decide (P u)); [done|].
    destruct (due u <=? due t).
    + rewrite filter_cons, decide_False by done. by apply IH.
    + rewrite !filter_cons, decide_True, decide_False by done. by rewrite Hq.
Qed.

Lemma on_resize_checks w st :
  quiet_until 0 st →
  check_timers (exec (on_resize w) st)
  = [mkTimer (next_timer (clock st)) (now (clock st) + 250) CheckLayout].
Proof.
  intros Hq. rewrite on_resize_effect. unfold check_timers. cbn [clock pending].
  apply filter_enqueue_only; [done|].
  apply filter_none. intros tm Hin Hc.
  assert (Hpending : tm ∈ check_timers st).
  { unfold check_timers. apply list_elem_of_filter. split; [done|].
    destruct (resizeTimer st); cbn in Hin; [|done].
    by apply list_elem_of_filter in Hin as [_ Hin]. }
  destruct (Hq tm Hpending) as [_ Hid].
  rewrite Hid in Hin. cbn in Hin. apply list_elem_of_filter in Hin as [Hne _].
  by apply Hne.
Qed.

Lemma advance_checks r ms st :
  length (check_timers (advance r ms st)) ≤ length (check_timers st).
Proof.
  unfold advance, fire. cbn zeta.
  set (ready := filter (λ tm : timer task, due tm ≤ now (clock st) + ms)
                       (pending (clock st))).
  set (st1 := set_clock _ st).
  assert (Hk : keeps debounce_view st1
                 (foldl (λ st tm, exec (run r (callback tm)) st) st1 ready)).
  { apply (stable_foldl (keeps debounce_view) (λ tm, run r (callback tm))).
    intros tm. apply run_view. }
  unfold keeps, debounce_view in Hk. injection Hk as _ Hc. rewrite Hc.
  unfold check_timers, st1. cbn [clock set_clock pending].
  rewrite list_filter_filter.
  rewrite (list_filter_iff _
             (λ tm, ¬ due tm ≤ now (clock st) + ms ∧ is_check tm = true))
    by (intros; tauto).
  rewrite <- (list_filter_filter (λ tm, ¬ due tm ≤ now (clock st) + ms)
                                (λ tm, is_check tm = true)).
  apply length_filter.
Qed.

Lemma handle_checks r ev st :
  quiet_until 0 st → length (check_timers st) ≤ 1 →
  length (check_timers (handle r ev st)) ≤ 1.
Proof.
  intros Hq Hlen. destruct ev as [tab|w|ms]; cbn [handle].
  - pose proof (on_click_control r tab st) as Hk.
    unfold keeps, control in Hk. injection Hk as _ _ _ _ Hc. by rewrite Hc.
  - by rewrite on_resize_checks.
  - etrans; [apply advance_checks | done].
Qed.
End TabsDebounceCount.

(** X8. The resize listener debounces: in every state the module
    reaches from its start, whatever the clicks, resizes and waits, at
    most one layout check is pending; and right after a resize exactly
    one is, due 250 milliseconds after that resize, every earlier one
    having been cancelled. *)
Theorem resize_leaves_one_pending_check
    (r : Tabs.refs) (d : dom) (w : Z) (evs : list Tabs.event) (w' : Z) :
  let st := Tabs.handle_all r evs (Tabs.boot r d w) in
  length (Tabs.check_timers st) ≤ 1
  ∧ Tabs.check_timers (Tabs.handle r (Tabs.Resize w') st)
    = [mkTimer (next_timer (Tabs.clock st)) (now (Tabs.clock st) + 250)
         Tabs.CheckLayout].
Proof.
  intros st.
  assert (Hinv : Tabs.quiet_until 0 st ∧ length (Tabs.check_timers st) ≤ 1).
  { subst st. unfold Tabs.handle_all.
    assert (Hboot : Tabs.quiet_until 0 (Tabs.boot r d w)
                    ∧ length (Tabs.check_timers (Tabs.boot r d w)) ≤ 1).
    { split; [apply boot_debounced|].
      destruct (Tabs.check_timers (Tabs.boot r d w)) as [|tm l] eqn:E; [cbn; lia|].
      destruct (boot_debounced r d w tm) as [_ Hid]; [rewrite E; set_solver|].
      exfalso. revert Hid.
      assert (Hr : Tabs.resizeTimer (Tabs.boot r d w) = None); [|by rewrite Hr].
      unfold Tabs.boot.
      set (st0 := Tabs.mkState d w false None (mkTimers 0 [] 1)).
      assert (Hk : Tabs.keeps Tabs.resizeTimer st0 (exec (Tabs.start r) st0)).
      { generalize st0. change (stable (Tabs.keeps Tabs.resizeTimer) (Tabs.start r)).
        unfold Tabs.start, Tabs.handleLayout.
        repeat (stable_step
                || lazymatch goal with
                   | |- Tabs.keeps _ _ _ => reflexivity
                   | |- stable _ (Tabs.clone_of _) =>
                       apply clone_of_stable; reflexivity
                   end). }
      exact Hk. }
    revert Hboot. generalize (Tabs.boot r d w).
    induction evs as [|ev evs IH]; intros s [Hq Hlen]; cbn [foldl]; [done|].
    apply IH. split; [by apply handle_debounced | by apply handle_checks]. }
  destruct Hinv as [Hq Hlen]. split; [exact Hlen|].
  cbn [Tabs.handle]. by apply on_resize_checks.
Qed.

Section TabsAnimateContent.
Import Tabs.
Implicit Types (st : state) (r : refs).

(** The arrow function of the [forEach] in [triggerAnimations]. *)
Lemma restart_effect el st :
  (modify (on_page (classList_remove el "in-view"));;
   modify (on_page (classList_add el "in-view"))) st
  = (Normal tt,
     on_page (λ d, classList_add el "in-view" (classList_remove el "in-view" d)) st).
Proof. reflexivity. Qed.

Lemma restart_all els st :
  ∃ st',
    forEach els (λ el, modify (on_page (classList_remove el "in-view"));;
                       modify (on_page (classList_add el "in-view"))) st
    = (Normal tt, st')
    ∧ ∀ e, e ∈ els ∨ classList_contains e "in-view" (page st) = true →
           classList_contains e "in-view" (page st') = true.
Proof.
  revert st. induction els as [|el els IH]; intros st; cbn [forEach].
  - exists st. split; [done|]. intros e [H|H]; [by apply not_elem_of_nil in H | done].
  - destruct (IH (on_page (λ d, classList_add el "in-view"
                                  (classList_remove el "in-view" d)) st))
      as (st' & Hrun & Hkeep).
    exists st'. split.
    + erewrite bind_normal; [exact Hrun | apply restart_effect].
    + intros e He. apply Hkeep. cbn [page on_page].
      rewrite classList_contains_add, classList_contains_remove.
      destruct (decide (e = el)) as [->|Hne].
      * right. by rewrite bool_decide_eq_true_2.
      * destruct He as [He|He]; [left; set_solver|right].
        rewrite bool_decide_eq_false_2 by naive_solver. by rewrite He.
Qed.
End TabsAnimateContent.

(** X9. The callback that [triggerAnimations] schedules returns
    normally and leaves [in-view] on every element below the content
    that carries [animate-repeat], whether or not it carried [in-view]
    before; it changes no other class, nothing else in the document and
    nothing in the module's variables and timers. *)
Theorem animation_callback_marks_descendants
    (r : Tabs.refs) (content : nat) (st : Tabs.state) :
  let st' := exec (Tabs.run r (Tabs.AnimateContent content)) st in
  (Tabs.run r (Tabs.AnimateContent content) st).1 = Normal tt
  ∧ (∀ el, el ∈ querySelectorAll content Tabs.animate_repeat (Tabs.page st) →
           classList_contains el "in-view" (Tabs.page st') = true)
  ∧ Tabs.writes ["in-view"] st st'.
Proof.
  intros st'. subst st'.
  destruct (restart_all (querySelectorAll content Tabs.animate_repeat (Tabs.page st))
              st) as (st' & Hrun & Hall).
  assert (Heq : Tabs.run r (Tabs.AnimateContent content) st = (Normal tt, st')).
  { unfold Tabs.run. change ((get ≫= ?k) st) with (k st st). exact Hrun. }
  split; [by rewrite Heq|]. split.
  - intros el Hel. unfold exec. rewrite Heq. apply Hall. by left.
  - by apply run_writes_in_view.
Qed.

Section TabsMalformed.
Import Tabs TabsMore.
Implicit Types (st : state) (r : refs).

#[local] Instance never_opens_preorder : PreOrder never_opens.
Proof.
  split.
  - intros st. split; [reflexivity | done].
  - intros a b c [Hw Ha] [Hw' Ha']. split; [by etrans | naive_solver].
Qed.

Lemma never_opens_remove e st :
  never_opens st (on_page (classList_remove e "active") st).
Proof.
  split; [apply writes_remove; set_solver|].
  intros x. unfold act. cbn [page on_page]. rewrite classList_contains_remove.
  by intros [_ ?]%andb_true_iff.
Qed.

Lemma close_other_outcome tab u st :
  ∃ res st', close_other tab u st = (res, st')
    ∧ (res = Normal tt ∨ res = Throw TypeError)
    ∧ never_opens st st'
    ∧ (u ≠ tab → closest u tab_container (page st) = None → res = Throw TypeError).
Proof.
  unfold close_other. destruct (decide (u ≠ tab)) as [Hne|Heq].
  - change ((get ≫= ?k) st) with (k st st). cbn beta zeta.
    destruct (closest u tab_container (page st)) as [c|] eqn:Hc.
    + change ((nonnull (Some c) ≫= ?k) st) with (k c st). cbn beta.
      destruct (querySelector c tab_content (page st)) as [oc|] eqn:Hoc.
      * eexists _, _. split; [reflexivity|]. split; [by left|]. split; [|done].
        cbn. etrans; apply never_opens_remove.
      * eexists _, _. split; [reflexivity|]. split; [by right|]. split; [|done].
        cbn. apply never_opens_remove.
    + eexists _, _. split; [reflexivity|]. split; [by right|]. split; [|done].
      reflexivity.
  - eexists _, _. split; [reflexivity|]. split; [by left|]. split; [reflexivity|].
    intros Hne. by destruct Heq.
Qed.

Lemma close_others_outcome tab ts st :
  ∃ res st', forEach ts (close_other tab) st = (res, st')
    ∧ (res = Normal tt ∨ res = Throw TypeError)
    ∧ never_opens st st'
    ∧ ((∃ u, u ∈ ts ∧ u ≠ tab ∧ closest u tab_container (page st) = None) →
       res = Throw TypeError).
Proof.
  revert st. induction ts as [|x ts IH]; intros st; cbn [forEach].
  - eexists _, _. split; [reflexivity|]. split; [by left|]. split; [reflexivity|].
    intros (u & Hu & _). by apply not_elem_of_nil in Hu.
  - destruct (close_other_outcome tab x st) as (res1 & st1 & Hrun1 & Hres1 & Hno1 & Hthrow1).
    destruct Hres1 as [->| ->].
    + destruct (IH st1) as (res & st' & Hrun & Hres & Hno & Hthrow).
      exists res, st'. split; [by erewrite bind_normal|]. split; [done|].
      split; [by etrans|].
      intros (u & Hu & Hne & Hc). apply elem_of_cons in Hu as [->|Hu].
      * by specialize (Hthrow1 Hne Hc).
      * apply Hthrow. exists u. split; [done|]. split; [done|].
        destruct Hno1 as [[_ Hsame] _].
        rewrite (same_closest ["active"] (page st) (page st1) Hsame); [done|].
        apply avoids_active_container. set_solver.
    + exists (Throw TypeError), st1. split.
      * unfold mbind, JS_bind, bind. by rewrite Hrun1.
      * split; [by right|]. split; done.
Qed.
End TabsMalformed.

(** X10. One tab without a container breaks the accordion for the
    others.  In the narrow layout, a click on a tab that has its
    container, while some other service tab has none, throws a
    TypeError; by then no element has gained [active], so the clicked
    tab is not opened, no class other than [active] has changed, and no
    animation is scheduled. *)
Theorem click_with_malformed_sibling_throws
    (r : Tabs.refs) (tab u : nat) (st : Tabs.state) :
  Tabs.isDesktop st = false →
  is_Some (closest tab Tabs.tab_container (Tabs.page st)) →
  u ∈ Tabs.serviceTabs r → u ≠ tab →
  closest u Tabs.tab_container (Tabs.page st) = None →
  let st' := exec (Tabs.on_click r tab) st in
  (Tabs.on_click r tab st).1 = Throw TypeError
  ∧ Tabs.writes ["active"] st st'
  ∧ ∀ e, Tabs.act e st' = true → Tabs.act e st = true.
Proof.
  intros Hd [c Hc] Hu Hne Hnone st'. subst st'.
  destruct (close_others_outcome tab (Tabs.serviceTabs r) st)
    as (res & st1 & Hrun & _ & [Hw Hact] & Hthrow).
  assert (Hres : res = Throw TypeError) by (apply Hthrow; eauto).
  subst res.
  assert (Heq : Tabs.on_click r tab st = (Throw TypeError, st1)).
  { unfold Tabs.on_click. change ((get ≫= ?k) st) with (k st st). cbn beta zeta.
    rewrite Hc, Hd.
    change ((nonnull (Some c) ≫= ?k) st) with (k c st). cbn beta.
    unfold Tabs.handleMobileTab. change ((get ≫= ?k) st) with (k st st).
    cbn beta zeta. unfold mbind at 1, JS_bind, bind. by rewrite Hrun. }
  unfold exec. rewrite Heq. done.
Qed.

Lemma click_with_malformed_sibling_throws_witness :
  let d := remove_node 6 Tabs.services_page in
  let st := Tabs.boot Tabs.services_refs d 400 in
  (Tabs.on_click Tabs.services_refs 3 st).1 = Throw TypeError
  ∧ Tabs.writes ["active"] st (exec (Tabs.on_click Tabs.services_refs 3) st)
  ∧ ∀ e, Tabs.act e (exec (Tabs.on_click Tabs.services_refs 3) st) = true →
         Tabs.act e st = true.
Proof.
  apply (click_with_malformed_sibling_throws Tabs.services_refs 3 6
           (Tabs.boot Tabs.services_refs (remove_node 6 Tabs.services_page) 400)).
  - reflexivity.
  - exists 2. vm_compute. reflexivity.
  - set_solver.
  - lia.
  - vm_compute. reflexivity.
Defined.

(** ** Cloning *)

Section CloneFacts.
Import TabsMore.
Implicit Types (d : dom) (e : nat).

#[global] Instance extends_preorder : PreOrder extends.
Proof.
  split.
  - intros d. split; [done|]. by intros x _.
  - intros a b c [Hn H] [Hn' H']. split; [lia|]. intros x Hx.
    destruct (H x Hx) as (<- & <- & <-). apply H'. lia.
Qed.

Lemma copy_node_extends e d :
  extends d (copy_node e (next_node d) d).
Proof.
  unfold copy_node. split; [cbn; lia|]. intros x Hx. cbn.
  destruct (classes d !! e), (attributes d !! e);
    rewrite ?lookup_insert_ne by lia; done.
Qed.

Lemma set_children_extends e ks d d' :
  next_node d ≤ e → extends d d' → extends d (set_children e ks d').
Proof.
  intros He [Hn H]. split; [done|]. intros x Hx. cbn.
  rewrite lookup_insert_ne by lia. by apply H.
Qed.

Lemma cloneNode_upto_extends fuel e d :
  (cloneNode_upto fuel e d).1 = next_node d
  ∧ next_node d < next_node (cloneNode_upto fuel e d).2
  ∧ extends d (cloneNode_upto fuel e d).2
  ∧ classes (cloneNode_upto fuel e d).2 !! next_node d
    = classes (copy_node e (next_node d) d) !! next_node d
  ∧ attributes (cloneNode_upto fuel e d).2 !! next_node d
    = attributes (copy_node e (next_node d) d) !! next_node d.
Proof.
  revert e d. induction fuel as [|fuel IH]; intros e d; cbn [cloneNode_upto].
  - cbn. split; [done|]. split; [lia|]. split; [apply copy_node_extends | done].
  - set (d1 := copy_node e (next_node d) d).
    set (step := λ (acc : list nat * dom) k,
           let '(k', d') := cloneNode_upto fuel k acc.2 in (acc.1 ++ [k'], d')).
    assert (Hfold : ∀ ks acc, extends acc.2 (foldl step acc ks).2).
    { induction ks as [|k ks IHks]; intros acc; cbn [foldl]; [reflexivity|].
      etrans; [|apply IHks]. unfold step.
      destruct (IH k acc.2) as (_ & _ & Hext & _).
      by destruct (cloneNode_upto fuel k acc.2). }
    specialize (Hfold (children e d) ([], d1)). cbn [snd] in Hfold.
    fold step. destruct (foldl step ([], d1) (children e d)) as [ks' d2].
    cbn [fst snd] in *.
    assert (Hd1 : extends d d1) by apply copy_node_extends.
    assert (Hnext : next_node d1 = S (next_node d)) by done.
    destruct Hfold as [Hn2 H2].
    destruct (H2 (next_node d)) as (Hc & Ha & _); [lia|].
    destruct ks' as [|k' ks'].
    + split; [done|]. split; [lia|]. split; [|done].
      etrans; [exact Hd1|]. by split.
    + split; [done|]. split; [cbn; lia|]. split; [|done].
      apply set_children_extends; [done|]. etrans; [exact Hd1|]. by split.
Qed.

Lemma cloneNode_extends e d :
  (cloneNode e d).1 = next_node d ∧ extends d (cloneNode e d).2.
Proof.
  unfold cloneNode. destruct (cloneNode_upto_extends (depth_bound d) e d)
    as (H1 & _ & H2 & _). done.
Qed.

Lemma extends_classList d d' x :
  extends d d' → x < next_node d → classList x d' = classList x d.
Proof. intros [_ H] Hx. unfold classList. by destruct (H x Hx) as (-> & _). Qed.

(** On a document whose handles in use are all below [next_node], the
    clone carries the classes and the attributes of the original. *)
Lemma cloneNode_copies e d :
  allocated d →
  classList (cloneNode e d).1 (cloneNode e d).2 = classList e d
  ∧ ∀ name, getAttribute (cloneNode e d).1 name (cloneNode e d).2
            = getAttribute e name d.
Proof.
  intros (Hc & Ha & _). unfold cloneNode.
  destruct (cloneNode_upto_extends (depth_bound d) e d) as (-> & _ & _ & Hcl & Hat).
  assert (Hfc : classes d !! next_node d = None).
  { destruct (classes d !! next_node d) eqn:E; [|done].
    apply Hc in E. cbn in E. lia. }
  assert (Hfa : attributes d !! next_node d = None).
  { destruct (attributes d !! next_node d) eqn:E; [|done].
    apply Ha in E. cbn in E. lia. }
  split.
  - unfold classList. rewrite Hcl. unfold copy_node. cbn.
    destruct (classes d !! e); [by rewrite lookup_insert_eq | by rewrite Hfc].
  - intros name. unfold getAttribute. rewrite Hat. unfold copy_node. cbn.
    destruct (attributes d !! e); [by rewrite lookup_insert_eq | by rewrite Hfa].
Qed.

(** The area holds the appended node and nothing else. *)
Lemma children_replaced ar c d :
  children ar (appendChild ar c (clear_children ar d)) = [c].
Proof.
  unfold appendChild. set (d' := remove_node c (clear_children ar d)).
  assert (Hd' : children ar d' = []).
  { unfold d'. rewrite children_remove_node. unfold children, clear_children.
    cbn. by rewrite lookup_insert_eq. }
  unfold children at 1, set_children. cbn. by rewrite lookup_insert_eq, Hd'.
Qed.

Lemma classList_replaced ar c d x :
  classList x (appendChild ar c (clear_children ar d)) = classList x d.
Proof. reflexivity. Qed.
End CloneFacts.

(** ** Services tabs: the desktop layout *)

Section TabsDesktop.
Import Tabs TabsMore.
Implicit Types (st : state) (r : refs) (d : dom).

Lemma deactivate_loop tabs st :
  forEach tabs (λ t, modify (on_page (classList_remove t "active"))) st
  = (Normal tt,
     on_page (λ d, foldl (λ d t, classList_remove t "active" d) d tabs) st).
Proof.
  revert st. induction tabs as [|t tabs IH]; intros st; cbn [forEach foldl].
  - by destruct st.
  - erewrite bind_normal; [|reflexivity]. by rewrite IH.
Qed.

(** [handleDesktopTab], spelled out. *)
Lemma handleDesktopTab_eval r tab v st :
  let d1 := activate (serviceTabs r) tab (page st) in
  handleDesktopTab r tab v st
  = match document_querySelector r (content_selector_text v) d1 with
    | Throw e => (Throw e, on_page (λ _, d1) st)
    | Normal None => (Normal tt, on_page (λ _, d1) st)
    | Normal (Some m) =>
        let c := (cloneNode m d1).1 in
        let d2 := classList_add c "active" (cloneNode m d1).2 in
        match desktopContentArea r with
        | None => (Throw TypeError, on_page (λ _, d2) st)
        | Some ar =>
            (Normal tt,
             set_clock (setTimeout (AnimateContent c) 50 (clock st)).2
               (on_page (λ _, appendChild ar c (clear_children ar d2)) st))
        end
    end.
Proof.
  intros d1. subst d1. unfold handleDesktopTab.
  erewrite bind_normal; [|apply deactivate_loop].
  unfold mbind, JS_bind, bind, modify, get, query_text, clone_of,
    triggerAnimations, nonnull, ret, throw, activate. cbn [page on_page].
  destruct (document_querySelector r (content_selector_text v) _)
    as [[m|]|e]; [|done|done].
  destruct (cloneNode m _) as [c d2]. cbn [page on_page fst snd].
  by destruct (desktopContentArea r).
Qed.

Lemma same_except_activate tabs tab d :
  same_except ["active"] d (activate tabs tab d).
Proof.
  unfold activate. etrans; [|apply same_except_add; set_solver].
  revert d. induction tabs as [|t tabs IH]; intros d; cbn [foldl]; [reflexivity|].
  etrans; [|apply IH]. apply same_except_remove. set_solver.
Qed.

Lemma next_node_activate tabs tab d :
  next_node (activate tabs tab d) = next_node d.
Proof. by destruct (same_except_activate tabs tab d) as (_ & _ & -> & _). Qed.

Lemma content_query_activate tabs tab v d :
  querySelector document (content_for v) (activate tabs tab d)
  = querySelector document (content_for v) d.
Proof.
  apply (same_querySelector ["active"]); [apply same_except_activate|].
  unfold avoids, content_for. cbn. constructor.
Qed.

(** With an engine that reads the text as written, the query of line
    199 is the attribute query, and the tabs' new classes do not bear
    on it. *)
Lemma content_query_read r tabs tab v d :
  reads_as_written r v →
  document_querySelector r (content_selector_text v) (activate tabs tab d)
  = Normal (querySelector document (content_for v) d).
Proof. intros Hread. by rewrite Hread, content_query_activate. Qed.

(** The engine of the examples reads every value as written that holds
    no double quote, backslash, line break, form feed or null
    character. *)
Lemma string_app_assoc (a b c : string) : (a +:+ b) +:+ c = a +:+ (b +:+ c).
Proof.
  induction a as [|x a IH]; [done|].
  change ((String x a +:+ b) +:+ c) with (String x ((a +:+ b) +:+ c)).
  by rewrite IH.
Qed.

Lemma string_app_length (a b : string) :
  String.length (a +:+ b) = String.length a + String.length b.
Proof.
  induction a as [|x a IH]; [done|].
  change (String x a +:+ b) with (String x (a +:+ b)).
  cbn [String.length]. by rewrite IH.
Qed.

Lemma strip_prefix_app p s : strip_prefix p (p +:+ s) = Some s.
Proof.
  induction p as [|a p IH]; [done|].
  change (String a p +:+ s) with (String a (p +:+ s)). cbn [strip_prefix].
  by rewrite Ascii.eqb_refl.
Qed.

Lemma strip_suffix_app q v : strip_suffix q (v +:+ q) = Some v.
Proof.
  induction v as [|a v IH].
  - change (EmptyString +:+ q) with q. destruct q; cbn [strip_suffix]; by rewrite String.eqb_refl.
  - assert (Hne : String.eqb (String a v +:+ q) q = false).
    { apply String.eqb_neq. intros Heq.
      apply (f_equal String.length) in Heq.
      rewrite string_app_length in Heq. cbn [String.length] in Heq. lia. }
    change (String a v +:+ q) with (String a (v +:+ q)) in *.
    cbn [strip_suffix]. by rewrite Hne, IH.
Qed.

Lemma attribute_engine_reads tabs area v :
  plain (default "null" v) = true →
  reads_as_written (mkRefs tabs area attribute_engine) v.
Proof.
  intros Hplain d. cbn [document_querySelector].
  unfold attribute_engine, quoted_value, content_selector_text.
  rewrite <- (string_app_assoc "[data-content=" double_quote), strip_prefix_app.
  cbn [mbind option_bind]. by rewrite strip_suffix_app, Hplain.
Qed.

Lemma contains_activate tabs tab d t :
  classList_contains t "active" (activate tabs tab d)
  = bool_decide (t = tab)
    || (negb (bool_decide (t ∈ tabs)) && classList_contains t "active" d).
Proof.
  unfold activate. rewrite classList_contains_add, contains_clear_all.
  f_equal; [apply bool_decide_ext; naive_solver|].
  do 2 f_equal. apply bool_decide_ext. naive_solver.
Qed.



(** After a desktop click, whatever became of it, the old nodes carry
    the classes [activate] gave them. *)
Lemma handleDesktopTab_old_classes r tab v st x :
  x < next_node (page st) →
  classList x (page (exec (handleDesktopTab r tab v) st))
  = classList x (activate (serviceTabs r) tab (page st)).
Proof.
  intros Hx. unfold exec. rewrite handleDesktopTab_eval. cbn zeta.
  set (d1 := activate (serviceTabs r) tab (page st)).
  assert (Hn : next_node d1 = next_node (page st)) by apply next_node_activate.
  destruct (document_querySelector r (content_selector_text v) d1)
    as [[m|]|e]; [|done|done].
  destruct (cloneNode_extends m d1) as [Hc Hext].
  assert (Hold : classList x (classList_add (cloneNode m d1).1 "active"
                                (cloneNode m d1).2) = classList x d1).
  { unfold classList_add. rewrite classList_set, decide_False by lia.
    apply extends_classList; [done | lia]. }
  by destruct (desktopContentArea r).
Qed.
End TabsDesktop.

(** X11. After a click handled in the desktop layout, whether the
    handler returned or threw, the clicked tab carries [active] and no
    other service tab does.  (The handles of the tabs are handles in
    use, below [next_node].) *)
Theorem desktop_click_activates_only_clicked_tab
    (r : Tabs.refs) (tab : nat) (targetTab : option string) (st : Tabs.state) :
  Forall (λ t, t < next_node (Tabs.page st)) (Tabs.serviceTabs r) →
  tab < next_node (Tabs.page st) →
  let st' := exec (Tabs.handleDesktopTab r tab targetTab) st in
  Tabs.act tab st' = true
  ∧ ∀ t, t ∈ Tabs.serviceTabs r → t ≠ tab → Tabs.act t st' = false.
Proof.
  intros Htabs Htab st'. subst st'. unfold Tabs.act, classList_contains. split.
  - rewrite handleDesktopTab_old_classes by done.
    fold (classList_contains tab "active"
            (TabsMore.activate (Tabs.serviceTabs r) tab (Tabs.page st))).
    rewrite contains_activate. by rewrite bool_decide_eq_true_2.
  - intros t Ht Hne. rewrite Forall_forall in Htabs.
    rewrite handleDesktopTab_old_classes by by apply Htabs.
    fold (classList_contains t "active"
            (TabsMore.activate (Tabs.serviceTabs r) tab (Tabs.page st))).
    rewrite contains_activate.
    rewrite bool_decide_eq_false_2, (bool_decide_eq_true_2 (t ∈ _)) by done. done.
Qed.

Lemma desktop_click_activates_only_clicked_tab_witness :
  let st := Tabs.boot Tabs.services_refs Tabs.services_page 1024 in
  let st' := exec (Tabs.handleDesktopTab Tabs.services_refs 6 (Some "appraisal")) st in
  Tabs.act 6 st' = true
  ∧ ∀ t, t ∈ Tabs.serviceTabs Tabs.services_refs → t ≠ 6 → Tabs.act t st' = false.
Proof.
  apply (desktop_click_activates_only_clicked_tab Tabs.services_refs 6
           (Some "appraisal")
           (Tabs.boot Tabs.services_refs Tabs.services_page 1024)).
  - apply (bool_decide_unpack _). vm_compute. exact I.
  - apply (bool_decide_unpack _). vm_compute. exact I.
Defined.

(** X12. A desktop click whose tab names no content block, no element
    carrying that [data-content], is skipped in silence: the handler
    returns normally having changed [active] on tabs and nothing else,
    so the shared area keeps what it showed, and it schedules no
    animation.  This is for a [data-tab] value that the browser reads
    as written when it stands between the double quotes of the selector
    text of line 199; for a value it does not read so, see
    [desktop_click_with_refused_selector]. *)
Theorem desktop_click_without_content
    (r : Tabs.refs) (tab : nat) (targetTab : option string) (st : Tabs.state) :
  TabsMore.reads_as_written r targetTab →
  querySelector document (TabsMore.content_for targetTab) (Tabs.page st) = None →
  (Tabs.handleDesktopTab r tab targetTab st).1 = Normal tt
  ∧ Tabs.writes ["active"] st (exec (Tabs.handleDesktopTab r tab targetTab) st).
Proof.
  intros Hread Hq. unfold exec. rewrite handleDesktopTab_eval. cbn zeta.
  rewrite (content_query_read _ _ _ _ _ Hread), Hq. split; [done|].
  split; [done|]. apply same_except_activate.
Qed.

Lemma desktop_click_without_content_witness :
  let st := Tabs.boot Tabs.services_refs Tabs.services_page 1024 in
  (Tabs.handleDesktopTab Tabs.services_refs 6 (Some "appraisals") st).1 = Normal tt
  ∧ Tabs.writes ["active"] st
      (exec (Tabs.handleDesktopTab Tabs.services_refs 6 (Some "appraisals")) st).
Proof.
  apply (desktop_click_without_content Tabs.services_refs 6 (Some "appraisals")
           (Tabs.boot Tabs.services_refs Tabs.services_page 1024)).
  - intros d. reflexivity.
  - vm_compute. reflexivity.
Defined.



(** X14. A desktop click whose tab names a content block, on a page
    without the shared area: the handler throws a TypeError.  By then
    the tabs have their new classes and a copy of the block has been
    made, but every child list of the page is as it was, and no
    animation is scheduled.  This is for a [data-tab] value that the
    browser reads as written when it stands between the double quotes
    of the selector text of line 199; the query comes before the area
    is touched, so a text the browser refuses ends the handler there
    (see [desktop_click_with_refused_selector]). *)
Theorem desktop_click_without_area
    (r : Tabs.refs) (tab m : nat) (targetTab : option string) (st : Tabs.state) :
  TabsMore.reads_as_written r targetTab →
  querySelector document (TabsMore.content_for targetTab) (Tabs.page st) = Some m →
  Tabs.desktopContentArea r = None →
  let st' := exec (Tabs.handleDesktopTab r tab targetTab) st in
  (Tabs.handleDesktopTab r tab targetTab st).1 = Throw TypeError
  ∧ Tabs.beside_page st' = Tabs.beside_page st
  ∧ ∀ x, x < next_node (Tabs.page st) →
         children x (Tabs.page st') = children x (Tabs.page st).
Proof.
  intros Hread Hq Har st'. subst st'.
  unfold exec. rewrite handleDesktopTab_eval. cbn zeta.
  rewrite (content_query_read _ _ _ _ _ Hread), Hq, Har. cbn [fst snd].
  set (d1 := TabsMore.activate (Tabs.serviceTabs r) tab (Tabs.page st)).
  assert (Hn : next_node d1 = next_node (Tabs.page st))
    by apply next_node_activate.
  assert (Hk : childNodes d1 = childNodes (Tabs.page st)).
  { unfold d1.
    by destruct (same_except_activate (Tabs.serviceTabs r) tab (Tabs.page st))
      as (_ & -> & _). }
  destruct (cloneNode_extends m d1) as [Hc [_ Hext]].
  split; [done|]. split; [done|].
  intros x Hx. cbn [Tabs.page Tabs.on_page]. unfold children.
  cbn [childNodes classList_add set_classList].
  destruct (Hext x) as (_ & _ & ->); [lia|]. by rewrite Hk.
Qed.

Lemma desktop_click_without_area_witness :
  let r := Tabs.mkRefs [3; 6] None Tabs.attribute_engine in
  let st := Tabs.boot r Tabs.services_page 400 in
  let st' := exec (Tabs.handleDesktopTab r 6 (Some "appraisal")) st in
  (Tabs.handleDesktopTab r 6 (Some "appraisal") st).1 = Throw TypeError
  ∧ Tabs.beside_page st' = Tabs.beside_page st
  ∧ ∀ x, x < next_node (Tabs.page st) →
         children x (Tabs.page st') = children x (Tabs.page st).
Proof.
  apply (desktop_click_without_area (Tabs.mkRefs [3; 6] None Tabs.attribute_engine)
           6 7 (Some "appraisal")
           (Tabs.boot (Tabs.mkRefs [3; 6] None Tabs.attribute_engine)
              Tabs.services_page 400)).
  - intros d. reflexivity.
  - vm_compute. reflexivity.
  - reflexivity.
Defined.

(** X20. A desktop click whose [data-tab] value makes a selector text
    that the browser refuses (a value with a stray double quote, say):
    [document.querySelector] throws, a SyntaxError, and the handler
    with it.  By then the tabs have their new classes; the page is
    otherwise as it was, so the shared area keeps what it showed, no
    copy is made and no animation is scheduled. *)
Theorem desktop_click_with_refused_selector
    (r : Tabs.refs) (tab : nat) (targetTab : option string) (err : js_error)
    (st : Tabs.state) :
  TabsMore.refuses r targetTab err →
  let st' := exec (Tabs.handleDesktopTab r tab targetTab) st in
  (Tabs.handleDesktopTab r tab targetTab st).1 = Throw err
  ∧ Tabs.page st' = TabsMore.activate (Tabs.serviceTabs r) tab (Tabs.page st)
  ∧ Tabs.writes ["active"] st st'.
Proof.
  intros Href st'. subst st'.
  unfold exec. rewrite handleDesktopTab_eval. cbn zeta. rewrite Href.
  split; [done|]. split; [done|]. split; [done|]. apply same_except_activate.
Qed.

Lemma desktop_click_with_refused_selector_witness :
  let v := Some ("x" +:+ Tabs.double_quote) in
  let st := Tabs.boot Tabs.services_refs Tabs.services_page 1024 in
  let st' := exec (Tabs.handleDesktopTab Tabs.services_refs 6 v) st in
  (Tabs.handleDesktopTab Tabs.services_refs 6 v st).1 = Throw SyntaxError
  ∧ Tabs.page st'
    = TabsMore.activate (Tabs.serviceTabs Tabs.services_refs) 6 (Tabs.page st)
  ∧ Tabs.writes ["active"] st st'.
Proof.
  apply (desktop_click_with_refused_selector Tabs.services_refs 6
           (Some ("x" +:+ Tabs.double_quote)) SyntaxError
           (Tabs.boot Tabs.services_refs Tabs.services_page 1024)).
  intros d. reflexivity.
Defined.

Section TabsLayout.
Import Tabs TabsMore.
Implicit Types (st : state) (r : refs) (d : dom).

(** [handleLayout], spelled out. *)
Lemma handleLayout_eval r st :
  let wide := (768 <=? innerWidth st)%Z in
  let st1 := set_isDesktop wide st in
  handleLayout r st
  = if wide then
      match querySelector document active_tab_content (page st) with
      | Some a =>
          let c := (cloneNode a (page st)).1 in
          let d2 := (cloneNode a (page st)).2 in
          match desktopContentArea r with
          | None => (Throw TypeError, on_page (λ _, d2) st1)
          | Some ar =>
              (Normal tt,
               on_page (λ _, appendChild ar c (clear_children ar d2)) st1)
          end
      | None => (Normal tt, st1)
      end
    else (Normal tt, st1).
Proof.
  intros wide st1. subst wide st1. unfold handleLayout.
  unfold mbind, JS_bind, bind, modify, get, clone_of, nonnull, ret, throw.
  cbn [page isDesktop set_isDesktop on_page].
  destruct (768 <=? innerWidth st)%Z; [|done].
  destruct (querySelector document active_tab_content (page st)) as [a|]; [|done].
  change (page (set_isDesktop true st)) with (page st).
  destruct (cloneNode a (page st)) as [c d2]. cbn [page on_page fst snd].
  by destruct (desktopContentArea r).
Qed.

(** The layout check when nothing else is pending, spelled out. *)
Lemma resize_then_check r w st :
  pending (clock st) = [] →
  handle_all r [Resize w; Wait 250] st
  = exec (run r CheckLayout)
      (mkState (page st) w (isDesktop st) (Some (next_timer (clock st)))
         (mkTimers (now (clock st) + 250) [] (S (next_timer (clock st))))).
Proof.
  intros Hp. unfold handle_all. cbn [foldl handle]. rewrite on_resize_effect.
  assert (Hcleared : pending (clearTimeout (resizeTimer st) (clock st)) = []).
  { destruct (resizeTimer st); cbn; by rewrite Hp. }
  rewrite Hcleared. cbn [enqueue]. unfold advance, fire.
  cbn [clock now pending next_timer].
  rewrite !filter_cons, !filter_nil. cbn [due].
  repeat case_decide; try (exfalso; lia). reflexivity.
Qed.

Lemma run_check_eval r st :
  exec (run r CheckLayout) st
  = if negb (eqb (isDesktop st) (768 <=? innerWidth st)%Z)
    then exec (handleLayout r) (set_isDesktop (768 <=? innerWidth st)%Z st)
    else set_isDesktop (768 <=? innerWidth st)%Z st.
Proof.
  unfold exec, run. unfold mbind at 1 2 3, JS_bind, bind, modify, get.
  cbn [isDesktop set_isDesktop].
  by destruct (negb (eqb (isDesktop st) (768 <=? innerWidth st)%Z)).
Qed.
End TabsLayout.

(** X15. [handleLayout] in a wide window, on a page with the shared
    area and an active content panel: it returns normally with the flag
    set; the area then holds one child, a new node that carries the
    classes and the attributes of the first active panel; the nodes
    there were keep their classes; and the timers are as they were, so
    no animation is scheduled for the copy. *)
Theorem layout_copies_active_panel
    (r : Tabs.refs) (a ar : nat) (st : Tabs.state) :
  TabsMore.allocated (Tabs.page st) →
  (768 ≤ Tabs.innerWidth st)%Z →
  querySelector document Tabs.active_tab_content (Tabs.page st) = Some a →
  Tabs.desktopContentArea r = Some ar →
  let c := next_node (Tabs.page st) in
  let st' := exec (Tabs.handleLayout r) st in
  (Tabs.handleLayout r st).1 = Normal tt
  ∧ Tabs.isDesktop st' = true
  ∧ children ar (Tabs.page st') = [c]
  ∧ classList c (Tabs.page st') = classList a (Tabs.page st)
  ∧ (∀ name, getAttribute c name (Tabs.page st') = getAttribute a name (Tabs.page st))
  ∧ (∀ x, x < next_node (Tabs.page st) →
          classList x (Tabs.page st') = classList x (Tabs.page st))
  ∧ Tabs.clock st' = Tabs.clock st.
Proof.
  intros Hal Hw Hq Har c st'. subst c st'.
  unfold exec. rewrite handleLayout_eval. cbn zeta.
  assert (Hwide : (768 <=? Tabs.innerWidth st)%Z = true) by by apply Z.leb_le.
  rewrite Hwide, Hq, Har. cbn [fst snd].
  destruct (cloneNode_extends a (Tabs.page st)) as [Hc Hext].
  destruct (cloneNode_copies a (Tabs.page st) Hal) as [Hcl Hat].
  rewrite Hc in *.
  cbn [Tabs.page Tabs.on_page Tabs.set_isDesktop Tabs.isDesktop Tabs.clock].
  split; [done|]. split; [done|]. split; [apply children_replaced|].
  split; [by rewrite classList_replaced|]. split; [|split; [|done]].
  - intros name. rewrite <- Hat. reflexivity.
  - intros x Hx. rewrite classList_replaced. by apply extends_classList.
Qed.

Lemma layout_copies_active_panel_witness :
  let st := Tabs.mkState Tabs.services_page 1024 false None (mkTimers 0 [] 1) in
  let st' := exec (Tabs.handleLayout Tabs.services_refs) st in
  (Tabs.handleLayout Tabs.services_refs st).1 = Normal tt
  ∧ Tabs.isDesktop st' = true
  ∧ children 10 (Tabs.page st') = [11]
  ∧ classList 11 (Tabs.page st') = classList 4 (Tabs.page st)
  ∧ (∀ name, getAttribute 11 name (Tabs.page st') = getAttribute 4 name (Tabs.page st))
  ∧ (∀ x, x < next_node (Tabs.page st) →
          classList x (Tabs.page st') = classList x (Tabs.page st))
  ∧ Tabs.clock st' = Tabs.clock st.
Proof.
  apply (layout_copies_active_panel Tabs.services_refs 4 10
           (Tabs.mkState Tabs.services_page 1024 false None (mkTimers 0 [] 1))).
  - apply (bool_decide_unpack _). vm_compute. exact I.
  - done.
  - vm_compute. reflexivity.
  - reflexivity.
Defined.

(** X16. Crossing the breakpoint.  With nothing else pending, 250
    milliseconds after a resize: from the narrow layout to a width of
    768 or more the state is the one [handleLayout] leaves, so the
    active panel, if any, is copied into the shared area; from the wide
    layout to a narrower width only the flag changes, so the shared
    area keeps the copy it showed; and a resize that stays on its side
    of the breakpoint changes neither flag nor page. *)
Theorem breakpoint_crossing_runs_layout
    (r : Tabs.refs) (w : Z) (st : Tabs.state) :
  pending (Tabs.clock st) = [] →
  let st0 := Tabs.mkState (Tabs.page st) w (Tabs.isDesktop st)
               (Some (next_timer (Tabs.clock st)))
               (mkTimers (now (Tabs.clock st) + 250) []
                         (S (next_timer (Tabs.clock st)))) in
  let st' := Tabs.handle_all r [Tabs.Resize w; Tabs.Wait 250] st in
  (Tabs.isDesktop st = false → (768 ≤ w)%Z →
   st' = exec (Tabs.handleLayout r) (Tabs.set_isDesktop true st0))
  ∧ (Tabs.isDesktop st = true → (w < 768)%Z →
     st' = Tabs.set_isDesktop false st0)
  ∧ (Tabs.isDesktop st = (768 <=? w)%Z →
     Tabs.isDesktop st' = Tabs.isDesktop st ∧ Tabs.page st' = Tabs.page st).
Proof.
  intros Hp st0 st'. subst st'. rewrite (resize_then_check r w st Hp).
  fold st0. rewrite run_check_eval.
  change (Tabs.innerWidth st0) with w. change (Tabs.isDesktop st0) with (Tabs.isDesktop st).
  split; [|split].
  - intros Hd Hw. apply Z.leb_le in Hw. by rewrite Hd, Hw.
  - intros Hd Hw. apply Z.leb_gt in Hw. rewrite Hd, Hw. cbn [eqb negb].
    unfold exec. rewrite handleLayout_eval. cbn zeta.
    change (Tabs.innerWidth (Tabs.set_isDesktop false st0)) with w.
    by rewrite Hw.
  - intros Hd. rewrite Hd. rewrite eqb_reflx. cbn [negb]. done.
Qed.

Lemma breakpoint_crossing_runs_layout_witness :
  let st := Tabs.mkState Tabs.services_page 400 false None (mkTimers 0 [] 1) in
  let st' := Tabs.handle_all Tabs.services_refs [Tabs.Resize 1024; Tabs.Wait 250] st in
  Tabs.isDesktop st' = true ∧ children 10 (Tabs.page st') = [11].
Proof.
  intros st st'.
  destruct (breakpoint_crossing_runs_layout Tabs.services_refs 1024 st eq_refl)
    as [Hwide _].
  unfold st'. rewrite Hwide by done. vm_compute. done.
Defined.

(** ** Preload overlay, further *)

Section PreloadFrame.
Import Preload.

Lemma stage_frame o d ms :
  (∀ e, e ≠ o → classList e (stage o d ms) = classList e d)
  ∧ (∀ c, c ≠ "fade-out" → c ≠ "hidden" →
          classList_contains o c (stage o d ms) = classList_contains o c d)
  ∧ attributes (stage o d ms) = attributes d
  ∧ (∀ x, children x (stage o d ms) = children x d
          ∨ children x (stage o d ms) = filter (λ k, k ≠ o) (children x d)).
Proof.
  assert (Hother : ∀ e c d0, e ≠ o → classList e (classList_add o c d0) = classList e d0).
  { intros e c d0 Hne. unfold classList_add. by rewrite classList_set, decide_False. }
  unfold stage.
  destruct (ms <? 500); [by repeat split; auto|].
  destruct (ms <? 800).
  { split; [intros; by apply Hother|]. split; [|split; [done | by left]].
    intros c Hf Hh. rewrite classList_contains_add.
    by rewrite bool_decide_eq_false_2 by naive_solver. }
  assert (Hcls : ∀ c, c ≠ "fade-out" → c ≠ "hidden" →
            classList_contains o c
              (classList_add o "hidden" (classList_add o "fade-out" d))
            = classList_contains o c d).
  { intros c Hf Hh. rewrite !classList_contains_add.
    by rewrite !bool_decide_eq_false_2 by naive_solver. }
  destruct (ms <? 1800).
  { split; [intros; by rewrite !Hother|]. split; [done|]. split; [done | by left]. }
  split.
  { intros e Hne.
    change (classList e (classList_add o "hidden" (classList_add o "fade-out" d))
            = classList e d).
    by rewrite !Hother. }
  split; [exact Hcls|]. split; [done|].
  intros x. right. by rewrite children_remove_node.
Qed.
End PreloadFrame.

(** X17. The preload sequence touches the overlay only.  After a load
    event with nothing scheduled before, on a page with an overlay [o],
    and whatever time has passed since: every other element has the
    class list it had; the overlay has gained no class but [fade-out]
    and [hidden] and lost none; the attributes are as they were; and
    every child list is what it was, or what it was without [o]. *)
Theorem preload_touches_overlay_only
    (d : dom) (L n : nat) (waits : list nat) (o : nat) :
  querySelector document (SelClasses ["preload-overlay"]) d = Some o →
  let d' := Preload.page
              (Preload.elapse waits
                 (Preload.on_load (Preload.mkState d (mkTimers L [] n)))) in
  (∀ e, e ≠ o → classList e d' = classList e d)
  ∧ (∀ c, c ≠ "fade-out" → c ≠ "hidden" →
          classList_contains o c d' = classList_contains o c d)
  ∧ attributes d' = attributes d
  ∧ (∀ x, children x d' = children x d
          ∨ children x d' = filter (λ k, k ≠ o) (children x d)).
Proof.
  intros Hq d'. subst d'. rewrite (on_load_found d L n o Hq).
  destruct waits as [|w waits].
  - cbn. repeat split; auto.
  - rewrite elapse_cons by apply sequence_in_firing_order.
    destruct (advance_sequence d L n (S (S (S n))) o (w + sum_list waits)) as [-> _].
    apply stage_frame.
Qed.

Lemma preload_touches_overlay_only_witness :
  let d' := Preload.page
              (Preload.elapse [600; 400]
                 (Preload.on_load
                    (Preload.mkState Preload.loading_page (mkTimers 0 [] 1)))) in
  (∀ e, e ≠ 2 → classList e d' = classList e Preload.loading_page)
  ∧ (∀ c, c ≠ "fade-out" → c ≠ "hidden" →
          classList_contains 2 c d' = classList_contains 2 c Preload.loading_page)
  ∧ attributes d' = attributes Preload.loading_page
  ∧ (∀ x, children x d' = children x Preload.loading_page
          ∨ children x d' = filter (λ k, k ≠ 2) (children x Preload.loading_page)).
Proof.
  apply (preload_touches_overlay_only Preload.loading_page 0 1 [600; 400] 2).
  vm_compute. reflexivity.
Defined.

(** ** Services tabs: the animation restart *)

Section TabsRestart.
Import Tabs TabsAnimation.
Implicit Types (st : state) (r : refs) (d : dom).

#[local] Instance keeps_in_view_preorder : PreOrder keeps_in_view.
Proof. split; [by intros st e | intros a b c H1 H2 e He; by apply H2, H1]. Qed.

Lemma handleMobileTab_opening_clock r tab p st :
  Forall (λ u, is_Some (panel_of u (page st))) (serviceTabs r) →
  act tab st = false →
  clock (exec (handleMobileTab r tab (Some p)) st)
  = (setTimeout (AnimateContent p) 50 (clock st)).2.
Proof.
  intros Hall Hopen.
  destruct (close_others_effect tab (page st) (serviceTabs r) st Hall)
    as (st1 & Hrun & [Hb _] & _); [reflexivity|].
  assert (Hclock : clock st1 = clock st).
  { unfold beside_page in Hb. by injection Hb. }
  unfold exec, handleMobileTab.
  change ((get ≫= ?k) st) with (k st st). cbn beta zeta.
  erewrite bind_normal; [|exact Hrun].
  unfold act in Hopen. rewrite Hopen. cbn [negb].
  unfold mbind, JS_bind, bind, modify, nonnull, ret, triggerAnimations.
  cbn. by rewrite Hclock.
Qed.

Lemma run_keeps_in_view r f st :
  narrow st → keeps_in_view st (exec (run r f) st).
Proof.
  intros Hn. destruct f as [content| |].
  - intros e He.
    destruct (restart_all (querySelectorAll content animate_repeat (page st)) st)
      as (st' & Hrun & Hall).
    assert (Heq : run r (AnimateContent content) st = (Normal tt, st')).
    { unfold run. change ((get ≫= ?k) st) with (k st st). exact Hrun. }
    unfold exec. rewrite Heq. apply Hall. by right.
  - destruct (run_check_narrow r st Hn) as [_ Hp].
    intros e. unfold in_view. by rewrite Hp.
  - revert st Hn.
    assert (Hst : stable keeps_in_view (run r InitialAnimations)).
    { unfold run.
      repeat (stable_step
              || lazymatch goal with
                 | |- keeps_in_view _ (on_page (classList_add _ _) _) =>
                     let e := fresh "e" in let He := fresh "He" in
                     intros e He; unfold in_view in *; cbn [page on_page];
                     rewrite classList_contains_add, He; apply orb_true_r
                 end). }
    intros st _. apply Hst.
Qed.

Lemma foldl_restart r p d0 (ready : list (timer task)) st :
  narrow st → same_except ["in-view"] d0 (page st) →
  Exists (is_restart p) ready
  ∨ (∀ el, el ∈ querySelectorAll p animate_repeat d0 → in_view el st = true) →
  ∀ el, el ∈ querySelectorAll p animate_repeat d0 →
        in_view el (foldl (λ st tm, exec (run r (callback tm)) st) st ready) = true.
Proof.
  revert st. induction ready as [|tm ready IH]; intros st Hn Hsame H; cbn [foldl].
  - destruct H as [H|H]; [by apply Exists_nil in H | done].
  - destruct (run_narrow_step r (callback tm) st Hn) as [Hn' Hstep].
    assert (Hsame' : same_except ["in-view"] d0
                       (page (exec (run r (callback tm)) st))) by by etrans.
    apply IH; [done | done |].
    destruct H as [H|H].
    + apply Exists_cons in H as [H|H]; [|by left].
      right. intros el Hel. unfold is_restart in H. rewrite H.
      destruct (restart_all (querySelectorAll p animate_repeat (page st)) st)
        as (st' & Hrun & Hall).
      assert (Heq : run r (AnimateContent p) st = (Normal tt, st')).
      { unfold run. change ((get ≫= ?k) st) with (k st st). exact Hrun. }
      unfold exec. rewrite Heq. apply Hall. left.
      rewrite (same_querySelectorAll ["in-view"] d0 (page st) Hsame); [done|].
      apply avoids_active_animate. set_solver.
    + right. intros el Hel. by apply (run_keeps_in_view r (callback tm) st Hn), H.
Qed.
End TabsRestart.

(** X18. Opening a tab restarts the animations of its panel.  In the
    narrow layout, on a page where the tabs are distinct, each has a
    panel of its own and no tab is a panel: 50 milliseconds after a
    click on a tab that did not carry [active], every element below its
    panel that carries [animate-repeat] carries [in-view], whatever
    else was pending. *)
Theorem opening_tab_restarts_animations
    (r : Tabs.refs) (tab p : nat) (st : Tabs.state) :
  Tabs.paired r (Tabs.page st) →
  Tabs.narrow st →
  tab ∈ Tabs.serviceTabs r →
  Tabs.act tab st = false →
  Tabs.panel_of tab (Tabs.page st) = Some p →
  let st' := Tabs.handle_all r [Tabs.Click tab; Tabs.Wait 50] st in
  ∀ el, el ∈ querySelectorAll p Tabs.animate_repeat (Tabs.page st) →
        classList_contains el "in-view" (Tabs.page st') = true.
Proof.
  intros Hpaired Hn Htab Hopen Hp st' el Hel. subst st'.
  unfold Tabs.handle_all. cbn [foldl].
  set (st1 := Tabs.handle r (Tabs.Click tab) st).
  destruct (click_narrow r tab st Hpaired Hn Htab) as (Hn1 & Hsame1 & _).
  fold st1 in Hn1, Hsame1.
  assert (Hclock : Tabs.clock st1
                   = (setTimeout (Tabs.AnimateContent p) 50 (Tabs.clock st)).2).
  { unfold st1. cbn [Tabs.handle].
    destruct Hn as [Hd _]. unfold exec.
    rewrite (on_click_narrow r tab p st Hd Hp).
    apply handleMobileTab_opening_clock; [|done].
    by destruct Hpaired as (_ & Hsome & _). }
  cbn [Tabs.handle]. unfold Tabs.advance, fire. cbn zeta.
  apply (foldl_restart r p (Tabs.page st1)).
  - destruct Hn1 as [Hd Hw]. by split.
  - reflexivity.
  - left. apply Exists_exists.
    exists (mkTimer (next_timer (Tabs.clock st)) (now (Tabs.clock st) + 50)
              (Tabs.AnimateContent p)).
    split; [|done]. apply list_elem_of_filter. rewrite Hclock.
    cbn [setTimeout snd now pending due]. split; [lia|].
    apply enqueue_elem_of. by left.
  - rewrite (same_querySelectorAll ["active"] (Tabs.page st) (Tabs.page st1) Hsame1);
      [done|]. apply avoids_active_animate. set_solver.
Qed.

Lemma opening_tab_restarts_animations_witness :
  let st := Tabs.boot Tabs.services_refs Tabs.services_page 400 in
  let st' := Tabs.handle_all Tabs.services_refs [Tabs.Click 6; Tabs.Wait 50] st in
  classList_contains 9 "in-view" (Tabs.page st') = true.
Proof.
  apply (opening_tab_restarts_animations Tabs.services_refs 6 7
           (Tabs.boot Tabs.services_refs Tabs.services_page 400)).
  - apply (bool_decide_unpack _). vm_compute. exact I.
  - split; [reflexivity | done].
  - set_solver.
  - reflexivity.
  - vm_compute. reflexivity.
  - vm_compute. set_solver.
Defined.

(** ** Services tabs: the first animations *)

Section TabsFirstPaint.
Import Tabs TabsAnimation.
Implicit Types (st : state) (r : refs) (d : dom).

Lemma add_all els st :
  ∃ st',
    forEach els (λ el, modify (on_page (classList_add el "in-view"))) st
    = (Normal tt, st')
    ∧ writes ["in-view"] st st'
    ∧ ∀ e, e ∈ els ∨ in_view e st = true → in_view e st' = true.
Proof.
  revert st. induction els as [|el els IH]; intros st; cbn [forEach].
  - exists st. split; [done|]. split; [reflexivity|].
    intros e [H|H]; [by apply not_elem_of_nil in H | done].
  - destruct (IH (on_page (classList_add el "in-view") st)) as (st' & Hrun & Hw & Hkeep).
    exists st'. split; [by erewrite bind_normal|]. split.
    + etrans; [|exact Hw]. apply writes_add. set_solver.
    + intros e He. apply Hkeep. unfold in_view. cbn [page on_page].
      rewrite classList_contains_add.
      destruct (decide (e = el)) as [->|Hne].
      * right. by rewrite bool_decide_eq_true_2.
      * destruct He as [He|He]; [left; set_solver|right].
        unfold in_view in He. rewrite He. apply orb_true_r.
Qed.

(** The module started in a narrow window. *)
Lemma boot_narrow_eval r d w :
  (w < 768)%Z →
  boot r d w
  = mkState d w false None (mkTimers 0 [mkTimer 1 200 InitialAnimations] 2).
Proof.
  intros Hw. apply Z.leb_gt in Hw. unfold boot, exec, start.
  unfold mbind at 1 2, JS_bind, bind, modify.
  cbn [innerWidth set_isDesktop]. rewrite Hw.
  rewrite handleLayout_eval. cbn zeta. cbn [innerWidth set_isDesktop]. rewrite Hw.
  reflexivity.
Qed.
End TabsFirstPaint.

(** X19. The first animations.  Started in a window narrower than 768
    on a document [d], the module is in the narrow layout with the
    document untouched and one callback pending, due after 200
    milliseconds.  When that time has passed, every element below the
    first panel that carries [services-tab-content] and [active], if
    there is one, and that carries [animate-repeat] carries [in-view];
    the page differs from [d] in [in-view] classes only. *)
Theorem first_animations_after_start
    (r : Tabs.refs) (d : dom) (w : Z) :
  (w < 768)%Z →
  let st := Tabs.boot r d w in
  let st' := Tabs.handle r (Tabs.Wait 200) st in
  Tabs.page st = d
  ∧ Tabs.isDesktop st = false
  ∧ pending (Tabs.clock st) = [mkTimer 1 200 Tabs.InitialAnimations]
  ∧ same_except ["in-view"] d (Tabs.page st')
  ∧ pending (Tabs.clock st') = []
  ∧ ∀ mc el,
      querySelector document Tabs.active_tab_content d = Some mc →
      el ∈ querySelectorAll mc Tabs.animate_repeat d →
      classList_contains el "in-view" (Tabs.page st') = true.
Proof.
  intros Hw st st'. subst st' st. rewrite (boot_narrow_eval r d w Hw).
  split; [done|]. split; [done|]. split; [done|].
  cbn [Tabs.handle]. unfold Tabs.advance, fire.
  cbn [Tabs.clock now pending next_timer].
  rewrite !filter_cons, !filter_nil. cbn [due].
  repeat case_decide; try (exfalso; lia).
  cbn [foldl callback].
  set (s0 := Tabs.set_clock _ _).
  assert (Hs0 : Tabs.page s0 = d ∧ Tabs.isDesktop s0 = false
                ∧ pending (Tabs.clock s0) = []) by done.
  destruct Hs0 as (Hpage & Hdesk & Hpend).
  assert (Hrun : ∃ st',
    Tabs.run r Tabs.InitialAnimations s0 = (Normal tt, st')
    ∧ Tabs.writes ["in-view"] s0 st'
    ∧ ∀ mc el, querySelector document Tabs.active_tab_content d = Some mc →
               el ∈ querySelectorAll mc Tabs.animate_repeat d →
               TabsAnimation.in_view el st' = true).
  { unfold Tabs.run. change ((get ≫= ?k) s0) with (k s0 s0). cbn beta zeta.
    rewrite Hpage, Hdesk. cbn [negb].
    destruct (querySelector document Tabs.active_tab_content d) as [mc|].
    - destruct (add_all (querySelectorAll mc Tabs.animate_repeat d) s0)
        as (st' & Hrun & Hwr & Hall).
      assert (Hd' : Tabs.isDesktop st' = false).
      { destruct Hwr as [Hb _]. unfold Tabs.beside_page in Hb.
        injection Hb as _ Hd' _ _. by rewrite Hd'. }
      exists st'. split; [|split; [done|]].
      + erewrite bind_normal; [|exact Hrun].
        change ((get ≫= ?k) st') with (k st' st'). cbn beta. rewrite Hd'.
        by destruct (querySelector document Tabs.desktop_tab_content d).
      + intros mc' el Hmc Hel. injection Hmc as <-. apply Hall. by left.
    - exists s0. split; [|split; [reflexivity | done]].
      unfold mbind at 1, JS_bind, bind, ret. cbn.
      change ((get ≫= ?k) s0) with (k s0 s0). cbn beta. rewrite Hdesk.
      by destruct (querySelector document Tabs.desktop_tab_content d). }
  destruct Hrun as (st' & Heq & [Hb Hsame] & Hall).
  unfold exec. rewrite Heq. cbn [snd].
  split; [by rewrite <- Hpage|]. split; [|exact Hall].
  unfold Tabs.beside_page in Hb. injection Hb as _ _ _ Hc. by rewrite Hc.
Qed.

Lemma first_animations_after_start_witness :
  let st := Tabs.boot Tabs.services_refs Tabs.services_page 400 in
  let st' := Tabs.handle Tabs.services_refs (Tabs.Wait 200) st in
  classList_contains 8 "in-view" (Tabs.page st') = true.
Proof.
  intros st st'.
  destruct (first_animations_after_start Tabs.services_refs Tabs.services_page 400)
    as (_ & _ & _ & _ & _ & Hall); [done|].
  apply (Hall 4 8); vm_compute; [reflexivity | set_solver].
Defined.
